(** * Blender add-ons: grid placement and origin-shift sessions

    A shallow embedding of the placement routine of the tree-grid importers
    ([CE-Tree-Grid.py], [CE-trees-to-grid.py]) and of the origin-shift /
    restore operators of the LOD editing add-on ([Edit-large-3D-LOD-model.py],
    [Edit-large-3d_LOD-models-improved.py]).

    Numbers.  The scripts compute with the host's floating point numbers.
    They are embedded as exact rationals [Q]; equalities between computed
    coordinates are stated with [==] (equality of fractions).  Rounding is
    therefore outside the model.

    Effects.  The scripts mutate the host's scene and a few module globals
    and may raise.  Both are embedded with one state-and-exception monad
    [Py.M]: a computation takes the store and gives back an outcome (a
    returned value or a raised exception) together with the store reached. *)

From Stdlib Require Import QArith Qminmax Lqa ZArith List String Lia.
From stdpp Require Import base option list strings pretty gmap.
Import ListNotations.

#[local] Open Scope Q_scope.

(* ------------------------------------------------------------------------- *)
(** ** mathutils: vectors and object matrices *)

Module Geometry.

(** [mathutils.Vector] of size three. *)
Record Vector : Type := mkVector { vx : Q; vy : Q; vz : Q }.

Definition vzero : Vector := mkVector 0 0 0.

Definition vadd (a b : Vector) : Vector :=
  mkVector (vx a + vx b) (vy a + vy b) (vz a + vz b).

Definition vsub (a b : Vector) : Vector :=
  mkVector (vx a - vx b) (vy a - vy b) (vz a - vz b).

Definition vneg (a : Vector) : Vector :=
  mkVector (- vx a) (- vy a) (- vz a).

(** [v / k] *)
Definition vdiv (a : Vector) (k : Q) : Vector :=
  mkVector (vx a / k) (vy a / k) (vz a / k).

(** Equality of vectors as points (component-wise equality of fractions). *)
Definition veq (a b : Vector) : Prop :=
  vx a == vx b /\ vy a == vy b /\ vz a == vz b.

(** An object matrix: the 4x4 matrix whose last row is [(0, 0, 0, 1)], kept
    as the three rows of its linear part and its translation column. *)
Record Matrix : Type := mkMatrix {
  row_x : Vector;
  row_y : Vector;
  row_z : Vector;
  translation : Vector
}.

Definition dot (a b : Vector) : Q :=
  vx a * vx b + vy a * vy b + vz a * vz b.

Definition identity : Matrix :=
  mkMatrix (mkVector 1 0 0) (mkVector 0 1 0) (mkVector 0 0 1) vzero.

(** [m @ v] for a 4x4 matrix and a vector of size three: the vector is
    extended with [w = 1] and the result cut back to three components. *)
Definition mat_apply (m : Matrix) (v : Vector) : Vector :=
  mkVector (dot (row_x m) v + vx (translation m))
           (dot (row_y m) v + vy (translation m))
           (dot (row_z m) v + vz (translation m)).

(** [Matrix.Translation(t) @ m] *)
Definition mat_translate (t : Vector) (m : Matrix) : Matrix :=
  mkMatrix (row_x m) (row_y m) (row_z m) (vadd t (translation m)).

Definition meq (a b : Matrix) : Prop :=
  veq (row_x a) (row_x b) /\ veq (row_y a) (row_y b) /\
  veq (row_z a) (row_z b) /\ veq (translation a) (translation b).

End Geometry.

(* ------------------------------------------------------------------------- *)
(** ** Python: exceptions, state, loops, [min] and [max] *)

Module Py.

Inductive exn : Type :=
| ReferenceError   (* a reference to a datablock the host no longer has *)
| AttributeError   (* the host refuses an attribute access *)
| TypeError
| ValueError       (* [min()] / [max()] of an empty sequence *)
| RuntimeError.    (* the host refuses a call in the current context *)

Inductive outcome (A : Type) : Type :=
| Returned (a : A)
| Raised (e : exn).
Arguments Returned {A} a.
Arguments Raised {A} e.

(** A computation over a store [S]. *)
Definition M (S A : Type) : Type := S -> outcome A * S.

Definition ret {S A} (a : A) : M S A := fun s => (Returned a, s).

Definition raise {S A} (e : exn) : M S A := fun s => (Raised e, s).

Definition bind {S A B} (c : M S A) (k : A -> M S B) : M S B :=
  fun s => match c s with
           | (Returned a, s') => k a s'
           | (Raised e, s') => (Raised e, s')
           end.

(** [try: c  except: h] with a bare [except]. *)
Definition try_except {S A} (c : M S A) (h : M S A) : M S A :=
  fun s => match c s with
           | (Returned a, s') => (Returned a, s')
           | (Raised _, s') => h s'
           end.

Definition get {S} : M S S := fun s => (Returned s, s).
Definition modify {S} (f : S -> S) : M S unit := fun s => (Returned tt, f s).

(** A pure computation that may raise, run inside [M]. *)
Definition lift {S A} (o : outcome A) : M S A := fun s => (o, s).

Declare Scope py_scope.
Delimit Scope py_scope with py.
Notation "x <- c ;; k" := (bind c (fun x => k))
  (at level 100, c at next level, right associativity) : py_scope.
Notation "c ;; k" := (bind c (fun _ => k))
  (at level 100, right associativity) : py_scope.

#[local] Open Scope py_scope.

(** [for x in xs: body x] *)
Fixpoint for_each {S A} (xs : list A) (body : A -> M S unit) : M S unit :=
  match xs with
  | [] => ret tt
  | x :: rest => body x ;; for_each rest body
  end.

(** A loop that threads a local variable [acc] through its body. *)
Fixpoint for_fold {S A B} (xs : list A) (acc : B) (body : B -> A -> M S B)
  : M S B :=
  match xs with
  | [] => ret acc
  | x :: rest => acc' <- body acc x ;; for_fold rest acc' body
  end.

Definition Qlt_bool (x y : Q) : bool :=
  match x ?= y with Lt => true | _ => false end.

(** [min(xs)]: the first item, replaced by each later item that is strictly
    smaller; [ValueError] on an empty sequence. *)
Definition py_min (xs : list Q) : outcome Q :=
  match xs with
  | [] => Raised ValueError
  | x :: rest =>
      Returned (fold_left (fun m item => if Qlt_bool item m then item else m) rest x)
  end.

(** [max(xs)]: the first item, replaced by each later item that is strictly
    greater. *)
Definition py_max (xs : list Q) : outcome Q :=
  match xs with
  | [] => Raised ValueError
  | x :: rest =>
      Returned (fold_left (fun m item => if Qlt_bool m item then item else m) rest x)
  end.

End Py.

(* ------------------------------------------------------------------------- *)
(** ** The host's scene graph, as far as the placement routine uses it

    The scripts call into the host for every object they touch.  The part of
    the host they rely on is modelled here with the contract the placement
    routine is written against: an anchor (an Empty created by
    [bpy.data.objects.new(name, None)]) starts at the origin with no rotation
    and no scale, assigning [obj.parent] keeps the world transform of [obj],
    and a child's world transform is its parent's translation applied to the
    child's own matrix, so that children follow the anchor rigidly.

    This is a contract, not what the assignment [obj.parent = a] does by
    itself: the properties of the placement routine that rest on it say so,
    and [Evaluated], further down, embeds the routine over the host's
    evaluated transforms, without it. *)

Module Host.
Import Geometry Py.
#[local] Open Scope py_scope.

(** An imported object: what the routine reads of it and writes to it. *)
Record Fragment : Type := mkFragment {
  frag_name : string;
  (** [obj.parent]: an anchor of the scene, by index *)
  frag_parent : option nat;
  (** the object's transform relative to its parent (its world transform
      when it has none) *)
  frag_matrix : Matrix;
  (** [obj.bound_box]: the corners of the local bounding box; [None] when
      the host raises on the access *)
  frag_bound_box : option (list Vector)
}.

(** An Empty created by the routine. *)
Record Anchor : Type := mkAnchor {
  anchor_name : string;
  anchor_location : Vector
}.

Record Scene : Type := mkScene {
  fragments : list Fragment;
  anchors : list Anchor;
  (** [collection.objects]: pairs of a collection and an anchor linked to it *)
  collection_objects : list (string * nat)
}.

Definition with_fragments (fs : list Fragment) (sc : Scene) : Scene :=
  mkScene fs (anchors sc) (collection_objects sc).

Definition with_anchors (es : list Anchor) (sc : Scene) : Scene :=
  mkScene (fragments sc) es (collection_objects sc).

(** [obj.matrix_world] *)
Definition matrix_world (sc : Scene) (f : Fragment) : Matrix :=
  match frag_parent f with
  | None => frag_matrix f
  | Some a =>
      match anchors sc !! a with
      | Some e => mat_translate (anchor_location e) (frag_matrix f)
      | None => frag_matrix f
      end
  end.

(** Following a reference to an object. *)
Definition fragment_of (obj : nat) : M Scene Fragment :=
  fun sc => match fragments sc !! obj with
            | Some f => (Returned f, sc)
            | None => (Raised ReferenceError, sc)
            end.

Definition anchor_of (a : nat) : M Scene Anchor :=
  fun sc => match anchors sc !! a with
            | Some e => (Returned e, sc)
            | None => (Raised ReferenceError, sc)
            end.

(** [bpy.data.objects.new(name, None)] *)
Definition objects_new (name : string) : M Scene nat :=
  fun sc => (Returned (length (anchors sc)),
             with_anchors (anchors sc ++ [mkAnchor name vzero]) sc).

(** [collection.objects.link(a)] *)
Definition objects_link (collection : string) (a : nat) : M Scene unit :=
  modify (fun sc => mkScene (fragments sc) (anchors sc)
                            (collection_objects sc ++ [(collection, a)])).

(** [obj.parent = a] *)
Definition set_parent (obj a : nat) : M Scene unit :=
  f <- fragment_of obj ;;
  e <- anchor_of a ;;
  sc <- get ;;
  let world := matrix_world sc f in
  modify (with_fragments
            (<[obj := mkFragment (frag_name f) (Some a)
                        (mat_translate (vneg (anchor_location e)) world)
                        (frag_bound_box f)]> (fragments sc))).

(** [obj.bound_box] *)
Definition get_bound_box (obj : nat) : M Scene (list Vector) :=
  f <- fragment_of obj ;;
  match frag_bound_box f with
  | Some bb => ret bb
  | None => raise AttributeError
  end.

(** [obj.matrix_world] *)
Definition get_matrix_world (obj : nat) : M Scene Matrix :=
  f <- fragment_of obj ;;
  sc <- get ;;
  ret (matrix_world sc f).

(** [a.location] *)
Definition get_location (a : nat) : M Scene Vector :=
  e <- anchor_of a ;; ret (anchor_location e).

(** [a.location = v] *)
Definition set_location (a : nat) (v : Vector) : M Scene unit :=
  e <- anchor_of a ;;
  modify (fun sc => with_anchors (<[a := mkAnchor (anchor_name e) v]> (anchors sc)) sc).

End Host.

(* ------------------------------------------------------------------------- *)
(** ** CE-Tree-Grid.py *)

Module TreeGrid.
Import Geometry Py Host.
#[local] Open Scope py_scope.

Definition grid_cell_center (cell_x cell_y : Z) (spacing : Q) : Vector :=
  mkVector (inject_Z cell_x * spacing + spacing / 2)
           (- inject_Z cell_y * spacing - spacing / 2)
           0.

Definition align_group_with_empty
    (imported_objs : list nat) (cell_x cell_y : Z) (spacing : Q)
    (style_name : string) (tree_collection : string) : M Scene (option nat) :=
  match imported_objs with
  | [] => ret None
  | _ :: _ =>
      style_empty <- objects_new style_name ;;
      objects_link tree_collection style_empty ;;
      for_each imported_objs (fun obj => set_parent obj style_empty) ;;
      all_coords <-
        for_fold imported_objs [] (fun coords obj =>
          bound_box <- get_bound_box obj ;;
          for_fold bound_box coords (fun coords v =>
            matrix_world <- get_matrix_world obj ;;
            ret (coords ++ [mat_apply matrix_world v]))) ;;
      match all_coords with
      | _ :: _ =>
          min_x <- lift (py_min (map vx all_coords)) ;;
          min_y <- lift (py_min (map vy all_coords)) ;;
          min_z <- lift (py_min (map vz all_coords)) ;;
          let min_corner := mkVector min_x min_y min_z in
          max_x <- lift (py_max (map vx all_coords)) ;;
          max_y <- lift (py_max (map vy all_coords)) ;;
          max_z <- lift (py_max (map vz all_coords)) ;;
          let max_corner := mkVector max_x max_y max_z in
          let center := vdiv (vadd min_corner max_corner) 2 in
          let target := grid_cell_center cell_x cell_y spacing in
          let offset := mkVector (vx target - vx center)
                                 (vy target - vy center)
                                 (- vz min_corner) in
          location <- get_location style_empty ;;
          set_location style_empty (vadd location offset) ;;
          ret None
      | [] => ret None
      end
  end.

End TreeGrid.

(* ------------------------------------------------------------------------- *)
(** ** CE-trees-to-grid.py *)

Module TreesToGrid.
Import Geometry Py Host.
#[local] Open Scope py_scope.

Definition grid_cell_center (x y : Z) (s : Q) : Vector :=
  mkVector (inject_Z x * s + s / 2) (- inject_Z y * s - s / 2) 0.

(** The three results are [None] together, as in the source. *)
Definition compute_world_bbox (objs : list nat)
  : M Scene (option Vector * option Vector * option Vector) :=
  coords <-
    for_fold objs [] (fun coords obj =>
      bb <- try_except (bb <- get_bound_box obj ;; ret (Some bb)) (ret None) ;;
      match bb with
      | None => ret coords
      | Some bb =>
          for_fold bb coords (fun coords v =>
            matrix_world <- get_matrix_world obj ;;
            ret (coords ++ [mat_apply matrix_world v]))
      end) ;;
  match coords with
  | [] => ret (None, None, None)
  | _ :: _ =>
      min_x <- lift (py_min (map vx coords)) ;;
      min_y <- lift (py_min (map vy coords)) ;;
      min_z <- lift (py_min (map vz coords)) ;;
      let min_corner := mkVector min_x min_y min_z in
      max_x <- lift (py_max (map vx coords)) ;;
      max_y <- lift (py_max (map vy coords)) ;;
      max_z <- lift (py_max (map vz coords)) ;;
      let max_corner := mkVector max_x max_y max_z in
      let center := vdiv (vadd min_corner max_corner) 2 in
      ret (Some min_corner, Some max_corner, Some center)
  end.

Definition align_group_with_empty
    (imported_objs : list nat) (cell_x cell_y : Z) (spacing : Q)
    (group_name : string) (collection : string) : M Scene (option nat) :=
  match imported_objs with
  | [] => ret None
  | _ :: _ =>
      empty <- objects_new group_name ;;
      objects_link collection empty ;;
      for_each imported_objs (fun obj => set_parent obj empty) ;;
      bbox <- compute_world_bbox imported_objs ;;
      let '(min_corner, max_corner, center) := bbox in
      match center with
      | None => ret (Some empty)
      | Some center =>
          let target := grid_cell_center cell_x cell_y spacing in
          min_corner <- match min_corner with
                        | Some v => ret v
                        | None => raise AttributeError
                        end ;;
          let offset := mkVector (vx target - vx center)
                                 (vy target - vy center)
                                 (- vz min_corner) in
          location <- get_location empty ;;
          set_location empty (vadd location offset) ;;
          ret (Some empty)
      end
  end.

End TreesToGrid.

(* ------------------------------------------------------------------------- *)
(** ** Edit-large-3D-LOD-model.py and Edit-large-3d_LOD-models-improved.py

    The two files carry the same operators; version 1.5 writes the search
    for new meshes as a comprehension and drops a [print] from the restore
    loop.  Neither changes the store, so one embedding serves both. *)

Module LodSession.
Import Geometry Py.
#[local] Open Scope py_scope.

(** [obj.data]: a mesh datablock of [bpy.data.meshes], or a datablock of
    another kind (curve, light, ...). *)
Inductive DataRef : Type :=
| MeshRef (id : nat)
| OtherRef.

Inductive ObjectType : Type := MESH | EMPTY | OTHER.

(** An object of [bpy.data.objects].  Its name is the key under which the
    host files it. *)
Record Object : Type := mkObject {
  data : option DataRef;
  location : Vector;
  (** the world matrix as last evaluated by the host *)
  matrix_world : Matrix;
  (** whether the object is selected *)
  select : bool;
  (** whether the object is one of [bpy.context.scene.objects] *)
  in_scene : bool
}.

(** [obj.type] follows the kind of [obj.data]. *)
Definition type (o : Object) : ObjectType :=
  match data o with
  | Some (MeshRef _) => MESH
  | Some OtherRef => OTHER
  | None => EMPTY
  end.

Definition is_mesh (o : Object) : bool :=
  match type o with MESH => true | _ => false end.

(** A mesh object of [bpy.context.scene.objects]. *)
Definition scene_mesh (o : Object) : bool := in_scene o && is_mesh o.

Inductive ReportType : Type := INFO | WARNING | ERROR.
Inductive OperatorResult : Type := FINISHED | CANCELLED.

Record State : Type := mkState {
  (** [bpy.data.objects]: the host keeps object names unique and looks
      objects up by name, so the collection is a finite map from names *)
  objects : gmap string Object;
  (** [bpy.data.meshes]: the vertex coordinates of each mesh datablock *)
  meshes : gmap nat (list Vector);
  (** [bpy.context.view_layer.objects.active] *)
  active : option string;
  (** the module globals *)
  original_positions_store : list (string * Vector);
  original_geometry_store : list (string * DataRef);
  selected_reference_name : option string;
  scene_offset_vector : Vector;
  (** what [self.report] has shown *)
  reports : list (ReportType * string)
}.

Definition with_objects (os : gmap string Object) (st : State) : State :=
  mkState os (meshes st) (active st) (original_positions_store st)
          (original_geometry_store st) (selected_reference_name st)
          (scene_offset_vector st) (reports st).

Definition with_meshes (ms : gmap nat (list Vector)) (st : State) : State :=
  mkState (objects st) ms (active st) (original_positions_store st)
          (original_geometry_store st) (selected_reference_name st)
          (scene_offset_vector st) (reports st).

Definition with_active (a : option string) (st : State) : State :=
  mkState (objects st) (meshes st) a (original_positions_store st)
          (original_geometry_store st) (selected_reference_name st)
          (scene_offset_vector st) (reports st).

Definition with_positions (ps : list (string * Vector)) (st : State) : State :=
  mkState (objects st) (meshes st) (active st) ps
          (original_geometry_store st) (selected_reference_name st)
          (scene_offset_vector st) (reports st).

Definition with_geometry (gs : list (string * DataRef)) (st : State) : State :=
  mkState (objects st) (meshes st) (active st) (original_positions_store st)
          gs (selected_reference_name st)
          (scene_offset_vector st) (reports st).

Definition with_offset (v : Vector) (st : State) : State :=
  mkState (objects st) (meshes st) (active st) (original_positions_store st)
          (original_geometry_store st) (selected_reference_name st)
          v (reports st).

Definition with_reports (rs : list (ReportType * string)) (st : State) : State :=
  mkState (objects st) (meshes st) (active st) (original_positions_store st)
          (original_geometry_store st) (selected_reference_name st)
          (scene_offset_vector st) rs.

Definition with_location (v : Vector) (o : Object) : Object :=
  mkObject (data o) v (matrix_world o) (select o) (in_scene o).

Definition with_data (d : option DataRef) (o : Object) : Object :=
  mkObject d (location o) (matrix_world o) (select o) (in_scene o).

Definition with_select (b : bool) (o : Object) : Object :=
  mkObject (data o) (location o) (matrix_world o) b (in_scene o).

(** [self.report({level}, message)] *)
Definition report (level : ReportType) (message : string) : M State unit :=
  modify (fun st => with_reports (reports st ++ [(level, message)]) st).

(** [dict[key] = value] on a dictionary kept in insertion order. *)
Fixpoint dict_set {V} (key : string) (value : V) (d : list (string * V))
  : list (string * V) :=
  match d with
  | [] => [(key, value)]
  | (k, v) :: rest =>
      if String.eqb k key then (k, value) :: rest
      else (k, v) :: dict_set key value rest
  end.

(** [mesh.copy()]: a new datablock with the same vertices. *)
Definition copy_data (d : DataRef) : M State DataRef :=
  match d with
  | OtherRef => ret OtherRef
  | MeshRef id =>
      st <- get ;;
      match meshes st !! id with
      | None => raise ReferenceError
      | Some verts =>
          let id' := fresh (dom (meshes st)) in
          modify (with_meshes (<[id' := verts]> (meshes st))) ;;
          ret (MeshRef id')
      end
  end.

(** [bm.from_mesh(data)]: the vertices of a mesh datablock. *)
Definition from_mesh (d : option DataRef) : M State (list Vector) :=
  match d with
  | Some (MeshRef id) =>
      st <- get ;;
      match meshes st !! id with
      | Some verts => ret verts
      | None => raise ReferenceError
      end
  | _ => raise TypeError
  end.

(** [bm.to_mesh(data)] *)
Definition to_mesh (verts : list Vector) (d : option DataRef) : M State unit :=
  match d with
  | Some (MeshRef id) =>
      st <- get ;;
      match meshes st !! id with
      | Some _ => modify (with_meshes (<[id := verts]> (meshes st)))
      | None => raise ReferenceError
      end
  | _ => raise TypeError
  end.

(** Whether the object uses the mesh datablock [id]. *)
Definition uses_mesh (id : nat) (o : Object) : bool :=
  match data o with
  | Some (MeshRef k) => Nat.eqb k id
  | _ => false
  end.

(** [bpy.data.meshes.remove(mesh)], called with the default
    [do_unlink=True]: the host drops the datablock and, with it, every
    object that still uses it. *)
Definition meshes_remove (d : DataRef) : M State unit :=
  match d with
  | MeshRef id =>
      st <- get ;;
      match meshes st !! id with
      | Some _ =>
          modify (fun st =>
            with_objects
              (filter (fun item => uses_mesh id item.2 = false) (objects st))
              (with_meshes (delete id (meshes st)) st))
      | None => raise ReferenceError
      end
  | OtherRef => raise TypeError
  end.

(** [sum((v.co for v in bm.verts), mathutils.Vector()) / len(bm.verts)]
    when there are vertices, the zero vector otherwise. *)
Definition geometry_center_of (verts : list Vector) : Vector :=
  match verts with
  | _ :: _ => vdiv (fold_left vadd verts vzero) (inject_Z (Z.of_nat (length verts)))
  | [] => vzero
  end.

(** Following a reference to an object. *)
Definition object_of (obj : string) : M State Object :=
  fun st => match objects st !! obj with
            | Some o => (Returned o, st)
            | None => (Raised ReferenceError, st)
            end.

(** An assignment to an attribute of the object [obj]. *)
Definition update_object (obj : string) (f : Object -> Object) : M State unit :=
  modify (fun st => with_objects (alter f obj (objects st)) st).

(** [obj.data = d]: the host accepts a datablock of the object's own kind. *)
Definition set_data (obj : string) (d : DataRef) : M State unit :=
  o <- object_of obj ;;
  st <- get ;;
  match data o, d with
  | Some (MeshRef _), MeshRef id =>
      match meshes st !! id with
      | Some _ => update_object obj (with_data (Some d))
      | None => raise ReferenceError
      end
  | Some OtherRef, OtherRef => update_object obj (with_data (Some d))
  | _, _ => raise TypeError
  end.

(** The names and objects a loop over [bpy.context.scene.objects] visits
    with [obj.type == 'MESH']. *)
Definition scene_meshes (st : State) : list (string * Object) :=
  filter (fun item => scene_mesh item.2 = true) (map_to_list (objects st)).

(** [OBJECT_OT_MoveReferenceToOrigin.execute] *)
Definition move_reference_to_origin : M State OperatorResult :=
  st <- get ;;
  match selected_reference_name st with
  | None | Some EmptyString =>
      report WARNING "No reference object selected. Run 'Select Random Model' first." ;;
      ret CANCELLED
  | Some ref_name =>
      match objects st !! ref_name with
      | None =>
          report WARNING ("Reference object '" +:+ ref_name +:+ "' not found.") ;;
          ret CANCELLED
      | Some ref_obj =>
          (* Clear previous stored data *)
          modify (with_positions []) ;;
          modify (with_geometry []) ;;
          (* Store original positions of all mesh objects *)
          modify (fun st =>
            with_positions
              (original_positions_store st ++
               map (fun item => (item.1, location item.2)) (scene_meshes st)) st) ;;
          (* Store original geometry data for the reference object *)
          match data ref_obj with
          | Some d =>
              original_mesh <- copy_data d ;;
              modify (fun st =>
                with_geometry
                  (dict_set ref_name original_mesh (original_geometry_store st)) st)
          | None => ret tt
          end ;;
          modify (with_active (Some ref_name)) ;;
          (* [select_all(action='DESELECT')] and [select_set(True)], as the
             writes they make when the host runs them *)
          modify (fun st => with_objects (with_select false <$> objects st) st) ;;
          update_object ref_name (with_select true) ;;
          (* Calculate geometry center using bmesh *)
          verts <- from_mesh (data ref_obj) ;;
          let geometry_center := geometry_center_of verts in
          (* Transform geometry center to world coordinates *)
          let geometry_center_world :=
            mat_apply (matrix_world ref_obj) geometry_center in
          (* Move all vertices to center the geometry around origin *)
          to_mesh (map (fun co => vsub co geometry_center) verts) (data ref_obj) ;;
          (* Now move the reference object to global origin *)
          update_object ref_name (with_location vzero) ;;
          let offset_vector := vneg geometry_center_world in
          (* Store the total offset that was applied to the scene *)
          modify (with_offset offset_vector) ;;
          (* Move all other mesh objects relative to the reference *)
          modify (fun st =>
            with_objects
              (map_imap (fun n obj =>
                 Some (if scene_mesh obj && negb (String.eqb n ref_name)
                       then with_location (vadd (location obj) offset_vector) obj
                       else obj))
                 (objects st)) st) ;;
          st <- get ;;
          report INFO ("Centered " +:+ ref_name +:+ " at origin and repositioned "
                       +:+ pretty (length (scene_meshes st)) +:+ " mesh objects.") ;;
          ret FINISHED
      end
  end.

(** [OBJECT_OT_RegisterNewMeshes.execute] *)
Definition register_new_meshes : M State OperatorResult :=
  st <- get ;;
  match original_positions_store st with
  | [] =>
      report WARNING "No active session. Move reference to origin first." ;;
      ret CANCELLED
  | _ :: _ =>
      let stored_names := (original_positions_store st).*1 in
      let new_meshes :=
        filter (fun item => item.1 ∉ stored_names) (scene_meshes st) in
      match new_meshes with
      | [] =>
          report INFO "No new mesh objects found." ;;
          ret FINISHED
      | _ :: _ =>
          new_count <-
            for_fold new_meshes 0%nat (fun new_count item =>
              st <- get ;;
              let original_location :=
                vsub (location item.2) (scene_offset_vector st) in
              modify (with_positions
                        (original_positions_store st ++ [(item.1, original_location)])) ;;
              report INFO ("Registered new mesh " +:+ item.1 +:+ " for restore.") ;;
              ret (S new_count)) ;;
          report INFO ("Registered " +:+ pretty new_count
                       +:+ " new mesh objects for restore.") ;;
          ret FINISHED
      end
  end.

(** [OBJECT_OT_RestoreOriginalPosition.execute] *)
Definition restore_original_position : M State OperatorResult :=
  st <- get ;;
  match original_positions_store st with
  | [] =>
      report WARNING "No stored positions found. Move reference to origin first." ;;
      ret CANCELLED
  | _ :: _ =>
      (* Restore original positions *)
      restored_count <-
        for_fold (original_positions_store st) 0%nat (fun restored_count item =>
          let '(name, orig_loc) := item in
          st <- get ;;
          match objects st !! name with
          | Some _ =>
              update_object name (with_location orig_loc) ;;
              ret (S restored_count)
          | None => ret restored_count
          end) ;;
      (* Restore original geometry for reference objects *)
      st <- get ;;
      for_each (original_geometry_store st) (fun item =>
        let '(obj_name, original_mesh) := item in
        st <- get ;;
        match objects st !! obj_name with
        | Some obj =>
            match data obj with
            | Some old_mesh =>
                set_data obj_name original_mesh ;;
                meshes_remove old_mesh
            | None => ret tt
            end
        | None => ret tt
        end) ;;
      (* Clear stored data *)
      modify (with_positions []) ;;
      modify (with_geometry []) ;;
      modify (with_offset vzero) ;;
      report INFO ("Restored " +:+ pretty restored_count
                   +:+ " objects to original positions and geometry.") ;;
      ret FINISHED
  end.

End LodSession.

(* ------------------------------------------------------------------------- *)
(** ** What the placement routine is meant to achieve

    The notions below are stated on the scene alone, without reference to
    the code: the corners of a group in world space and what it means for two
    points to be the corners of their union bounding box. *)

Module Placement.
Import Geometry Py Host.

(** The world-space bounding-box corners of a group: every local corner of
    every fragment, moved by the fragment's world matrix.  A reference the
    host cannot follow and a bounding box it cannot give contribute nothing. *)
Definition world_corners (sc : Scene) (objs : list nat) : list Vector :=
  flat_map (fun obj =>
              match fragments sc !! obj with
              | Some f =>
                  match frag_bound_box f with
                  | Some bb => map (mat_apply (matrix_world sc f)) bb
                  | None => []
                  end
              | None => []
              end) objs.

(** [m] is the least value of the coordinate [f] over the points [cs]. *)
Definition is_min (f : Vector -> Q) (cs : list Vector) (m : Q) : Prop :=
  Forall (fun c => m <= f c) cs /\ Exists (fun c => f c == m) cs.

(** [m] is the greatest value of the coordinate [f] over the points [cs]. *)
Definition is_max (f : Vector -> Q) (cs : list Vector) (m : Q) : Prop :=
  Forall (fun c => f c <= m) cs /\ Exists (fun c => f c == m) cs.

(** [mn] and [mx] are the component-wise minimum and maximum of [cs]. *)
Definition is_union_bbox (cs : list Vector) (mn mx : Vector) : Prop :=
  (is_min vx cs (vx mn) /\ is_min vy cs (vy mn) /\ is_min vz cs (vz mn)) /\
  (is_max vx cs (vx mx) /\ is_max vy cs (vy mx) /\ is_max vz cs (vz mx)).

(** The translation the routine is specified to apply. *)
Definition placement_offset (mn mx target : Vector) : Vector :=
  let center := vdiv (vadd mn mx) 2 in
  mkVector (vx target - vx center) (vy target - vy center) (- vz mn).

(** The references of a group can be followed and every fragment has the
    eight corners of a bounding box. *)
Definition group_ok (sc : Scene) (objs : list nat) : Prop :=
  Forall (fun obj => exists f bb,
            fragments sc !! obj = Some f /\
            frag_bound_box f = Some bb /\ length bb = 8%nat) objs.

(** The references of a group can be followed and the host gives every
    bounding box. *)
Definition readable (sc : Scene) (objs : list nat) : Prop :=
  Forall (fun obj => exists f bb,
            fragments sc !! obj = Some f /\ frag_bound_box f = Some bb) objs.

(** The references of a group can be followed. *)
Definition valid (sc : Scene) (objs : list nat) : Prop :=
  Forall (fun obj => is_Some (fragments sc !! obj)) objs.

(** The scene once the anchor [name] is created and linked to [collection]. *)
Definition with_new_anchor (name collection : string) (sc : Scene) : Scene :=
  mkScene (fragments sc) (anchors sc ++ [mkAnchor name vzero])
          (collection_objects sc ++ [(collection, length (anchors sc))]).

(** The fragments of two scenes sit at the same places in the world. *)
Definition same_world (sc sc' : Scene) : Prop :=
  length (fragments sc') = length (fragments sc) /\
  forall obj f, fragments sc !! obj = Some f ->
    exists f', fragments sc' !! obj = Some f' /\
               frag_bound_box f' = frag_bound_box f /\
               meq (matrix_world sc' f') (matrix_world sc f).

(** The outcome of [obj.parent = a] for every [obj] of [objs]: the group
    hangs under the anchor [a], nothing has moved in the world, and the
    objects outside the group are as they were. *)
Definition reparented (a : nat) (objs : list nat) (sc sc' : Scene) : Prop :=
  anchors sc' = anchors sc /\
  collection_objects sc' = collection_objects sc /\
  length (fragments sc') = length (fragments sc) /\
  forall obj f, fragments sc !! obj = Some f ->
    exists f', fragments sc' !! obj = Some f' /\
      frag_bound_box f' = frag_bound_box f /\
      meq (matrix_world sc' f') (matrix_world sc f) /\
      (obj ∈ objs -> frag_parent f' = Some a) /\
      (obj ∉ objs -> f' = f).

(** Every fragment of the group is in [sc'] where it was in [sc]. *)
Definition group_stays (objs : list nat) (sc sc' : Scene) : Prop :=
  forall obj f, obj ∈ objs -> fragments sc !! obj = Some f ->
    exists f', fragments sc' !! obj = Some f' /\
               meq (matrix_world sc' f') (matrix_world sc f).

(** The bounding box of a group sits on the cell centred at [target]. *)
Definition placed (sc : Scene) (objs : list nat) (target : Vector) : Prop :=
  exists mn mx,
    is_union_bbox (world_corners sc objs) mn mx /\
    (vx mn + vx mx) / 2 == vx target /\
    (vy mn + vy mx) / 2 == vy target /\
    vz mn == 0.

End Placement.

(* ------------------------------------------------------------------------- *)
(** ** Concrete scenes *)

Module Examples.
Import Geometry Py Host.

(** The eight corners of the box from [lo] to [hi], in the host's order. *)
Definition box (lo hi : Vector) : list Vector :=
  [ mkVector (vx lo) (vy lo) (vz lo); mkVector (vx lo) (vy lo) (vz hi);
    mkVector (vx lo) (vy hi) (vz hi); mkVector (vx lo) (vy hi) (vz lo);
    mkVector (vx hi) (vy lo) (vz lo); mkVector (vx hi) (vy lo) (vz hi);
    mkVector (vx hi) (vy hi) (vz hi); mkVector (vx hi) (vy hi) (vz lo) ].

(** Three fragments whose combined world bounding box runs from
    [(10, 10, 2)] to [(20, 14, 6)]. *)
Definition three_fragments : Scene :=
  mkScene
    [ mkFragment "trunk" None identity
        (Some (box (mkVector 10 10 2) (mkVector 12 12 4)));
      mkFragment "crown" None (mat_translate (mkVector 15 11 3) identity)
        (Some (box (mkVector 0 0 0) (mkVector 5 3 3)));
      mkFragment "leaves" None identity
        (Some (box (mkVector 11 12 3) (mkVector 13 14 5))) ]
    [] [].

(** Two fragments whose bounding boxes have no corner. *)
Definition no_corners : Scene :=
  mkScene [ mkFragment "point" None identity (Some []) ;
            mkFragment "void" None identity (Some []) ] [] [].

(** The same, with one bounding box that the host does not give. *)
Definition no_corners_unreadable : Scene :=
  mkScene [ mkFragment "point" None identity (Some []) ;
            mkFragment "void" None identity None ] [] [].

Import LodSession.

Definition mesh_object (mesh : nat) (l : Vector) : Object :=
  mkObject (Some (MeshRef mesh)) l (mat_translate l identity) false true.

(** A scene with two meshes and a camera; ["B"] is the chosen reference. *)
Definition two_meshes : State :=
  mkState (<["A" := mesh_object 0 (mkVector 100 200 300)]>
          (<["B" := mesh_object 1 (mkVector 110 200 300)]>
          (<["Cam" := mkObject (Some OtherRef) (mkVector 1 2 3) identity false true]> ∅)))
          (<[0%nat := [mkVector 0 0 0; mkVector 2 2 2]]>
          (<[1%nat := [mkVector 1 1 1; mkVector 3 1 1]]> ∅))
          None [] [] (Some "B") vzero [].

(** A scene where the chosen reference ["A"] and its linked duplicate ["C"]
    use one mesh. *)
Definition linked_duplicates : State :=
  mkState (<["A" := mesh_object 0 (mkVector 100 200 300)]>
          (<["B" := mesh_object 1 (mkVector 110 200 300)]>
          (<["C" := mesh_object 0 (mkVector 90 210 300)]> ∅)))
          (<[0%nat := [mkVector 0 0 0; mkVector 2 2 2]]>
          (<[1%nat := [mkVector 1 1 1; mkVector 3 1 1]]> ∅))
          None [] [] (Some "A") vzero [].

End Examples.

(* ------------------------------------------------------------------------- *)
(** ** The stores a session passes through *)

Module Session.
Import Geometry Py LodSession.

(** The offset by which Move Reference to Origin shifts the scene. *)
Definition scene_offset (ref_obj : Object) (verts : list Vector) : Vector :=
  vneg (mat_apply (matrix_world ref_obj) (geometry_center_of verts)).

(** The mean of a list of points, coordinate by coordinate. *)
Definition mean (vs : list Vector) : Vector :=
  let n := inject_Z (Z.of_nat (length vs)) in
  mkVector (fold_right Qplus 0 (map vx vs) / n)
           (fold_right Qplus 0 (map vy vs) / n)
           (fold_right Qplus 0 (map vz vs) / n).

(** The objects after Move Reference to Origin. *)
Definition moved_objects (ref_name : string) (offset : Vector)
    (os : gmap string Object) : gmap string Object :=
  map_imap (fun n obj =>
              Some (if scene_mesh obj && negb (String.eqb n ref_name)
                    then with_location (vadd (location obj) offset) obj
                    else obj))
    (alter (with_location vzero) ref_name
       (alter (with_select true) ref_name (with_select false <$> os))).

(** The store after Move Reference to Origin, before its closing report. *)
Definition moved_state (ref_name : string) (ref_obj : Object) (id : nat)
    (verts : list Vector) (st : State) : State :=
  mkState
    (moved_objects ref_name (scene_offset ref_obj verts) (objects st))
    (<[id := map (fun co => vsub co (geometry_center_of verts)) verts]>
       (<[fresh (dom (meshes st)) := verts]> (meshes st)))
    (Some ref_name)
    (map (fun item => (item.1, location item.2)) (scene_meshes st))
    [(ref_name, MeshRef (fresh (dom (meshes st))))]
    (selected_reference_name st)
    (scene_offset ref_obj verts)
    (reports st).

Definition moved_report (ref_name : string) (st : State) : ReportType * string :=
  (INFO, "Centered " +:+ ref_name +:+ " at origin and repositioned "
         +:+ pretty (length (scene_meshes st)) +:+ " mesh objects.").

(** The objects after the loop of Restore Original Position over the
    stored positions. *)
Definition restore_positions (ps : list (string * Vector))
    (os : gmap string Object) : gmap string Object :=
  foldl (fun os item => alter (with_location item.2) item.1 os) os ps.

End Session.

(* ------------------------------------------------------------------------- *)
(** ** The other operators of the LOD editing add-on *)

Module LodOperators.
Import Geometry Py LodSession.
#[local] Open Scope py_scope.

Definition with_selected_reference (n : option string) (st : State) : State :=
  mkState (objects st) (meshes st) (active st) (original_positions_store st)
          (original_geometry_store st) n (scene_offset_vector st) (reports st).

(** [random.choice(seq)] for a sequence with the item [first]: the item at
    the index the generator draws below [len(seq)]. *)
Definition random_choice {A} (draw : nat) (first : A) (rest : list A) : A :=
  default first ((first :: rest) !! (draw mod length (first :: rest))%nat).

(** What the host answers to the two selection calls of the operator.
    [bpy.ops.object.select_all] raises RuntimeError when its poll fails
    (the context is not the object mode of a 3D view), and
    [obj.select_set] raises RuntimeError when the object is not in the
    view layer. *)
Record HostAnswers : Type := mkHostAnswers {
  select_all_runs : bool;
  select_set_runs : bool
}.

(** [bpy.ops.object.select_all(action='DESELECT')] *)
Definition select_all_deselect (host : HostAnswers) : M State unit :=
  if select_all_runs host
  then modify (fun st => with_objects (with_select false <$> objects st) st)
  else raise RuntimeError.

(** [obj.select_set(True)] *)
Definition select_set_true (host : HostAnswers) (name : string) : M State unit :=
  if select_set_runs host
  then update_object name (with_select true)
  else raise RuntimeError.

(** [OBJECT_OT_SelectRandomModel.execute]; [draw] stands for the state of
    the random generator, [host] for the answers of the host. *)
Definition select_random_model (draw : nat) (host : HostAnswers)
  : M State OperatorResult :=
  st <- get ;;
  let mesh_objects := scene_meshes st in
  match mesh_objects with
  | [] =>
      report WARNING "No mesh objects in scene." ;;
      ret CANCELLED
  | first :: rest =>
      let ref_obj := random_choice draw first rest in
      select_all_deselect host ;;
      select_set_true host ref_obj.1 ;;
      modify (with_active (Some ref_obj.1)) ;;
      modify (with_selected_reference (Some ref_obj.1)) ;;
      report INFO ("Selected random model: " +:+ ref_obj.1) ;;
      ret FINISHED
  end.

(** [OBJECT_OT_ClearSession.execute] of version 1.5 *)
Definition clear_session : M State OperatorResult :=
  modify (with_positions []) ;;
  modify (with_geometry []) ;;
  modify (with_offset vzero) ;;
  report INFO "Cleared all stored LOD model data." ;;
  ret FINISHED.

End LodOperators.

(* ------------------------------------------------------------------------- *)
(** ** Sessions with new meshes *)

Module SessionSteps.
Import Geometry Py LodSession.

(** What the user does between two operators: a mesh object that the host
    had not filed before appears under the name [n]. *)
Definition add_object (n : string) (o : Object) (st : State) : State :=
  with_objects (<[n := o]> (objects st)) st.

(** The scene meshes Register New Meshes finds new. *)
Definition new_meshes (st : State) : list (string * Object) :=
  filter (fun item => item.1 ∉ (original_positions_store st).*1) (scene_meshes st).

(** The store Register New Meshes leaves when positions are stored. *)
Definition registered_state (st : State) : State :=
  mkState (objects st) (meshes st) (active st)
    (original_positions_store st ++
     map (fun item => (item.1, vsub (location item.2) (scene_offset_vector st)))
         (new_meshes st))
    (original_geometry_store st) (selected_reference_name st)
    (scene_offset_vector st)
    (reports st ++
     match new_meshes st with
     | [] => [(INFO, "No new mesh objects found.")]
     | _ :: _ =>
         map (fun item => (INFO, "Registered new mesh " +:+ item.1 +:+ " for restore."))
             (new_meshes st) ++
         [(INFO, "Registered " +:+ pretty (length (new_meshes st))
                 +:+ " new mesh objects for restore.")]
     end).

(** The linear part of an object matrix: the matrix of the same object
    sitting at the origin. *)
Definition at_origin (m : Matrix) : Matrix :=
  mkMatrix (row_x m) (row_y m) (row_z m) vzero.

End SessionSteps.

(* ------------------------------------------------------------------------- *)
(** ** Groups on a grid that fills up *)

Module Grid.
Import Geometry Py Host Placement.

(** Every fragment of the group is free or hangs under an anchor of the
    scene. *)
Definition settled (sc : Scene) (objs : list nat) : Prop :=
  forall obj f, obj ∈ objs -> fragments sc !! obj = Some f ->
    match frag_parent f with
    | None => True
    | Some a => (a < length (anchors sc))%nat
    end.

(** What a call of the placement routine for the group [objs] leaves of the
    scene [sc], whatever offset it computes. *)
Definition placement_frame (name collection : string) (objs : list nat)
    (sc sc' : Scene) : Prop :=
  (exists position, anchors sc' = anchors sc ++ [mkAnchor name position]) /\
  collection_objects sc'
    = collection_objects sc ++ [(collection, length (anchors sc))] /\
  length (fragments sc') = length (fragments sc) /\
  forall obj f, fragments sc !! obj = Some f ->
    exists f', fragments sc' !! obj = Some f' /\
      frag_bound_box f' = frag_bound_box f /\
      (obj ∈ objs -> frag_parent f' = Some (length (anchors sc))) /\
      (obj ∉ objs -> f' = f).

End Grid.

(* ------------------------------------------------------------------------- *)
(** ** More concrete scenes *)

Module MoreExamples.
Import Geometry Py Host Examples.

(** A fragment that fills the cell [(0, 0)] of a grid of spacing 50, and a
    second one still where it was imported. *)
Definition one_on_grid : Scene :=
  mkScene
    [ mkFragment "placed" None identity
        (Some (box (mkVector 0 (-50) 0) (mkVector 50 0 10)));
      mkFragment "imported" None (mat_translate (mkVector 3 4 5) identity)
        (Some (box (mkVector (-1) (-1) (-1)) (mkVector 1 1 1))) ]
    [] [].

Import LodSession.

(** A scene with three meshes; ["B"] is the chosen reference. *)
Definition three_meshes : State :=
  mkState (<["A" := mesh_object 0 (mkVector 100 200 300)]>
          (<["B" := mesh_object 1 (mkVector 110 200 300)]>
          (<["C" := mesh_object 0 (mkVector 90 210 300)]> ∅)))
          (<[0%nat := [mkVector 0 0 0; mkVector 2 2 2]]>
          (<[1%nat := [mkVector 1 1 1; mkVector 3 1 1]]> ∅))
          None [] [] (Some "B") vzero [].

End MoreExamples.

(* ------------------------------------------------------------------------- *)
(** ** CE-trees-to-grid.py: labels above groups

    [add_text_above_group] finds where the label goes and hands over to
    [add_text], which has the host make the text object
    ([bpy.ops.object.text_add]), name it and give it a material.  What the
    host does there (whether the operator runs in the current context,
    which name the object gets when the one asked for is taken) is not
    modelled: the routine is embedded over any [add_text]. *)

Module Labels.
Import Geometry Py Host.
#[local] Open Scope py_scope.

Section AboveGroup.

(** The host's state beside the scene graph: text objects, materials, the
    active object, the context. *)
Variable Rest : Type.
(** References to text objects and to materials. *)
Variable Text Material : Type.

(** [add_text(loc, text, size, mat)] *)
Variable add_text : Vector -> string -> Q -> Material -> M (Scene * Rest) Text.

(** A computation on the scene graph, run in the whole state. *)
Definition on_scene {A} (c : M Scene A) : M (Scene * Rest) A :=
  fun s => let (r, sc') := c s.1 in (r, (sc', s.2)).

Definition add_text_above_group (objs : list nat) (text : string) (size offset : Q)
    (mat : Material) : M (Scene * Rest) Text :=
  bbox <- on_scene (TreesToGrid.compute_world_bbox objs) ;;
  let '(min_corner, max_corner, center) := bbox in
  let '(center, max_corner) :=
    match center with
    | None => (Some vzero, Some vzero)
    | Some _ => (center, max_corner)
    end in
  center <- match center with Some v => ret v | None => raise AttributeError end ;;
  max_corner <- match max_corner with Some v => ret v | None => raise AttributeError end ;;
  let loc := mkVector (vx center) (vy center) (vz max_corner + offset) in
  add_text loc text size mat.

End AboveGroup.

Arguments on_scene {Rest A} c.
Arguments add_text_above_group {Rest Text Material} add_text objs text size offset mat.

End Labels.

(* ------------------------------------------------------------------------- *)
(** ** The placement routine on the host's evaluated transforms

    [Host] states the contract the placement routine is written against.
    The statements of the routine do less on their own.  [obj.parent = a]
    writes the parent and nothing else: the object keeps its own transform
    and [matrix_parent_inverse], which the scripts never write, so its
    world transform becomes the anchor's transform applied to its own.
    [obj.matrix_world] is the matrix the host evaluated last: a write to a
    parent or to a location shows in it only after the host has evaluated
    the scene again, which it does between two runs of an operator and
    which the scripts never ask for.  This section embeds the routine over
    that reading of the host. *)

Module Evaluated.
Import Geometry Py.
#[local] Open Scope py_scope.

(** An imported object. *)
Record Fragment : Type := mkFragment {
  (** [obj.parent]: an anchor of the scene, by index *)
  frag_parent : option nat;
  (** the object's own transform (location, rotation and scale); its
      [matrix_parent_inverse] is the identity, as on every object the
      importers hand over *)
  frag_basis : Matrix;
  (** [obj.matrix_world], as the host evaluated it last *)
  frag_matrix_world : Matrix;
  (** [obj.bound_box]; [None] when the host raises on the access *)
  frag_bound_box : option (list Vector)
}.

Record Scene : Type := mkScene {
  fragments : list Fragment;
  (** the Empties created by the routine, each with its name and location *)
  anchors : list Host.Anchor;
  collection_objects : list (string * nat)
}.

Definition with_fragments (fs : list Fragment) (sc : Scene) : Scene :=
  mkScene fs (anchors sc) (collection_objects sc).

Definition with_anchors (es : list Host.Anchor) (sc : Scene) : Scene :=
  mkScene (fragments sc) es (collection_objects sc).

(** The world transform the host evaluates for an object: an anchor has a
    location and neither rotation, scale nor parent. *)
Definition evaluate (sc : Scene) (f : Fragment) : Matrix :=
  match frag_parent f with
  | None => frag_basis f
  | Some a =>
      match anchors sc !! a with
      | Some e => mat_translate (Host.anchor_location e) (frag_basis f)
      | None => frag_basis f
      end
  end.

(** The evaluation of the scene that the host runs after an operator (and
    on [view_layer.update()]). *)
Definition view_layer_update (sc : Scene) : Scene :=
  with_fragments
    (map (fun f => mkFragment (frag_parent f) (frag_basis f) (evaluate sc f)
                     (frag_bound_box f))
         (fragments sc))
    sc.

Definition fragment_of (obj : nat) : M Scene Fragment :=
  fun sc => match fragments sc !! obj with
            | Some f => (Returned f, sc)
            | None => (Raised ReferenceError, sc)
            end.

Definition anchor_of (a : nat) : M Scene Host.Anchor :=
  fun sc => match anchors sc !! a with
            | Some e => (Returned e, sc)
            | None => (Raised ReferenceError, sc)
            end.

(** [bpy.data.objects.new(name, None)] *)
Definition objects_new (name : string) : M Scene nat :=
  fun sc => (Returned (length (anchors sc)),
             with_anchors (anchors sc ++ [Host.mkAnchor name vzero]) sc).

(** [collection.objects.link(a)] *)
Definition objects_link (collection : string) (a : nat) : M Scene unit :=
  modify (fun sc => mkScene (fragments sc) (anchors sc)
                            (collection_objects sc ++ [(collection, a)])).

(** [obj.parent = a]: the parent is written, nothing else. *)
Definition set_parent (obj a : nat) : M Scene unit :=
  f <- fragment_of obj ;;
  _ <- anchor_of a ;;
  modify (fun sc =>
    with_fragments
      (<[obj := mkFragment (Some a) (frag_basis f) (frag_matrix_world f)
                  (frag_bound_box f)]> (fragments sc)) sc).

(** [obj.bound_box] *)
Definition get_bound_box (obj : nat) : M Scene (list Vector) :=
  f <- fragment_of obj ;;
  match frag_bound_box f with
  | Some bb => ret bb
  | None => raise AttributeError
  end.

(** [obj.matrix_world]: the matrix evaluated last. *)
Definition get_matrix_world (obj : nat) : M Scene Matrix :=
  f <- fragment_of obj ;; ret (frag_matrix_world f).

(** [a.location] *)
Definition get_location (a : nat) : M Scene Vector :=
  e <- anchor_of a ;; ret (Host.anchor_location e).

(** [a.location = v] *)
Definition set_location (a : nat) (v : Vector) : M Scene unit :=
  e <- anchor_of a ;;
  modify (fun sc =>
    with_anchors (<[a := Host.mkAnchor (Host.anchor_name e) v]> (anchors sc)) sc).

(** What a read of the bounding boxes sees of the scene: for each
    fragment, the matrix evaluated last and the bounding box. *)
Definition cache_of (sc : Scene) : list (Matrix * option (list Vector)) :=
  map (fun f => (frag_matrix_world f, frag_bound_box f)) (fragments sc).

(** A computation that leaves the evaluated matrices and the bounding
    boxes as they are, whatever it returns or raises. *)
Definition keeps_cache {A} (c : M Scene A) : Prop :=
  forall sc, cache_of (c sc).2 = cache_of sc.

(** A computation whose outcome depends on the scene only through the
    evaluated matrices and the bounding boxes. *)
Definition reads_cache {A} (c : M Scene A) : Prop :=
  forall sc sc', cache_of sc' = cache_of sc -> (c sc').1 = (c sc).1.

(** [CE-Tree-Grid.py] *)
Module TreeGrid.

Definition align_group_with_empty
    (imported_objs : list nat) (cell_x cell_y : Z) (spacing : Q)
    (style_name : string) (tree_collection : string) : M Scene (option nat) :=
  match imported_objs with
  | [] => ret None
  | _ :: _ =>
      style_empty <- objects_new style_name ;;
      objects_link tree_collection style_empty ;;
      for_each imported_objs (fun obj => set_parent obj style_empty) ;;
      all_coords <-
        for_fold imported_objs [] (fun coords obj =>
          bound_box <- get_bound_box obj ;;
          for_fold bound_box coords (fun coords v =>
            matrix_world <- get_matrix_world obj ;;
            ret (coords ++ [mat_apply matrix_world v]))) ;;
      match all_coords with
      | _ :: _ =>
          min_x <- lift (py_min (map vx all_coords)) ;;
          min_y <- lift (py_min (map vy all_coords)) ;;
          min_z <- lift (py_min (map vz all_coords)) ;;
          let min_corner := mkVector min_x min_y min_z in
          max_x <- lift (py_max (map vx all_coords)) ;;
          max_y <- lift (py_max (map vy all_coords)) ;;
          max_z <- lift (py_max (map vz all_coords)) ;;
          let max_corner := mkVector max_x max_y max_z in
          let center := vdiv (vadd min_corner max_corner) 2 in
          let target := TreeGrid.grid_cell_center cell_x cell_y spacing in
          let offset := mkVector (vx target - vx center)
                                 (vy target - vy center)
                                 (- vz min_corner) in
          location <- get_location style_empty ;;
          set_location style_empty (vadd location offset) ;;
          ret None
      | [] => ret None
      end
  end.

End TreeGrid.

(** [CE-trees-to-grid.py] *)
Module TreesToGrid.

Definition compute_world_bbox (objs : list nat)
  : M Scene (option Vector * option Vector * option Vector) :=
  coords <-
    for_fold objs [] (fun coords obj =>
      bb <- try_except (bb <- get_bound_box obj ;; ret (Some bb)) (ret None) ;;
      match bb with
      | None => ret coords
      | Some bb =>
          for_fold bb coords (fun coords v =>
            matrix_world <- get_matrix_world obj ;;
            ret (coords ++ [mat_apply matrix_world v]))
      end) ;;
  match coords with
  | [] => ret (None, None, None)
  | _ :: _ =>
      min_x <- lift (py_min (map vx coords)) ;;
      min_y <- lift (py_min (map vy coords)) ;;
      min_z <- lift (py_min (map vz coords)) ;;
      let min_corner := mkVector min_x min_y min_z in
      max_x <- lift (py_max (map vx coords)) ;;
      max_y <- lift (py_max (map vy coords)) ;;
      max_z <- lift (py_max (map vz coords)) ;;
      let max_corner := mkVector max_x max_y max_z in
      let center := vdiv (vadd min_corner max_corner) 2 in
      ret (Some min_corner, Some max_corner, Some center)
  end.

Definition align_group_with_empty
    (imported_objs : list nat) (cell_x cell_y : Z) (spacing : Q)
    (group_name : string) (collection : string) : M Scene (option nat) :=
  match imported_objs with
  | [] => ret None
  | _ :: _ =>
      empty <- objects_new group_name ;;
      objects_link collection empty ;;
      for_each imported_objs (fun obj => set_parent obj empty) ;;
      bbox <- compute_world_bbox imported_objs ;;
      let '(min_corner, max_corner, center) := bbox in
      match center with
      | None => ret (Some empty)
      | Some center =>
          let target := TreesToGrid.grid_cell_center cell_x cell_y spacing in
          min_corner <- match min_corner with
                        | Some v => ret v
                        | None => raise AttributeError
                        end ;;
          let offset := mkVector (vx target - vx center)
                                 (vy target - vy center)
                                 (- vz min_corner) in
          location <- get_location empty ;;
          set_location empty (vadd location offset) ;;
          ret (Some empty)
      end
  end.

End TreesToGrid.

(** One imported fragment without a parent: a box of the size
    [(10, 4, 4)] whose low corner is at [(10, 10, 2)] in the world. *)
Definition one_fragment : Scene :=
  mkScene [ mkFragment None (mat_translate (mkVector 10 10 2) identity)
              (mat_translate (mkVector 10 10 2) identity)
              (Some (Examples.box (mkVector 0 0 0) (mkVector 10 4 4))) ] [] [].

(** The scene after the routine has run on [sc] for the cell [(1, 0)] with
    the spacing 50 and the host has evaluated the scene again. *)
Definition placed_v1 (sc : Scene) : Scene :=
  view_layer_update
    (TreeGrid.align_group_with_empty [0%nat] 1 0 50 "Fan" "Trees" sc).2.

Definition placed_v2 (sc : Scene) : Scene :=
  view_layer_update
    (TreesToGrid.align_group_with_empty [0%nat] 1 0 50 "Fan" "Trees" sc).2.

End Evaluated.
(* ========================================================================= *)
(** * Properties *)

(* ------------------------------------------------------------------------- *)
(** ** Python's [min] and [max] *)

Module PyFacts.
Import Geometry Py Placement.

Lemma Qlt_bool_true (x y : Q) : Qlt_bool x y = true <-> x < y.
Proof.
  unfold Qlt_bool. rewrite Qlt_alt.
  destruct (x ?= y); split; intros H; try reflexivity; discriminate H.
Qed.

Lemma Qlt_bool_false (x y : Q) : Qlt_bool x y = false <-> y <= x.
Proof.
  rewrite <- Bool.not_true_iff_false, Qlt_bool_true. split.
  - apply Qnot_lt_le.
  - apply Qle_not_lt.
Qed.

Lemma fold_min_spec (rest : list Q) : forall x,
  let m := fold_left (fun m item => if Qlt_bool item m then item else m) rest x in
  m <= x /\ Forall (fun c => m <= c) rest /\ (m == x \/ Exists (fun c => c == m) rest).
Proof.
  induction rest as [|c rest IH]; intros x; cbn.
  - repeat split; [apply Qle_refl | constructor | left; reflexivity].
  - specialize (IH (if Qlt_bool c x then c else x)).
    cbn in IH. destruct IH as (Hle & Hall & Hex).
    destruct (Qlt_bool c x) eqn:E.
    + apply Qlt_bool_true in E. repeat split.
      * lra.
      * constructor; assumption.
      * right. destruct Hex as [Hex|Hex].
        -- apply Exists_cons_hd. symmetry; exact Hex.
        -- apply Exists_cons_tl; exact Hex.
    + apply Qlt_bool_false in E. repeat split.
      * exact Hle.
      * constructor; [lra | assumption].
      * destruct Hex as [Hex|Hex]; [left; exact Hex | right; apply Exists_cons_tl; exact Hex].
Qed.

Lemma fold_max_spec (rest : list Q) : forall x,
  let m := fold_left (fun m item => if Qlt_bool m item then item else m) rest x in
  x <= m /\ Forall (fun c => c <= m) rest /\ (m == x \/ Exists (fun c => c == m) rest).
Proof.
  induction rest as [|c rest IH]; intros x; cbn.
  - repeat split; [apply Qle_refl | constructor | left; reflexivity].
  - specialize (IH (if Qlt_bool x c then c else x)).
    cbn in IH. destruct IH as (Hle & Hall & Hex).
    destruct (Qlt_bool x c) eqn:E.
    + apply Qlt_bool_true in E. repeat split.
      * lra.
      * constructor; assumption.
      * right. destruct Hex as [Hex|Hex].
        -- apply Exists_cons_hd. symmetry; exact Hex.
        -- apply Exists_cons_tl; exact Hex.
    + apply Qlt_bool_false in E. repeat split.
      * exact Hle.
      * constructor; [lra | assumption].
      * destruct Hex as [Hex|Hex]; [left; exact Hex | right; apply Exists_cons_tl; exact Hex].
Qed.

(** On a sequence with an item, [min] returns and gives the least item. *)
Lemma py_min_spec (f : Vector -> Q) (c : Vector) (cs : list Vector) :
  exists m, py_min (map f (c :: cs)) = Returned m /\ is_min f (c :: cs) m.
Proof.
  cbn [map py_min]. eexists; split; [reflexivity|].
  destruct (fold_min_spec (map f cs) (f c)) as (Hle & Hall & Hex).
  split.
  - constructor; [exact Hle|]. rewrite Forall_map in Hall. exact Hall.
  - destruct Hex as [Hex|Hex].
    + apply Exists_cons_hd. symmetry; exact Hex.
    + apply Exists_cons_tl. rewrite Exists_map in Hex. exact Hex.
Qed.

Lemma py_max_spec (f : Vector -> Q) (c : Vector) (cs : list Vector) :
  exists m, py_max (map f (c :: cs)) = Returned m /\ is_max f (c :: cs) m.
Proof.
  cbn [map py_max]. eexists; split; [reflexivity|].
  destruct (fold_max_spec (map f cs) (f c)) as (Hle & Hall & Hex).
  split.
  - constructor; [exact Hle|]. rewrite Forall_map in Hall. exact Hall.
  - destruct Hex as [Hex|Hex].
    + apply Exists_cons_hd. symmetry; exact Hex.
    + apply Exists_cons_tl. rewrite Exists_map in Hex. exact Hex.
Qed.

End PyFacts.

(* ------------------------------------------------------------------------- *)
(** ** Vectors, matrices and the host's scene graph *)

Module HostFacts.
Import Geometry Py Host Placement PyFacts.
#[local] Open Scope py_scope.

Lemma veq_refl (a : Vector) : veq a a.
Proof. unfold veq; repeat split; reflexivity. Qed.

Lemma veq_sym (a b : Vector) : veq a b -> veq b a.
Proof. unfold veq; intros (? & ? & ?); repeat split; symmetry; assumption. Qed.

Lemma veq_trans (a b c : Vector) : veq a b -> veq b c -> veq a c.
Proof.
  unfold veq; intros (? & ? & ?) (? & ? & ?); repeat split;
    etransitivity; eassumption.
Qed.

Lemma meq_refl (m : Matrix) : meq m m.
Proof. unfold meq; repeat split; reflexivity. Qed.

Lemma meq_sym (m n : Matrix) : meq m n -> meq n m.
Proof.
  unfold meq; intros (? & ? & ? & ?); repeat split; apply veq_sym; assumption.
Qed.

Lemma meq_trans (m n k : Matrix) : meq m n -> meq n k -> meq m k.
Proof.
  unfold meq; intros (? & ? & ? & ?) (? & ? & ? & ?); repeat split;
    eapply veq_trans; eassumption.
Qed.

Lemma mat_apply_meq (m n : Matrix) (v : Vector) :
  meq m n -> veq (mat_apply m v) (mat_apply n v).
Proof.
  destruct m as [[] [] [] []], n as [[] [] [] []], v.
  unfold meq, veq, mat_apply, dot; cbn.
  intros ((E1 & E2 & E3) & (E4 & E5 & E6) & (E7 & E8 & E9) & E10 & E11 & E12).
  rewrite E1, E2, E3, E4, E5, E6, E7, E8, E9, E10, E11, E12.
  repeat split; reflexivity.
Qed.

(** Moving the matrix moves every point it is applied to. *)
Lemma mat_apply_translate (t : Vector) (m : Matrix) (v : Vector) :
  veq (mat_apply (mat_translate t m) v) (vadd (mat_apply m v) t).
Proof.
  unfold veq, mat_apply, mat_translate, vadd; cbn. repeat split; ring.
Qed.

Lemma mat_translate_meq (t u : Vector) (m n : Matrix) :
  veq t u -> meq m n -> meq (mat_translate t m) (mat_translate u n).
Proof.
  unfold meq, mat_translate; cbn.
  intros (E1 & E2 & E3) (? & ? & ? & (E4 & E5 & E6)).
  repeat split; try (apply H || apply H0 || apply H1); cbn;
    rewrite ?E1, ?E2, ?E3, ?E4, ?E5, ?E6; reflexivity.
Qed.

(** Undoing the anchor's translation and applying it again gives the
    matrix back. *)
Lemma mat_translate_inverse (t : Vector) (m : Matrix) :
  meq (mat_translate t (mat_translate (vneg t) m)) m.
Proof.
  unfold meq, mat_translate, veq, vadd, vneg; cbn.
  repeat split; try reflexivity; ring.
Qed.

Lemma set_parent_run (sc : Scene) (obj a : nat) (f : Fragment) (e : Anchor) :
  fragments sc !! obj = Some f ->
  anchors sc !! a = Some e ->
  set_parent obj a sc =
    (Returned tt,
     with_fragments
       (<[obj := mkFragment (frag_name f) (Some a)
                   (mat_translate (vneg (anchor_location e)) (matrix_world sc f))
                   (frag_bound_box f)]> (fragments sc)) sc).
Proof.
  intros Hf He. unfold set_parent, bind, fragment_of, anchor_of, get, modify.
  rewrite Hf, He. reflexivity.
Qed.

Lemma set_parent_raises (sc : Scene) (obj a : nat) :
  fragments sc !! obj = None ->
  set_parent obj a sc = (Raised ReferenceError, sc).
Proof.
  intros Hf. unfold set_parent, bind, fragment_of. rewrite Hf. reflexivity.
Qed.

(** The world matrix only depends on the anchors. *)
Lemma matrix_world_anchors (sc sc' : Scene) (f : Fragment) :
  anchors sc' = anchors sc -> matrix_world sc' f = matrix_world sc f.
Proof. intros E. unfold matrix_world. rewrite E. reflexivity. Qed.

Lemma reparented_refl (a : nat) (sc : Scene) : reparented a [] sc sc.
Proof.
  split; [reflexivity|]. split; [reflexivity|]. split; [reflexivity|].
  intros obj f Hf. exists f. split; [exact Hf|]. split; [reflexivity|].
  split; [apply meq_refl|]. split; [|reflexivity].
  intros H. inversion H.
Qed.

(** One assignment [obj.parent = a]. *)
Lemma set_parent_reparented (sc : Scene) (obj a : nat) (f : Fragment) (e : Anchor) :
  fragments sc !! obj = Some f ->
  anchors sc !! a = Some e ->
  reparented a [obj] sc
    (with_fragments
       (<[obj := mkFragment (frag_name f) (Some a)
                   (mat_translate (vneg (anchor_location e)) (matrix_world sc f))
                   (frag_bound_box f)]> (fragments sc)) sc).
Proof.
  intros Hf He. split; [reflexivity|]. split; [reflexivity|].
  split; [cbn; apply length_insert|].
  intros i g Hg. cbn [fragments with_fragments].
  destruct (decide (i = obj)) as [->|Hne].
  - rewrite Hf in Hg. injection Hg as <-.
    eexists. split.
    { apply list_lookup_insert_eq. eapply lookup_lt_Some; eassumption. }
    split; [reflexivity|]. split.
    + unfold matrix_world at 1. cbn. rewrite He.
      apply mat_translate_inverse.
    + split; [reflexivity|]. intros Hn. exfalso. apply Hn. constructor.
  - exists g. split.
    { rewrite list_lookup_insert_ne by congruence. exact Hg. }
    split; [reflexivity|]. split; [apply meq_refl|].
    split; [|reflexivity].
    intros Hin. apply list_elem_of_singleton in Hin. contradiction.
Qed.

Lemma reparented_trans (a : nat) (objs objs' : list nat) (sc sc1 sc2 : Scene) :
  reparented a objs sc sc1 -> reparented a objs' sc1 sc2 ->
  reparented a (objs ++ objs') sc sc2.
Proof.
  intros (Ha & Hc & Hl & H1) (Ha' & Hc' & Hl' & H2).
  split; [congruence|]. split; [congruence|]. split; [congruence|].
  intros obj f Hf.
  destruct (H1 obj f Hf) as (f1 & Hf1 & Hb1 & Hm1 & Hin1 & Hout1).
  destruct (H2 obj f1 Hf1) as (f2 & Hf2 & Hb2 & Hm2 & Hin2 & Hout2).
  exists f2. split; [exact Hf2|]. split; [congruence|]. split.
  { eapply meq_trans; eassumption. }
  split.
  - intros Hin. destruct (decide (obj ∈ objs')) as [Hi|Hi]; [auto|].
    rewrite (Hout2 Hi). apply Hin1.
    apply elem_of_app in Hin. destruct Hin; [assumption|contradiction].
  - intros Hout. rewrite elem_of_app in Hout.
    rewrite Hout2 by tauto. apply Hout1. tauto.
Qed.

(** The loop [for obj in imported_objs: obj.parent = a]. *)
Lemma reparent_loop (a : nat) (e : Anchor) (objs : list nat) : forall sc,
  anchors sc !! a = Some e ->
  Forall (fun obj => is_Some (fragments sc !! obj)) objs ->
  exists sc',
    for_each objs (fun obj => set_parent obj a) sc = (Returned tt, sc') /\
    reparented a objs sc sc'.
Proof.
  induction objs as [|obj objs IH]; intros sc He Hall.
  - exists sc. split; [reflexivity | apply reparented_refl].
  - inversion Hall as [|? ? [f Hf] Hall']; subst.
    pose proof (set_parent_reparented sc obj a f e Hf He) as Hstep.
    set (sc1 := with_fragments _ sc) in Hstep.
    destruct (IH sc1) as (sc' & Hrun & Hrel).
    + exact He.
    + destruct Hstep as (_ & _ & Hlen & _).
      eapply Forall_impl; [exact Hall'|]. cbv beta. intros i [g Hg].
      apply lookup_lt_is_Some. rewrite Hlen. eapply lookup_lt_Some; eassumption.
    + exists sc'. split.
      * cbn [for_each]. unfold bind at 1.
        rewrite (set_parent_run sc obj a f e Hf He). exact Hrun.
      * change (obj :: objs) with ([obj] ++ objs).
        eapply reparented_trans; eauto.
Qed.

End HostFacts.

(* ------------------------------------------------------------------------- *)
(** ** Bounding boxes of groups *)

Module BBoxFacts.
Import Geometry Py Host Placement PyFacts HostFacts.
#[local] Open Scope py_scope.

Lemma world_corners_cons (sc : Scene) (obj : nat) (objs : list nat) :
  world_corners sc (obj :: objs) = world_corners sc [obj] ++ world_corners sc objs.
Proof. unfold world_corners. cbn. rewrite app_nil_r. reflexivity. Qed.

(** Corners of two scenes that correspond fragment by fragment. *)
Lemma world_corners_rel (R : Vector -> Vector -> Prop) (sc sc' : Scene) (objs : list nat) :
  length (fragments sc') = length (fragments sc) ->
  (forall obj f, obj ∈ objs -> fragments sc !! obj = Some f ->
     exists f', fragments sc' !! obj = Some f' /\
                frag_bound_box f' = frag_bound_box f /\
                forall v, R (mat_apply (matrix_world sc f) v)
                            (mat_apply (matrix_world sc' f') v)) ->
  Forall2 R (world_corners sc objs) (world_corners sc' objs).
Proof.
  intros Hlen. induction objs as [|obj objs IH]; intros H.
  - constructor.
  - rewrite (world_corners_cons sc), (world_corners_cons sc').
    apply Forall2_app.
    + unfold world_corners; cbn. rewrite !app_nil_r.
      destruct (fragments sc !! obj) as [f|] eqn:Hf.
      * destruct (H obj f) as (f' & Hf' & Hbb & HR); [left | exact Hf |].
        rewrite Hf', Hbb. destruct (frag_bound_box f) as [bb|]; [|constructor].
        clear Hbb. induction bb; cbn [map]; constructor; auto.
      * assert (fragments sc' !! obj = None) as ->; [|constructor].
        apply lookup_ge_None. rewrite Hlen. apply lookup_ge_None. exact Hf.
    + apply IH. intros i f Hi. apply H. right. exact Hi.
Qed.

Lemma same_world_corners (sc sc' : Scene) (objs : list nat) :
  same_world sc sc' -> Forall2 veq (world_corners sc objs) (world_corners sc' objs).
Proof.
  intros (Hlen & H). apply world_corners_rel; [exact Hlen|].
  intros obj f _ Hf. destruct (H obj f Hf) as (f' & Hf' & Hbb & Hm).
  exists f'. split; [exact Hf'|]. split; [exact Hbb|].
  intros v. apply mat_apply_meq, meq_sym, Hm.
Qed.

Lemma same_world_refl (sc : Scene) : same_world sc sc.
Proof.
  split; [reflexivity|]. intros obj f Hf. exists f.
  split; [exact Hf|]. split; [reflexivity | apply meq_refl].
Qed.

Lemma same_world_trans (sc sc1 sc2 : Scene) :
  same_world sc sc1 -> same_world sc1 sc2 -> same_world sc sc2.
Proof.
  intros (Hl & H) (Hl' & H'). split; [congruence|]. intros obj f Hf.
  destruct (H obj f Hf) as (f1 & Hf1 & Hb1 & Hm1).
  destruct (H' obj f1 Hf1) as (f2 & Hf2 & Hb2 & Hm2).
  exists f2. split; [exact Hf2|]. split; [congruence|].
  eapply meq_trans; eassumption.
Qed.

Lemma reparented_same_world (a : nat) (objs : list nat) (sc sc' : Scene) :
  reparented a objs sc sc' -> same_world sc sc'.
Proof.
  intros (_ & _ & Hlen & H). split; [exact Hlen|]. intros obj f Hf.
  destruct (H obj f Hf) as (f' & Hf' & Hbb & Hm & _). eauto.
Qed.

(** A new anchor at the origin moves nothing. *)
Lemma new_anchor_same_world (sc : Scene) (name : string) (links : list (string * nat)) :
  same_world sc (mkScene (fragments sc) (anchors sc ++ [mkAnchor name vzero]) links).
Proof.
  split; [reflexivity|]. intros obj f Hf. exists f.
  split; [exact Hf|]. split; [reflexivity|].
  unfold matrix_world; cbn [anchors].
  destruct (frag_parent f) as [p|]; [|apply meq_refl].
  destruct (anchors sc !! p) as [e|] eqn:He.
  - rewrite (lookup_app_l_Some _ _ _ _ He). apply meq_refl.
  - destruct ((anchors sc ++ [mkAnchor name vzero]) !! p) as [e'|] eqn:He'; [|apply meq_refl].
    apply lookup_app_Some in He'. destruct He' as [He'|[_ He']]; [congruence|].
    apply list_lookup_singleton_Some in He'. destruct He' as [_ <-]. cbn.
    destruct (frag_matrix f) as [? ? ? []].
    unfold meq, mat_translate, vadd, vzero, veq; cbn. repeat split; try reflexivity; ring.
Qed.

Lemma is_min_shift (f : Vector -> Q) (d : Q) (cs cs' : list Vector) (m : Q) :
  Forall2 (fun c c' => f c' == f c + d) cs cs' ->
  is_min f cs m -> is_min f cs' (m + d).
Proof.
  intros HR [Hall Hex]. split.
  - clear Hex. induction HR as [|c c' cs cs' E HR IH]; [constructor|].
    inversion Hall; subst. constructor; [lra | auto].
  - clear Hall. induction HR as [|c c' cs cs' E HR IH]; [inversion Hex|].
    inversion Hex; subst; [apply Exists_cons_hd; lra | apply Exists_cons_tl; auto].
Qed.

Lemma is_max_shift (f : Vector -> Q) (d : Q) (cs cs' : list Vector) (m : Q) :
  Forall2 (fun c c' => f c' == f c + d) cs cs' ->
  is_max f cs m -> is_max f cs' (m + d).
Proof.
  intros HR [Hall Hex]. split.
  - clear Hex. induction HR as [|c c' cs cs' E HR IH]; [constructor|].
    inversion Hall; subst. constructor; [lra | auto].
  - clear Hall. induction HR as [|c c' cs cs' E HR IH]; [inversion Hex|].
    inversion Hex; subst; [apply Exists_cons_hd; lra | apply Exists_cons_tl; auto].
Qed.

(** The bounding box of translated points is the translated bounding box. *)
Lemma is_union_bbox_shift (t : Vector) (cs cs' : list Vector) (mn mx : Vector) :
  Forall2 (fun c c' => veq c' (vadd c t)) cs cs' ->
  is_union_bbox cs mn mx -> is_union_bbox cs' (vadd mn t) (vadd mx t).
Proof.
  intros HR ((X1 & Y1 & Z1) & (X2 & Y2 & Z2)).
  assert (Forall2 (fun c c' => vx c' == vx c + vx t) cs cs') as Hx
    by (eapply Forall2_impl; [exact HR|]; intros ? ? (E & _ & _); exact E).
  assert (Forall2 (fun c c' => vy c' == vy c + vy t) cs cs') as Hy
    by (eapply Forall2_impl; [exact HR|]; intros ? ? (_ & E & _); exact E).
  assert (Forall2 (fun c c' => vz c' == vz c + vz t) cs cs') as Hz
    by (eapply Forall2_impl; [exact HR|]; intros ? ? (_ & _ & E); exact E).
  unfold is_union_bbox, vadd; cbn [vx vy vz].
  split; (split; [|split]).
  - exact (is_min_shift vx _ _ _ _ Hx X1).
  - exact (is_min_shift vy _ _ _ _ Hy Y1).
  - exact (is_min_shift vz _ _ _ _ Hz Z1).
  - exact (is_max_shift vx _ _ _ _ Hx X2).
  - exact (is_max_shift vy _ _ _ _ Hy Y2).
  - exact (is_max_shift vz _ _ _ _ Hz Z2).
Qed.

Lemma is_min_Qeq (f : Vector -> Q) (cs : list Vector) (m m' : Q) :
  m == m' -> is_min f cs m -> is_min f cs m'.
Proof.
  intros E [Hall Hex]. split.
  - eapply Forall_impl; [exact Hall|]. cbv beta. intros. lra.
  - eapply Exists_impl; [exact Hex|]. cbv beta. intros. lra.
Qed.

Lemma is_max_Qeq (f : Vector -> Q) (cs : list Vector) (m m' : Q) :
  m == m' -> is_max f cs m -> is_max f cs m'.
Proof.
  intros E [Hall Hex]. split.
  - eapply Forall_impl; [exact Hall|]. cbv beta. intros. lra.
  - eapply Exists_impl; [exact Hex|]. cbv beta. intros. lra.
Qed.

Lemma is_union_bbox_veq (cs : list Vector) (mn mn' mx mx' : Vector) :
  veq mn mn' -> veq mx mx' ->
  is_union_bbox cs mn mx -> is_union_bbox cs mn' mx'.
Proof.
  intros (E1 & E2 & E3) (E4 & E5 & E6) ((X1 & Y1 & Z1) & (X2 & Y2 & Z2)).
  split; (split; [|split]).
  - exact (is_min_Qeq vx _ _ _ E1 X1).
  - exact (is_min_Qeq vy _ _ _ E2 Y1).
  - exact (is_min_Qeq vz _ _ _ E3 Z1).
  - exact (is_max_Qeq vx _ _ _ E4 X2).
  - exact (is_max_Qeq vy _ _ _ E5 Y2).
  - exact (is_max_Qeq vz _ _ _ E6 Z2).
Qed.

(** The bounding box of the same points, up to equality of fractions. *)
Lemma is_union_bbox_same (cs cs' : list Vector) (mn mx : Vector) :
  Forall2 veq cs cs' -> is_union_bbox cs mn mx -> is_union_bbox cs' mn mx.
Proof.
  intros HR H.
  apply (is_union_bbox_veq cs' (vadd mn vzero) mn (vadd mx vzero) mx).
  - unfold veq, vadd, vzero; cbn; repeat split; ring.
  - unfold veq, vadd, vzero; cbn; repeat split; ring.
  - eapply is_union_bbox_shift; [|exact H].
    eapply Forall2_impl; [exact HR|]. intros c c' (E1 & E2 & E3).
    unfold veq, vadd, vzero; cbn. repeat split; lra.
Qed.

(** Minimum and maximum of each coordinate, as the routine computes them. *)
Lemma union_bbox_run (c : Vector) (cs : list Vector) :
  exists mn mx,
    is_union_bbox (c :: cs) mn mx /\
    py_min (map vx (c :: cs)) = Returned (vx mn) /\
    py_min (map vy (c :: cs)) = Returned (vy mn) /\
    py_min (map vz (c :: cs)) = Returned (vz mn) /\
    py_max (map vx (c :: cs)) = Returned (vx mx) /\
    py_max (map vy (c :: cs)) = Returned (vy mx) /\
    py_max (map vz (c :: cs)) = Returned (vz mx).
Proof.
  destruct (py_min_spec vx c cs) as (x1 & -> & ?).
  destruct (py_min_spec vy c cs) as (y1 & -> & ?).
  destruct (py_min_spec vz c cs) as (z1 & -> & ?).
  destruct (py_max_spec vx c cs) as (x2 & -> & ?).
  destruct (py_max_spec vy c cs) as (y2 & -> & ?).
  destruct (py_max_spec vz c cs) as (z2 & -> & ?).
  exists (mkVector x1 y1 z1), (mkVector x2 y2 z2).
  unfold is_union_bbox; cbn [vx vy vz]. tauto.
Qed.

End BBoxFacts.

(* ------------------------------------------------------------------------- *)
(** ** Running the placement routine *)

Module RunFacts.
Import Geometry Py Host Placement PyFacts HostFacts BBoxFacts.
#[local] Open Scope py_scope.

Lemma bind_run {S A B} (c : M S A) (k : A -> M S B) (s s' : S) (a : A) :
  c s = (Returned a, s') -> bind c k s = k a s'.
Proof. intros H. unfold bind. rewrite H. reflexivity. Qed.

Lemma bind_raised {S A B} (c : M S A) (k : A -> M S B) (s s' : S) (e : exn) :
  c s = (Raised e, s') -> bind c k s = (Raised e, s').
Proof. intros H. unfold bind. rewrite H. reflexivity. Qed.

Lemma get_bound_box_run (sc : Scene) (obj : nat) (f : Fragment) (bb : list Vector) :
  fragments sc !! obj = Some f -> frag_bound_box f = Some bb ->
  get_bound_box obj sc = (Returned bb, sc).
Proof.
  intros Hf Hbb. unfold get_bound_box, bind, fragment_of. rewrite Hf, Hbb.
  reflexivity.
Qed.

Lemma get_matrix_world_run (sc : Scene) (obj : nat) (f : Fragment) :
  fragments sc !! obj = Some f ->
  get_matrix_world obj sc = (Returned (matrix_world sc f), sc).
Proof.
  intros Hf. unfold get_matrix_world, bind, fragment_of, get, ret.
  rewrite Hf. reflexivity.
Qed.

(** The inner loop [for v in obj.bound_box]. *)
Lemma corners_loop (sc : Scene) (obj : nat) (f : Fragment) (bb : list Vector) :
  forall coords,
  fragments sc !! obj = Some f ->
  for_fold bb coords
    (fun coords v => mw <- get_matrix_world obj ;; ret (coords ++ [mat_apply mw v])) sc
  = (Returned (coords ++ map (mat_apply (matrix_world sc f)) bb), sc).
Proof.
  induction bb as [|v bb IH]; intros coords Hf; cbn [for_fold map].
  - rewrite app_nil_r. reflexivity.
  - erewrite bind_run; cycle 1.
    { erewrite bind_run by (apply get_matrix_world_run; exact Hf). reflexivity. }
    rewrite IH by exact Hf. rewrite <- app_assoc. reflexivity.
Qed.

(** The loop of [CE-Tree-Grid.py] that gathers the corners. *)
Lemma collect_v1 (sc : Scene) (objs : list nat) : forall acc,
  readable sc objs ->
  for_fold objs acc
    (fun coords obj =>
       bound_box <- get_bound_box obj ;;
       for_fold bound_box coords
         (fun coords v =>
            mw <- get_matrix_world obj ;; ret (coords ++ [mat_apply mw v]))) sc
  = (Returned (acc ++ world_corners sc objs), sc).
Proof.
  induction objs as [|obj objs IH]; intros acc Hr; cbn [for_fold].
  - unfold world_corners; cbn. rewrite app_nil_r. reflexivity.
  - inversion Hr as [|? ? (f & bb & Hf & Hbb) Hr']; subst.
    erewrite bind_run; cycle 1.
    { erewrite bind_run by (eapply get_bound_box_run; eassumption).
      apply corners_loop. exact Hf. }
    rewrite IH by exact Hr'.
    rewrite world_corners_cons, app_assoc.
    unfold world_corners at 2; cbn. rewrite Hf, Hbb, app_nil_r. reflexivity.
Qed.

(** The loop of [compute_world_bbox] that gathers the corners. *)
Lemma collect_v2 (sc : Scene) (objs : list nat) : forall acc,
  for_fold objs acc
    (fun coords obj =>
       bb <- try_except (bb <- get_bound_box obj ;; ret (Some bb)) (ret None) ;;
       match bb with
       | None => ret coords
       | Some bb =>
           for_fold bb coords
             (fun coords v =>
                mw <- get_matrix_world obj ;; ret (coords ++ [mat_apply mw v]))
       end) sc
  = (Returned (acc ++ world_corners sc objs), sc).
Proof.
  induction objs as [|obj objs IH]; intros acc; cbn [for_fold].
  - unfold world_corners; cbn. rewrite app_nil_r. reflexivity.
  - rewrite world_corners_cons, app_assoc.
    unfold world_corners at 1; cbn [flat_map]. rewrite app_nil_r.
    destruct (fragments sc !! obj) as [f|] eqn:Hf.
    + destruct (frag_bound_box f) as [bb|] eqn:Hbb.
      * erewrite bind_run; cycle 1.
        { erewrite bind_run; cycle 1.
          { unfold try_except. erewrite bind_run
              by (eapply get_bound_box_run; eassumption). reflexivity. }
          apply corners_loop. exact Hf. }
        apply IH.
      * erewrite bind_run; cycle 1.
        { erewrite bind_run; cycle 1.
          { unfold try_except, get_bound_box, bind, fragment_of.
            rewrite Hf, Hbb. reflexivity. }
          reflexivity. }
        rewrite app_nil_r. apply IH.
    + erewrite bind_run; cycle 1.
      { erewrite bind_run; cycle 1.
        { unfold try_except, get_bound_box, bind, fragment_of.
          rewrite Hf. reflexivity. }
        reflexivity. }
      rewrite app_nil_r. apply IH.
Qed.

End RunFacts.

(* ------------------------------------------------------------------------- *)
(** ** What a call of [align_group_with_empty] does to the scene *)

Module AlignFacts.
Import Geometry Py Host Placement PyFacts HostFacts BBoxFacts RunFacts.
#[local] Open Scope py_scope.

Lemma readable_valid (sc : Scene) (objs : list nat) :
  readable sc objs -> valid sc objs.
Proof.
  intros H. eapply Forall_impl; [exact H|]. cbv beta.
  intros obj (f & bb & Hf & _). exists f. exact Hf.
Qed.

Lemma group_ok_readable (sc : Scene) (objs : list nat) :
  group_ok sc objs -> readable sc objs.
Proof.
  intros H. eapply Forall_impl; [exact H|]. cbv beta.
  intros obj (f & bb & Hf & Hbb & _). eauto.
Qed.

Lemma readable_same_world (sc sc' : Scene) (objs : list nat) :
  same_world sc sc' -> readable sc objs -> readable sc' objs.
Proof.
  intros (_ & H) Hr. eapply Forall_impl; [exact Hr|]. cbv beta.
  intros obj (f & bb & Hf & Hbb).
  destruct (H obj f Hf) as (f' & Hf' & Hbb' & _).
  exists f', bb. split; [exact Hf' | congruence].
Qed.

Lemma Forall2_veq_sym (cs cs' : list Vector) :
  Forall2 veq cs cs' -> Forall2 veq cs' cs.
Proof.
  induction 1; constructor; [apply veq_sym|]; assumption.
Qed.

(** [a.location += offset] on an anchor that is still where it was created. *)
Lemma move_anchor_run {A} (sc : Scene) (name : string) (l : list Anchor)
    (offset : Vector) (k : M Scene A) :
  (location <- get_location (length l) ;;
   set_location (length l) (vadd location offset) ;; k)
    (with_anchors (l ++ [mkAnchor name vzero]) sc)
  = k (with_anchors (l ++ [mkAnchor name (vadd vzero offset)]) sc).
Proof.
  unfold get_location, set_location, bind, anchor_of, modify, ret.
  cbn [anchors with_anchors].
  rewrite list_lookup_middle by reflexivity.
  cbn [anchor_location anchor_name anchors with_anchors].
  rewrite list_lookup_middle by reflexivity.
  cbn [fragments anchors collection_objects with_anchors anchor_name].
  rewrite insert_app_r_alt by lia. rewrite Nat.sub_diag. reflexivity.
Qed.

(** Creating the anchor and linking it to the collection. *)
Lemma new_anchor_run {A} (name collection : string) (k : nat -> M Scene A)
    (sc : Scene) :
  (a <- objects_new name ;; objects_link collection a ;; k a) sc
  = k (length (anchors sc)) (with_new_anchor name collection sc).
Proof. reflexivity. Qed.

Lemma scene_eta (sc : Scene) : with_anchors (anchors sc) sc = sc.
Proof. destruct sc; reflexivity. Qed.

(** [CE-Tree-Grid.py]: the scene a call leaves behind. *)
Lemma align_v1_run (sc : Scene) (objs : list nat) (cell_x cell_y : Z) (spacing : Q)
    (style_name tree_collection : string) :
  objs <> [] -> readable sc objs ->
  exists sc3,
    reparented (length (anchors sc)) objs
      (with_new_anchor style_name tree_collection sc) sc3 /\
    ((world_corners sc objs = [] /\
      TreeGrid.align_group_with_empty objs cell_x cell_y spacing
        style_name tree_collection sc = (Returned None, sc3)) \/
     (exists mn mx,
        is_union_bbox (world_corners sc objs) mn mx /\
        TreeGrid.align_group_with_empty objs cell_x cell_y spacing
          style_name tree_collection sc
        = (Returned None,
           with_anchors
             (anchors sc ++
              [mkAnchor style_name
                 (vadd vzero
                    (placement_offset mn mx
                       (TreeGrid.grid_cell_center cell_x cell_y spacing)))])
             sc3))).
Proof.
  intros Hne Hr.
  set (sc1 := with_new_anchor style_name tree_collection sc).
  destruct (reparent_loop (length (anchors sc)) (mkAnchor style_name vzero) objs sc1)
    as (sc3 & Hloop & Hrel).
  { cbn. apply list_lookup_middle. reflexivity. }
  { apply readable_valid in Hr. exact Hr. }
  exists sc3. split; [exact Hrel|].
  assert (same_world sc sc3) as Hsw.
  { eapply same_world_trans; [apply new_anchor_same_world|].
    eapply reparented_same_world. exact Hrel. }
  assert (readable sc3 objs) as Hr3
    by (eapply readable_same_world; [exact Hsw | exact Hr]).
  pose proof (same_world_corners sc sc3 objs Hsw) as Hcs.
  destruct Hrel as (Ha & _).
  destruct objs as [|o os]; [contradiction|].
  unfold TreeGrid.align_group_with_empty.
  rewrite new_anchor_run. fold sc1.
  erewrite bind_run by exact Hloop.
  erewrite bind_run by (apply collect_v1; exact Hr3).
  cbn [app].
  destruct (world_corners sc3 (o :: os)) as [|c cs] eqn:Hc.
  - left. split; [|reflexivity]. apply Forall2_nil_inv_r in Hcs. exact Hcs.
  - right. destruct (union_bbox_run c cs) as (mn & mx & Hbox & E1 & E2 & E3 & E4 & E5 & E6).
    exists mn, mx. split.
    { eapply is_union_bbox_same; [|exact Hbox]. apply Forall2_veq_sym. exact Hcs. }
    unfold lift. rewrite E1, E2, E3, E4, E5, E6.
    repeat (erewrite bind_run by reflexivity).
    rewrite <- (scene_eta sc3) at 1. rewrite Ha. cbn [anchors sc1 with_new_anchor].
    rewrite move_anchor_run. reflexivity.
Qed.

(** [compute_world_bbox] always returns, leaves the scene alone and gives
    either nothing or the union bounding box with its centre. *)
Lemma compute_world_bbox_run (sc : Scene) (objs : list nat) :
  (world_corners sc objs = [] /\
   TreesToGrid.compute_world_bbox objs sc = (Returned (None, None, None), sc)) \/
  (exists mn mx,
     is_union_bbox (world_corners sc objs) mn mx /\
     TreesToGrid.compute_world_bbox objs sc
     = (Returned (Some mn, Some mx, Some (vdiv (vadd mn mx) 2)), sc)).
Proof.
  unfold TreesToGrid.compute_world_bbox.
  erewrite bind_run by apply collect_v2. cbn [app].
  destruct (world_corners sc objs) as [|c cs].
  - left. split; reflexivity.
  - right. destruct (union_bbox_run c cs) as (mn & mx & Hbox & E1 & E2 & E3 & E4 & E5 & E6).
    exists mn, mx. split; [exact Hbox|].
    unfold lift. rewrite E1, E2, E3, E4, E5, E6.
    repeat (erewrite bind_run by reflexivity).
    destruct mn, mx; reflexivity.
Qed.

(** [CE-trees-to-grid.py]: the scene a call leaves behind. *)
Lemma align_v2_run (sc : Scene) (objs : list nat) (cell_x cell_y : Z) (spacing : Q)
    (group_name collection : string) :
  objs <> [] -> valid sc objs ->
  exists sc3,
    reparented (length (anchors sc)) objs
      (with_new_anchor group_name collection sc) sc3 /\
    ((world_corners sc objs = [] /\
      TreesToGrid.align_group_with_empty objs cell_x cell_y spacing
        group_name collection sc = (Returned (Some (length (anchors sc))), sc3)) \/
     (exists mn mx,
        is_union_bbox (world_corners sc objs) mn mx /\
        TreesToGrid.align_group_with_empty objs cell_x cell_y spacing
          group_name collection sc
        = (Returned (Some (length (anchors sc))),
           with_anchors
             (anchors sc ++
              [mkAnchor group_name
                 (vadd vzero
                    (placement_offset mn mx
                       (TreesToGrid.grid_cell_center cell_x cell_y spacing)))])
             sc3))).
Proof.
  intros Hne Hv.
  set (sc1 := with_new_anchor group_name collection sc).
  destruct (reparent_loop (length (anchors sc)) (mkAnchor group_name vzero) objs sc1)
    as (sc3 & Hloop & Hrel).
  { cbn. apply list_lookup_middle. reflexivity. }
  { exact Hv. }
  exists sc3. split; [exact Hrel|].
  assert (same_world sc sc3) as Hsw.
  { eapply same_world_trans; [apply new_anchor_same_world|].
    eapply reparented_same_world. exact Hrel. }
  pose proof (same_world_corners sc sc3 objs Hsw) as Hcs.
  destruct Hrel as (Ha & _).
  destruct objs as [|o os]; [contradiction|].
  unfold TreesToGrid.align_group_with_empty.
  rewrite new_anchor_run. fold sc1.
  erewrite bind_run by exact Hloop.
  destruct (compute_world_bbox_run sc3 (o :: os)) as [[Hc Hrun]|(mn & mx & Hbox & Hrun)].
  - left. rewrite Hc in Hcs. split; [apply Forall2_nil_inv_r in Hcs; exact Hcs|].
    erewrite bind_run by exact Hrun. reflexivity.
  - right. exists mn, mx. split.
    { eapply is_union_bbox_same; [|exact Hbox]. apply Forall2_veq_sym. exact Hcs. }
    erewrite bind_run by exact Hrun. cbv beta iota.
    erewrite bind_run by reflexivity.
    rewrite <- (scene_eta sc3) at 1. rewrite Ha. cbn [anchors sc1 with_new_anchor].
    rewrite move_anchor_run. reflexivity.
Qed.

(** Where the group is once the anchor has moved by [offset]: every
    fragment of the group is translated by [offset] in the world. *)
Lemma group_moved (sc sc3 : Scene) (objs : list nat) (name collection : string)
    (offset : Vector) :
  reparented (length (anchors sc)) objs (with_new_anchor name collection sc) sc3 ->
  forall obj f, obj ∈ objs -> fragments sc !! obj = Some f ->
    exists f4,
      fragments (with_anchors (anchors sc ++ [mkAnchor name (vadd vzero offset)]) sc3)
        !! obj = Some f4 /\
      frag_bound_box f4 = frag_bound_box f /\
      meq (matrix_world
             (with_anchors (anchors sc ++ [mkAnchor name (vadd vzero offset)]) sc3) f4)
          (mat_translate offset (matrix_world sc f)).
Proof.
  intros (Ha & _ & _ & H) obj f Hin Hf.
  destruct (H obj f Hf) as (f3 & Hf3 & Hbb & Hm & Hp & _).
  specialize (Hp Hin).
  exists f3. split; [exact Hf3|]. split; [exact Hbb|].
  destruct (new_anchor_same_world sc name
              (collection_objects sc ++ [(collection, length (anchors sc))]))
    as (_ & Hnew).
  destruct (Hnew obj f Hf) as (f' & Hf' & _ & Hm').
  cbn [fragments] in Hf'. rewrite Hf in Hf'. injection Hf' as <-.
  fold (with_new_anchor name collection sc) in Hm'.
  assert (meq (matrix_world sc3 f3) (matrix_world sc f)) as Hm3
    by (eapply meq_trans; eassumption).
  unfold matrix_world at 1. rewrite Hp. cbn [anchors with_anchors].
  rewrite list_lookup_middle by reflexivity. cbn [anchor_location].
  unfold matrix_world at 1 in Hm3. rewrite Hp, Ha in Hm3.
  cbn [anchors with_new_anchor] in Hm3.
  rewrite list_lookup_middle in Hm3 by reflexivity. cbn [anchor_location] in Hm3.
  eapply meq_trans; [|apply mat_translate_meq; [apply veq_refl | exact Hm3]].
  unfold meq, mat_translate, veq, vadd, vzero; cbn.
  repeat split; try reflexivity; ring.
Qed.

(** The corners of the group after the move are the corners before it,
    translated by [offset]. *)
Lemma group_moved_corners (sc sc3 : Scene) (objs : list nat)
    (name collection : string) (offset : Vector) :
  reparented (length (anchors sc)) objs (with_new_anchor name collection sc) sc3 ->
  Forall2 (fun c c' => veq c' (vadd c offset))
    (world_corners sc objs)
    (world_corners
       (with_anchors (anchors sc ++ [mkAnchor name (vadd vzero offset)]) sc3) objs).
Proof.
  intros Hrel. apply world_corners_rel.
  - destruct Hrel as (_ & _ & Hlen & _). exact Hlen.
  - intros obj f Hin Hf.
    destruct (group_moved sc sc3 objs name collection offset Hrel obj f Hin Hf)
      as (f4 & Hf4 & Hbb & Hm).
    exists f4. split; [exact Hf4|]. split; [exact Hbb|]. intros v.
    eapply veq_trans; [apply mat_apply_meq; exact Hm|].
    apply mat_apply_translate.
Qed.

(** Moving the anchor by the offset of the routine puts the group on its
    cell. *)
Lemma placed_after (sc sc3 : Scene) (objs : list nat) (name collection : string)
    (mn mx target : Vector) :
  reparented (length (anchors sc)) objs (with_new_anchor name collection sc) sc3 ->
  is_union_bbox (world_corners sc objs) mn mx ->
  placed (with_anchors
            (anchors sc ++
             [mkAnchor name (vadd vzero (placement_offset mn mx target))]) sc3)
         objs target.
Proof.
  intros Hrel Hbox.
  pose proof (group_moved_corners sc sc3 objs name collection
                (placement_offset mn mx target) Hrel) as Hcs.
  exists (vadd mn (placement_offset mn mx target)),
         (vadd mx (placement_offset mn mx target)).
  split; [eapply is_union_bbox_shift; eassumption|].
  unfold placement_offset, vadd, vdiv; cbn [vx vy vz].
  repeat split; field.
Qed.

End AlignFacts.

(* ------------------------------------------------------------------------- *)
(** ** Groups that already sit on their cell *)

Module PlacedFacts.
Import Geometry Py Host Placement PyFacts HostFacts BBoxFacts RunFacts AlignFacts.
#[local] Open Scope py_scope.

Lemma is_min_unique (f : Vector -> Q) (cs : list Vector) (m m' : Q) :
  is_min f cs m -> is_min f cs m' -> m == m'.
Proof.
  intros [Hall Hex] [Hall' Hex'].
  rewrite Forall_forall in Hall, Hall'. rewrite Exists_exists in Hex, Hex'.
  destruct Hex as (c & Hc & E), Hex' as (c' & Hc' & E').
  pose proof (Hall c' Hc'). pose proof (Hall' c Hc). lra.
Qed.

Lemma is_max_unique (f : Vector -> Q) (cs : list Vector) (m m' : Q) :
  is_max f cs m -> is_max f cs m' -> m == m'.
Proof.
  intros [Hall Hex] [Hall' Hex'].
  rewrite Forall_forall in Hall, Hall'. rewrite Exists_exists in Hex, Hex'.
  destruct Hex as (c & Hc & E), Hex' as (c' & Hc' & E').
  pose proof (Hall c' Hc'). pose proof (Hall' c Hc). lra.
Qed.

(** A set of points has one union bounding box. *)
Lemma is_union_bbox_unique (cs : list Vector) (mn mx mn' mx' : Vector) :
  is_union_bbox cs mn mx -> is_union_bbox cs mn' mx' ->
  veq mn mn' /\ veq mx mx'.
Proof.
  intros ((X1 & Y1 & Z1) & (X2 & Y2 & Z2)) ((X1' & Y1' & Z1') & (X2' & Y2' & Z2')).
  split; (split; [|split]);
    first [ eapply is_min_unique; eassumption | eapply is_max_unique; eassumption ].
Qed.

Lemma is_union_bbox_nonempty (cs : list Vector) (mn mx : Vector) :
  is_union_bbox cs mn mx -> cs <> [].
Proof.
  intros (([_ Hex] & _) & _) ->. inversion Hex.
Qed.

(** A group of fragments with eight corners each has corners. *)
Lemma group_ok_corners (sc : Scene) (objs : list nat) :
  objs <> [] -> group_ok sc objs -> world_corners sc objs <> [].
Proof.
  intros Hne Hok. destruct objs as [|o os]; [contradiction|].
  inversion Hok as [|? ? (f & bb & Hf & Hbb & Hlen) _]; subst.
  rewrite world_corners_cons. unfold world_corners at 1; cbn [flat_map].
  rewrite Hf, Hbb. destruct bb; [discriminate Hlen|]. discriminate.
Qed.

(** The offset of a group that sits on its cell is zero. *)
Lemma placed_offset_zero (sc : Scene) (objs : list nat) (target mn mx : Vector) :
  placed sc objs target ->
  is_union_bbox (world_corners sc objs) mn mx ->
  vz target == 0 ->
  veq (placement_offset mn mx target) vzero.
Proof.
  intros (mn0 & mx0 & Hbox0 & Ex & Ey & Ez) Hbox Ht.
  destruct (is_union_bbox_unique _ _ _ _ _ Hbox0 Hbox)
    as ((E1 & E2 & E3) & (E4 & E5 & E6)).
  unfold placement_offset, veq, vdiv, vadd, vzero; cbn [vx vy vz].
  rewrite <- E1, <- E2, <- E3, <- E4, <- E5.
  repeat split; lra.
Qed.

(** What a call leaves of a group that already sits on its cell: a new
    anchor at the origin, and every fragment of the group where it was. *)
Lemma placed_group_stays (sc sc3 : Scene) (objs : list nat)
    (name collection : string) (target mn mx : Vector) :
  placed sc objs target -> vz target == 0 ->
  reparented (length (anchors sc)) objs (with_new_anchor name collection sc) sc3 ->
  is_union_bbox (world_corners sc objs) mn mx ->
  veq (vadd vzero (placement_offset mn mx target)) vzero /\
  forall obj f, obj ∈ objs -> fragments sc !! obj = Some f ->
    exists f',
      fragments (with_anchors
                   (anchors sc ++
                    [mkAnchor name (vadd vzero (placement_offset mn mx target))])
                   sc3) !! obj = Some f' /\
      meq (matrix_world
             (with_anchors
                (anchors sc ++
                 [mkAnchor name (vadd vzero (placement_offset mn mx target))])
                sc3) f')
          (matrix_world sc f).
Proof.
  intros Hp Ht Hrel Hbox.
  pose proof (placed_offset_zero sc objs target mn mx Hp Hbox Ht) as Hz.
  split.
  - destruct Hz as (E1 & E2 & E3). unfold veq, vadd, vzero in *; cbn [vx vy vz] in *.
    repeat split; lra.
  - intros obj f Hin Hf.
    destruct (group_moved sc sc3 objs name collection
                (placement_offset mn mx target) Hrel obj f Hin Hf)
      as (f4 & Hf4 & _ & Hm).
    exists f4. split; [exact Hf4|].
    eapply meq_trans; [exact Hm|].
    eapply meq_trans; [apply mat_translate_meq; [exact Hz | apply meq_refl]|].
    unfold meq, mat_translate, veq, vadd, vzero; cbn.
    repeat split; try reflexivity; ring.
Qed.

(** The group keeps its bounding boxes through a call. *)
Lemma group_ok_after (sc sc3 : Scene) (objs : list nat) (a : nat)
    (name collection : string) (l : list Anchor) :
  reparented a objs (with_new_anchor name collection sc) sc3 ->
  group_ok sc objs -> group_ok (with_anchors l sc3) objs.
Proof.
  intros (_ & _ & _ & H) Hok. eapply Forall_impl; [exact Hok|]. cbv beta.
  intros obj (f & bb & Hf & Hbb & Hlen).
  destruct (H obj f Hf) as (f' & Hf' & Hbb' & _).
  exists f', bb. split; [exact Hf'|]. split; [congruence | exact Hlen].
Qed.

End PlacedFacts.

(* ------------------------------------------------------------------------- *)
(** ** Grid placement: the properties of the specification *)

Module GridPlacement.
Import Geometry Py Host Placement PyFacts HostFacts BBoxFacts RunFacts AlignFacts
       PlacedFacts Examples.
#[local] Open Scope py_scope.

Ltac group_ok_by_evaluation :=
  repeat (constructor; [do 2 eexists; repeat split; reflexivity|]);
  constructor.

(** C3.  The centre of the grid cell [(col, row)] for the spacing [s] is
    [(col*s + s/2, -row*s - s/2, 0)], in both importers.  Its Z component is
    0; the next column is [s] further along X; the next row is [s] further
    down Y, so that with a positive spacing rows run towards negative Y. *)
Theorem grid_cell_center_formula (col row : Z) (s : Q) :
  TreeGrid.grid_cell_center col row s
    = mkVector (inject_Z col * s + s / 2) (- inject_Z row * s - s / 2) 0 /\
  TreesToGrid.grid_cell_center col row s = TreeGrid.grid_cell_center col row s /\
  vz (TreeGrid.grid_cell_center col row s) = 0 /\
  vx (TreeGrid.grid_cell_center (col + 1) row s)
    == vx (TreeGrid.grid_cell_center col row s) + s /\
  vy (TreeGrid.grid_cell_center (col + 1) row s)
    == vy (TreeGrid.grid_cell_center col row s) /\
  vy (TreeGrid.grid_cell_center col (row + 1) s)
    == vy (TreeGrid.grid_cell_center col row s) - s /\
  vx (TreeGrid.grid_cell_center col (row + 1) s)
    == vx (TreeGrid.grid_cell_center col row s) /\
  (0 < s -> vy (TreeGrid.grid_cell_center col (row + 1) s)
            < vy (TreeGrid.grid_cell_center col row s)).
Proof.
  unfold TreeGrid.grid_cell_center, TreesToGrid.grid_cell_center; cbn [vx vy vz].
  repeat split; try reflexivity.
  - rewrite inject_Z_plus. change (inject_Z 1) with 1. field.
  - rewrite inject_Z_plus. change (inject_Z 1) with 1. field.
  - intros Hs. rewrite inject_Z_plus. change (inject_Z 1) with 1.
    apply Qlt_minus_iff. ring_simplify. exact Hs.
Qed.

Lemma grid_cell_center_formula_witness :
  vy (TreeGrid.grid_cell_center 1 (0 + 1) 50) < vy (TreeGrid.grid_cell_center 1 0 50).
Proof.
  apply (grid_cell_center_formula 1 0 50). reflexivity.
Defined.

(** C5.  For an empty sequence of fragments the call returns nothing and
    leaves the scene as it was: no anchor is created, nothing is linked,
    no parent is set and no position changes.  Both importers. *)
Theorem empty_group_noop (sc : Scene) (cell_x cell_y : Z) (spacing : Q)
    (name collection : string) :
  TreeGrid.align_group_with_empty [] cell_x cell_y spacing name collection sc
    = (Returned None, sc) /\
  TreesToGrid.align_group_with_empty [] cell_x cell_y spacing name collection sc
    = (Returned None, sc).
Proof. split; reflexivity. Qed.

(** C1.  For a non-empty group whose fragments each have the eight corners
    of a bounding box, the call returns, and in the scene it leaves the
    union of the group's world-space bounding box has its X/Y centre at
    [(cell_x * spacing + spacing / 2, - cell_y * spacing - spacing / 2)],
    the centre of the target cell, and its least Z at 0.  Both importers;
    the host keeps world transforms across reparenting and moves children
    with their anchor, as [Host] states. *)
Theorem placement_reaches_cell (sc : Scene) (objs : list nat) (cell_x cell_y : Z)
    (spacing : Q) (name collection : string) :
  objs <> [] -> group_ok sc objs ->
  (exists sc',
     TreeGrid.align_group_with_empty objs cell_x cell_y spacing name collection sc
       = (Returned None, sc') /\
     placed sc' objs
       (mkVector (inject_Z cell_x * spacing + spacing / 2)
                 (- inject_Z cell_y * spacing - spacing / 2) 0)) /\
  (exists sc',
     TreesToGrid.align_group_with_empty objs cell_x cell_y spacing name collection sc
       = (Returned (Some (length (anchors sc))), sc') /\
     placed sc' objs
       (mkVector (inject_Z cell_x * spacing + spacing / 2)
                 (- inject_Z cell_y * spacing - spacing / 2) 0)).
Proof.
  intros Hne Hok.
  pose proof (group_ok_corners sc objs Hne Hok) as Hcs.
  pose proof (group_ok_readable sc objs Hok) as Hr.
  split.
  - destruct (align_v1_run sc objs cell_x cell_y spacing name collection Hne Hr)
      as (sc3 & Hrel & [[Hnil _]|(mn & mx & Hbox & Hrun)]); [contradiction|].
    eexists. split; [exact Hrun|].
    change (mkVector _ _ _) with (TreeGrid.grid_cell_center cell_x cell_y spacing).
    eapply placed_after; eassumption.
  - destruct (align_v2_run sc objs cell_x cell_y spacing name collection Hne
                (readable_valid sc objs Hr))
      as (sc3 & Hrel & [[Hnil _]|(mn & mx & Hbox & Hrun)]); [contradiction|].
    eexists. split; [exact Hrun|].
    change (mkVector _ _ _) with (TreesToGrid.grid_cell_center cell_x cell_y spacing).
    eapply placed_after; eassumption.
Qed.

Lemma placement_reaches_cell_witness :
  (exists sc',
     TreeGrid.align_group_with_empty [0; 1; 2]%nat 1 0 50 "Fan" "Trees" three_fragments
       = (Returned None, sc') /\
     placed sc' [0; 1; 2]%nat
       (mkVector (inject_Z 1 * 50 + 50 / 2) (- inject_Z 0 * 50 - 50 / 2) 0)) /\
  (exists sc',
     TreesToGrid.align_group_with_empty [0; 1; 2]%nat 1 0 50 "Fan" "Trees" three_fragments
       = (Returned (Some (length (anchors three_fragments))), sc') /\
     placed sc' [0; 1; 2]%nat
       (mkVector (inject_Z 1 * 50 + 50 / 2) (- inject_Z 0 * 50 - 50 / 2) 0)).
Proof.
  apply (placement_reaches_cell three_fragments [0; 1; 2]%nat 1 0 50 "Fan" "Trees").
  - discriminate.
  - group_ok_by_evaluation.
Defined.

(** C2.  [CE-Tree-Grid.py], for a non-empty group whose union bounding box
    runs from [mn] to [mx]: with [center = (mn + mx) / 2] and [target] the
    centre of the cell, the anchor ends at the position it was created with
    plus [offset = (target.x - center.x, target.y - center.y, -mn.z)].  For
    the box from [(10, 10, 2)] to [(20, 14, 6)], the cell [(1, 0)] and the
    spacing 50, the target is [(75, -25, 0)] and the anchor, created at the
    origin, ends at [(60, -37, -2)]. *)
Theorem placement_offset_applied (sc : Scene) (objs : list nat) (cell_x cell_y : Z)
    (spacing : Q) (name collection : string) (mn mx : Vector) :
  objs <> [] -> readable sc objs ->
  is_union_bbox (world_corners sc objs) mn mx ->
  let target := TreeGrid.grid_cell_center cell_x cell_y spacing in
  let center := vdiv (vadd mn mx) 2 in
  let offset :=
    mkVector (vx target - vx center) (vy target - vy center) (- vz mn) in
  exists sc' created moved,
    TreeGrid.align_group_with_empty objs cell_x cell_y spacing name collection sc
      = (Returned None, sc') /\
    anchors (with_new_anchor name collection sc) !! length (anchors sc)
      = Some created /\
    anchors sc' !! length (anchors sc) = Some moved /\
    veq (anchor_location moved) (vadd (anchor_location created) offset) /\
    (cell_x = 1%Z -> cell_y = 0%Z -> spacing == 50 ->
     veq mn (mkVector 10 10 2) -> veq mx (mkVector 20 14 6) ->
     veq target (mkVector 75 (-25) 0) /\
     veq (anchor_location moved) (mkVector 60 (-37) (-2))).
Proof.
  intros Hne Hr Hbox target center offset.
  destruct (align_v1_run sc objs cell_x cell_y spacing name collection Hne Hr)
    as (sc3 & Hrel & [[Hnil _]|(mn0 & mx0 & Hbox0 & Hrun)]).
  { exfalso. eapply is_union_bbox_nonempty; eassumption. }
  destruct (is_union_bbox_unique _ _ _ _ _ Hbox0 Hbox)
    as ((E1 & E2 & E3) & (E4 & E5 & E6)).
  eexists _, (mkAnchor name vzero), _.
  split; [exact Hrun|].
  split; [cbn; apply list_lookup_middle; reflexivity|].
  split; [cbn; apply list_lookup_middle; reflexivity|].
  cbn [anchor_location].
  assert (veq (vadd vzero (placement_offset mn0 mx0 target)) (vadd vzero offset)) as Hloc.
  { unfold offset, center, placement_offset, veq, vadd, vdiv, vzero; cbn [vx vy vz].
    rewrite E1, E2, E3, E4, E5. repeat split; reflexivity. }
  split; [exact Hloc|].
  intros -> -> Hs (M1 & M2 & M3) (M4 & M5 & M6).
  split.
  - unfold target, TreeGrid.grid_cell_center, veq; cbn [vx vy vz].
    rewrite Hs. repeat split; reflexivity.
  - eapply veq_trans; [exact Hloc|].
    unfold offset, center, target, TreeGrid.grid_cell_center, veq, vadd, vdiv, vzero;
      cbn [vx vy vz] in *.
    rewrite Hs, M1, M2, M3, M4, M5. repeat split; reflexivity.
Qed.

Lemma three_fragments_bbox :
  is_union_bbox (world_corners three_fragments [0; 1; 2]%nat)
    (mkVector 10 10 2) (mkVector 20 14 6).
Proof.
  vm_compute world_corners.
  unfold is_union_bbox, is_min, is_max; cbn [vx vy vz].
  repeat split;
    first [ repeat (apply List.Forall_cons; [discriminate|]); apply List.Forall_nil
          | repeat first [ apply List.Exists_cons_hd; reflexivity
                         | apply List.Exists_cons_tl ] ].
Qed.

Lemma placement_offset_applied_witness :
  exists sc' moved,
    TreeGrid.align_group_with_empty [0; 1; 2]%nat 1 0 50 "Fan" "Trees" three_fragments
      = (Returned None, sc') /\
    anchors sc' !! 0%nat = Some moved /\
    veq (TreeGrid.grid_cell_center 1 0 50) (mkVector 75 (-25) 0) /\
    veq (anchor_location moved) (mkVector 60 (-37) (-2)).
Proof.
  destruct (placement_offset_applied three_fragments [0; 1; 2]%nat 1 0 50
              "Fan" "Trees" (mkVector 10 10 2) (mkVector 20 14 6))
    as (sc' & created & moved & Hrun & Hc & Hm & Hloc & Hex).
  - discriminate.
  - repeat (constructor; [do 2 eexists; split; reflexivity|]); constructor.
  - exact three_fragments_bbox.
  - exists sc', moved.
    split; [exact Hrun|]. split; [exact Hm|].
    apply Hex; [reflexivity | reflexivity | reflexivity | apply veq_refl | apply veq_refl].
Defined.

(** C4.  The union bounding box is taken over the world-space corners of
    all fragments: [compute_world_bbox] always returns, leaves the scene as
    it is, and gives nothing when there is no corner and otherwise the
    component-wise minimum [mn] and maximum [mx] of all corners together
    with [center = (mn + mx) / 2]; the inline computation of
    [CE-Tree-Grid.py] moves the anchor by the offset built from the same
    [mn] and [center]. *)
Theorem union_bbox_computed (sc : Scene) (objs : list nat) (cell_x cell_y : Z)
    (spacing : Q) (name collection : string) :
  ((world_corners sc objs = [] /\
    TreesToGrid.compute_world_bbox objs sc = (Returned (None, None, None), sc)) \/
   (exists mn mx,
      is_union_bbox (world_corners sc objs) mn mx /\
      TreesToGrid.compute_world_bbox objs sc
      = (Returned (Some mn, Some mx, Some (vdiv (vadd mn mx) 2)), sc))) /\
  (objs <> [] -> readable sc objs -> world_corners sc objs <> [] ->
   exists mn mx sc' moved,
     is_union_bbox (world_corners sc objs) mn mx /\
     TreeGrid.align_group_with_empty objs cell_x cell_y spacing name collection sc
       = (Returned None, sc') /\
     anchors sc' !! length (anchors sc) = Some moved /\
     let target := TreeGrid.grid_cell_center cell_x cell_y spacing in
     let center := vdiv (vadd mn mx) 2 in
     anchor_location moved
       = vadd vzero (mkVector (vx target - vx center) (vy target - vy center)
                              (- vz mn))).
Proof.
  split; [apply compute_world_bbox_run|].
  intros Hne Hr Hcs.
  destruct (align_v1_run sc objs cell_x cell_y spacing name collection Hne Hr)
    as (sc3 & Hrel & [[Hnil _]|(mn & mx & Hbox & Hrun)]); [contradiction|].
  exists mn, mx. eexists _, _. split; [exact Hbox|]. split; [exact Hrun|].
  split; [cbn; apply list_lookup_middle; reflexivity|]. reflexivity.
Qed.

Lemma union_bbox_computed_witness :
  exists mn mx sc' moved,
    is_union_bbox (world_corners three_fragments [0; 1; 2]%nat) mn mx /\
    TreeGrid.align_group_with_empty [0; 1; 2]%nat 1 0 50 "Fan" "Trees" three_fragments
      = (Returned None, sc') /\
    anchors sc' !! 0%nat = Some moved /\
    anchor_location moved
      = vadd vzero
          (mkVector
             (vx (TreeGrid.grid_cell_center 1 0 50) - vx (vdiv (vadd mn mx) 2))
             (vy (TreeGrid.grid_cell_center 1 0 50) - vy (vdiv (vadd mn mx) 2))
             (- vz mn)).
Proof.
  apply (proj2 (union_bbox_computed three_fragments [0; 1; 2]%nat 1 0 50 "Fan" "Trees")).
  - discriminate.
  - repeat (constructor; [do 2 eexists; split; reflexivity|]); constructor.
  - vm_compute. discriminate.
Defined.

(** C6.  For a non-empty group none of whose fragments gives a corner, the
    call returns without raising: [CE-Tree-Grid.py] gathers no coordinate
    and leaves the new anchor at the origin, and [CE-trees-to-grid.py]
    returns the new anchor, still at the origin, as soon as
    [compute_world_bbox] has given nothing.  No [min] or [max] of an empty
    sequence is taken. *)
Theorem no_corners_anchor_unmoved (sc : Scene) (objs : list nat) (cell_x cell_y : Z)
    (spacing : Q) (name collection : string) :
  objs <> [] -> world_corners sc objs = [] ->
  (readable sc objs ->
   exists sc',
     TreeGrid.align_group_with_empty objs cell_x cell_y spacing name collection sc
       = (Returned None, sc') /\
     anchors sc' = anchors sc ++ [mkAnchor name vzero]) /\
  (valid sc objs ->
   TreesToGrid.compute_world_bbox objs sc = (Returned (None, None, None), sc) /\
   exists sc',
     TreesToGrid.align_group_with_empty objs cell_x cell_y spacing name collection sc
       = (Returned (Some (length (anchors sc))), sc') /\
     anchors sc' = anchors sc ++ [mkAnchor name vzero]).
Proof.
  intros Hne Hnil. split.
  - intros Hr.
    destruct (align_v1_run sc objs cell_x cell_y spacing name collection Hne Hr)
      as (sc3 & Hrel & [[_ Hrun]|(mn & mx & Hbox & _)]).
    + exists sc3. split; [exact Hrun|]. destruct Hrel as (Ha & _). exact Ha.
    + exfalso. eapply is_union_bbox_nonempty; eassumption.
  - intros Hv. split.
    { destruct (compute_world_bbox_run sc objs) as [[_ H]|(mn & mx & Hbox & _)];
        [exact H|]. exfalso. eapply is_union_bbox_nonempty; eassumption. }
    destruct (align_v2_run sc objs cell_x cell_y spacing name collection Hne Hv)
      as (sc3 & Hrel & [[_ Hrun]|(mn & mx & Hbox & _)]).
    + exists sc3. split; [exact Hrun|]. destruct Hrel as (Ha & _). exact Ha.
    + exfalso. eapply is_union_bbox_nonempty; eassumption.
Qed.

Lemma no_corners_anchor_unmoved_witness :
  (exists sc',
     TreeGrid.align_group_with_empty [0; 1]%nat 2 3 50 "Fan" "Trees" no_corners
       = (Returned None, sc') /\
     anchors sc' = anchors no_corners ++ [mkAnchor "Fan" vzero]) /\
  (TreesToGrid.compute_world_bbox [0; 1]%nat no_corners
     = (Returned (None, None, None), no_corners) /\
   exists sc',
     TreesToGrid.align_group_with_empty [0; 1]%nat 2 3 50 "Fan" "Trees" no_corners
       = (Returned (Some (length (anchors no_corners))), sc') /\
     anchors sc' = anchors no_corners ++ [mkAnchor "Fan" vzero]).
Proof.
  destruct (no_corners_anchor_unmoved no_corners [0; 1]%nat 2 3 50 "Fan" "Trees")
    as [H1 H2].
  - discriminate.
  - reflexivity.
  - split.
    + apply H1. repeat (constructor; [do 2 eexists; split; reflexivity|]); constructor.
    + apply H2. repeat (constructor; [eexists; reflexivity|]); constructor.
Defined.

(** Where the host does not give a bounding box, [CE-trees-to-grid.py]
    skips the fragment and [CE-Tree-Grid.py] lets the exception through. *)
Example unreadable_bound_box :
  fst (TreeGrid.align_group_with_empty [0; 1]%nat 2 3 50 "Fan" "Trees"
         no_corners_unreadable) = Raised AttributeError /\
  fst (TreesToGrid.align_group_with_empty [0; 1]%nat 2 3 50 "Fan" "Trees"
         no_corners_unreadable) = Returned (Some 0%nat).
Proof. split; reflexivity. Qed.

(** C7, under the host contract of C1: the host keeps each fragment's
    world transform across reparenting and moves children rigidly with
    their anchor, as [Host] states.  A second call on a group that the
    first call has placed, with the same cell, computes the offset zero:
    its new anchor stays at the origin where it was created, the anchors of
    the first call keep their positions, and every fragment of the group is
    in the world where the first call left it.  Both importers.  Without
    the contract the group does not stay, as the example on [Evaluated]
    shows. *)
Theorem placement_idempotent (sc : Scene) (objs : list nat) (cell_x cell_y : Z)
    (spacing : Q) (name collection : string) :
  objs <> [] -> group_ok sc objs ->
  (exists sc1 sc2 position,
     TreeGrid.align_group_with_empty objs cell_x cell_y spacing name collection sc
       = (Returned None, sc1) /\
     TreeGrid.align_group_with_empty objs cell_x cell_y spacing name collection sc1
       = (Returned None, sc2) /\
     anchors sc2 = anchors sc1 ++ [mkAnchor name position] /\
     veq position vzero /\
     group_stays objs sc1 sc2) /\
  (exists sc1 sc2 position,
     TreesToGrid.align_group_with_empty objs cell_x cell_y spacing name collection sc
       = (Returned (Some (length (anchors sc))), sc1) /\
     TreesToGrid.align_group_with_empty objs cell_x cell_y spacing name collection sc1
       = (Returned (Some (length (anchors sc1))), sc2) /\
     anchors sc2 = anchors sc1 ++ [mkAnchor name position] /\
     veq position vzero /\
     group_stays objs sc1 sc2).
Proof.
  intros Hne Hok.
  pose proof (group_ok_corners sc objs Hne Hok) as Hcs.
  pose proof (group_ok_readable sc objs Hok) as Hr.
  split.
  - destruct (align_v1_run sc objs cell_x cell_y spacing name collection Hne Hr)
      as (sc3 & Hrel & [[Hnil _]|(mn & mx & Hbox & Hrun)]); [contradiction|].
    set (sc1 := with_anchors _ sc3) in Hrun.
    assert (placed sc1 objs (TreeGrid.grid_cell_center cell_x cell_y spacing)) as Hp
      by (eapply placed_after; eassumption).
    assert (group_ok sc1 objs) as Hok1 by (eapply group_ok_after; eassumption).
    pose proof (group_ok_corners sc1 objs Hne Hok1) as Hcs1.
    destruct (align_v1_run sc1 objs cell_x cell_y spacing name collection Hne
                (group_ok_readable sc1 objs Hok1))
      as (sc4 & Hrel' & [[Hnil _]|(mn' & mx' & Hbox' & Hrun')]); [contradiction|].
    destruct (placed_group_stays sc1 sc4 objs name collection _ mn' mx' Hp
                ltac:(reflexivity) Hrel' Hbox') as [Hz Hstay].
    eexists sc1, _, _. split; [exact Hrun|]. split; [exact Hrun'|].
    split; [reflexivity|]. split; [exact Hz|]. exact Hstay.
  - destruct (align_v2_run sc objs cell_x cell_y spacing name collection Hne
                (readable_valid sc objs Hr))
      as (sc3 & Hrel & [[Hnil _]|(mn & mx & Hbox & Hrun)]); [contradiction|].
    set (sc1 := with_anchors _ sc3) in Hrun.
    assert (placed sc1 objs (TreesToGrid.grid_cell_center cell_x cell_y spacing)) as Hp
      by (eapply placed_after; eassumption).
    assert (group_ok sc1 objs) as Hok1 by (eapply group_ok_after; eassumption).
    pose proof (group_ok_corners sc1 objs Hne Hok1) as Hcs1.
    destruct (align_v2_run sc1 objs cell_x cell_y spacing name collection Hne
                (readable_valid sc1 objs (group_ok_readable sc1 objs Hok1)))
      as (sc4 & Hrel' & [[Hnil _]|(mn' & mx' & Hbox' & Hrun')]); [contradiction|].
    destruct (placed_group_stays sc1 sc4 objs name collection _ mn' mx' Hp
                ltac:(reflexivity) Hrel' Hbox') as [Hz Hstay].
    eexists sc1, _, _. split; [exact Hrun|]. split; [exact Hrun'|].
    split; [reflexivity|]. split; [exact Hz|]. exact Hstay.
Qed.

Lemma placement_idempotent_witness :
  exists sc1 sc2 position,
    TreeGrid.align_group_with_empty [0; 1; 2]%nat 1 0 50 "Fan" "Trees" three_fragments
      = (Returned None, sc1) /\
    TreeGrid.align_group_with_empty [0; 1; 2]%nat 1 0 50 "Fan" "Trees" sc1
      = (Returned None, sc2) /\
    anchors sc2 = anchors sc1 ++ [mkAnchor "Fan" position] /\
    veq position vzero /\
    group_stays [0; 1; 2]%nat sc1 sc2.
Proof.
  apply (proj1 (placement_idempotent three_fragments [0; 1; 2]%nat 1 0 50 "Fan" "Trees"
                  ltac:(discriminate) ltac:(group_ok_by_evaluation))).
Defined.

End GridPlacement.

(* ------------------------------------------------------------------------- *)
(** ** Origin-shift sessions: running the operators *)

Module SessionFacts.
Import Geometry Py LodSession Session RunFacts.
#[local] Open Scope py_scope.

(** Move Reference to Origin finishes on a selected mesh object whose mesh
    the host still has. *)
Lemma move_run (st : State) (ref_name : string) (ref_obj : Object) (id : nat)
    (verts : list Vector) :
  selected_reference_name st = Some ref_name -> ref_name <> EmptyString ->
  objects st !! ref_name = Some ref_obj ->
  data ref_obj = Some (MeshRef id) ->
  meshes st !! id = Some verts ->
  move_reference_to_origin st
  = (Returned FINISHED,
     with_reports
       (reports st ++ [moved_report ref_name (moved_state ref_name ref_obj id verts st)])
       (moved_state ref_name ref_obj id verts st)).
Proof.
  intros Hsel Hne Hobj Hdata Hverts.
  assert (fresh (dom (meshes st)) <> id) as Hfresh.
  { intros E. apply (is_fresh (dom (meshes st))). rewrite E.
    apply elem_of_dom. eauto. }
  unfold move_reference_to_origin.
  cbv [bind get modify ret raise report copy_data from_mesh to_mesh update_object].
  rewrite Hsel. destruct ref_name as [|c ref_name]; [contradiction|].
  rewrite Hobj, Hdata.
  cbn [meshes objects original_positions_store original_geometry_store
       with_positions with_geometry with_meshes with_active with_objects
       with_offset with_reports].
  rewrite Hverts.
  cbn [meshes objects original_positions_store original_geometry_store
       with_positions with_geometry with_meshes with_active with_objects
       with_offset with_reports].
  rewrite (lookup_insert_ne (meshes st)) by exact Hfresh. rewrite Hverts.
  cbn [meshes objects original_positions_store original_geometry_store
       with_positions with_geometry with_meshes with_active with_objects
       with_offset with_reports].
  rewrite (lookup_insert_ne (meshes st)) by exact Hfresh. rewrite Hverts.
  reflexivity.
Qed.

(** ... and only then. *)
Lemma move_finished_inv (st st' : State) :
  move_reference_to_origin st = (Returned FINISHED, st') ->
  exists ref_name ref_obj id verts,
    selected_reference_name st = Some ref_name /\ ref_name <> EmptyString /\
    objects st !! ref_name = Some ref_obj /\
    data ref_obj = Some (MeshRef id) /\
    meshes st !! id = Some verts /\
    st' = with_reports
            (reports st ++
             [moved_report ref_name (moved_state ref_name ref_obj id verts st)])
            (moved_state ref_name ref_obj id verts st).
Proof.
  intros H.
  destruct (selected_reference_name st) as [[|c r]|] eqn:Hsel;
    try (unfold move_reference_to_origin in H;
         cbv [bind get modify ret raise report] in H;
         rewrite Hsel in H; discriminate H).
  destruct (objects st !! String c r) as [ref_obj|] eqn:Hobj;
    [|unfold move_reference_to_origin in H;
      cbv [bind get modify ret raise report] in H;
      rewrite Hsel, Hobj in H; discriminate H].
  destruct (data ref_obj) as [[id|]|] eqn:Hdata;
    try (unfold move_reference_to_origin in H;
         cbv [bind get modify ret raise report copy_data from_mesh
              to_mesh update_object] in H;
         rewrite Hsel, Hobj, Hdata in H; discriminate H).
  destruct (meshes st !! id) as [verts|] eqn:Hverts.
  - rewrite (move_run st (String c r) ref_obj id verts Hsel ltac:(discriminate)
               Hobj Hdata Hverts) in H.
    injection H as <-. exists (String c r), ref_obj, id, verts.
    repeat split; try assumption. discriminate.
  - unfold move_reference_to_origin in H.
    cbv [bind get modify ret raise report copy_data from_mesh
         to_mesh update_object] in H.
    rewrite Hsel, Hobj, Hdata in H.
    cbn [meshes with_positions with_geometry] in H.
    rewrite Hverts in H. discriminate H.
Qed.

Lemma moved_objects_ref (ref_name : string) (offset : Vector)
    (os : gmap string Object) (o : Object) :
  os !! ref_name = Some o ->
  moved_objects ref_name offset os !! ref_name
  = Some (with_location vzero (with_select true (with_select false o))).
Proof.
  intros Ho. unfold moved_objects.
  rewrite map_lookup_imap, !lookup_alter_eq, lookup_fmap, Ho. cbn.
  rewrite String.eqb_refl, andb_false_r. reflexivity.
Qed.

Lemma moved_objects_other (ref_name : string) (offset : Vector)
    (os : gmap string Object) (n : string) (o : Object) :
  n <> ref_name -> os !! n = Some o ->
  moved_objects ref_name offset os !! n
  = Some (if scene_mesh o
          then with_location (vadd (location o) offset) (with_select false o)
          else with_select false o).
Proof.
  intros Hne Ho. unfold moved_objects.
  rewrite map_lookup_imap, !lookup_alter_ne by congruence.
  rewrite lookup_fmap, Ho. cbn.
  apply String.eqb_neq in Hne. rewrite Hne, andb_true_r. reflexivity.
Qed.

Lemma moved_objects_None (ref_name : string) (offset : Vector)
    (os : gmap string Object) (n : string) :
  os !! n = None -> moved_objects ref_name offset os !! n = None.
Proof.
  intros Ho. unfold moved_objects. rewrite map_lookup_imap.
  assert (alter (with_location vzero) ref_name
            (alter (with_select true) ref_name (with_select false <$> os)) !! n
          = None) as ->; [|reflexivity].
  rewrite !lookup_alter_None, lookup_fmap, Ho. reflexivity.
Qed.

(** The stored positions are the positions of the scene's mesh objects. *)
Lemma stored_position (st : State) (n : string) (o : Object) :
  objects st !! n = Some o -> scene_mesh o = true ->
  (n, location o) ∈ map (fun item => (item.1, location item.2)) (scene_meshes st).
Proof.
  intros Ho Hm.
  apply (list_elem_of_fmap_2' (fun item : string * Object => (item.1, location item.2))
           _ (n, o)); [|reflexivity].
  unfold scene_meshes. apply list_elem_of_filter. split; [exact Hm|].
  apply elem_of_map_to_list. exact Ho.
Qed.

Lemma stored_names_NoDup (st : State) :
  NoDup (map (fun item => (item.1, location item.2)) (scene_meshes st)).*1.
Proof.
  assert ((map (fun item : string * Object => (item.1, location item.2))
             (scene_meshes st)).*1 = (scene_meshes st).*1) as ->.
  { induction (scene_meshes st) as [|item items IH]; [reflexivity|].
    cbn. f_equal. exact IH. }
  apply (sublist_NoDup _ ((map_to_list (objects st)).*1)).
  - apply NoDup_fst_map_to_list.
  - apply fmap_sublist. unfold scene_meshes. apply sublist_filter.
Qed.

Lemma restore_positions_cons (n : string) (l : Vector) (ps : list (string * Vector))
    (os : gmap string Object) :
  restore_positions ((n, l) :: ps) os
  = restore_positions ps (alter (with_location l) n os).
Proof. reflexivity. Qed.

Lemma restore_positions_untouched (ps : list (string * Vector)) :
  forall (os : gmap string Object) (n : string),
  n ∉ ps.*1 -> restore_positions ps os !! n = os !! n.
Proof.
  induction ps as [|[n' l'] ps IH]; intros os n Hn; [reflexivity|].
  cbn in Hn. apply not_elem_of_cons in Hn as [Hne Hn].
  rewrite restore_positions_cons, IH by exact Hn.
  apply lookup_alter_ne. congruence.
Qed.

(** A stored position goes back to the object of that name. *)
Lemma restore_positions_stored (ps : list (string * Vector)) :
  forall (os : gmap string Object) (n : string) (l : Vector),
  NoDup ps.*1 -> (n, l) ∈ ps ->
  restore_positions ps os !! n = with_location l <$> os !! n.
Proof.
  induction ps as [|[n' l'] ps IH]; intros os n l Hnd Hin; [inversion Hin|].
  cbn in Hnd. apply NoDup_cons in Hnd as [Hn' Hnd].
  apply elem_of_cons in Hin as [Heq|Hin].
  - injection Heq as -> ->.
    rewrite restore_positions_cons, restore_positions_untouched by exact Hn'.
    apply lookup_alter_eq.
  - assert (n <> n') as Hne.
    { intros ->. apply Hn'. apply (list_elem_of_fmap_2 fst) in Hin. exact Hin. }
    rewrite restore_positions_cons, (IH _ n l Hnd Hin).
    rewrite lookup_alter_ne by congruence. reflexivity.
Qed.

(** Restoring positions touches nothing but locations. *)
Lemma restore_positions_fields (ps : list (string * Vector)) :
  forall (os : gmap string Object) (n : string) (o : Object),
  os !! n = Some o ->
  exists l, restore_positions ps os !! n = Some (with_location l o).
Proof.
  induction ps as [|[n' l'] ps IH]; intros os n o Ho.
  - exists (location o). cbn. rewrite Ho. destruct o; reflexivity.
  - rewrite restore_positions_cons.
    destruct (decide (n = n')) as [->|Hne].
    + destruct (IH (alter (with_location l') n' os) n' (with_location l' o))
        as [l Hl].
      { rewrite lookup_alter_eq, Ho. reflexivity. }
      exists l. exact Hl.
    + apply IH. rewrite lookup_alter_ne by congruence. exact Ho.
Qed.

(** Removing the mesh [id] keeps the objects that do not use it. *)
Lemma kept_by_remove (id : nat) (os : gmap string Object) (n : string) (o : Object) :
  os !! n = Some o -> uses_mesh id o = false ->
  filter (fun item : string * Object => uses_mesh id item.2 = false) os !! n = Some o.
Proof. intros Ho Hu. apply map_lookup_filter_Some_2; assumption. Qed.

(** ... and drops those that do. *)
Lemma dropped_by_remove (id : nat) (os : gmap string Object) (n : string) (o : Object) :
  os !! n = Some o -> uses_mesh id o = true ->
  filter (fun item : string * Object => uses_mesh id item.2 = false) os !! n = None.
Proof.
  intros Ho Hu. apply map_lookup_filter_None_2. right. intros o' Ho' Hu'.
  cbn in Hu'. rewrite Ho in Ho'. injection Ho' as <-. congruence.
Qed.

Lemma uses_mesh_false (id : nat) (o : Object) :
  data o <> Some (MeshRef id) -> uses_mesh id o = false.
Proof.
  unfold uses_mesh. destruct (data o) as [[k|]|]; try reflexivity.
  intros Hne. apply Nat.eqb_neq. congruence.
Qed.

Lemma uses_mesh_true (id : nat) (o : Object) :
  data o = Some (MeshRef id) -> uses_mesh id o = true.
Proof. unfold uses_mesh. intros ->. apply Nat.eqb_refl. Qed.

Lemma state_eta (st : State) : with_objects (objects st) st = st.
Proof. destruct st; reflexivity. Qed.

(** The loop of Restore Original Position over the stored positions. *)
Lemma restore_loop_run (ps : list (string * Vector)) : forall (st : State) (count : nat),
  exists count',
    for_fold ps count
      (fun restored_count item =>
         let '(name, orig_loc) := item in
         st <- get ;;
         match objects st !! name with
         | Some _ =>
             update_object name (with_location orig_loc) ;;
             ret (S restored_count)
         | None => ret restored_count
         end) st
    = (Returned count', with_objects (restore_positions ps (objects st)) st).
Proof.
  induction ps as [|[n l] ps IH]; intros st count.
  - exists count. cbn. rewrite state_eta. reflexivity.
  - cbn [for_fold].
    destruct (objects st !! n) as [o|] eqn:Ho.
    + destruct (IH (with_objects (alter (with_location l) n (objects st)) st) (S count))
        as [count' Hrun].
      exists count'. erewrite bind_run; cycle 1.
      { cbv [bind get update_object modify ret]. rewrite Ho. reflexivity. }
      rewrite Hrun, restore_positions_cons. reflexivity.
    + destruct (IH st count) as [count' Hrun].
      exists count'. erewrite bind_run; cycle 1.
      { cbv [bind get update_object modify ret]. rewrite Ho. reflexivity. }
      rewrite Hrun, restore_positions_cons.
      rewrite (alter_id' _ (objects st) n Ho). reflexivity.
Qed.

(** Restore Original Position on a store that holds positions and the copy
    of one reference mesh. *)
Lemma restore_run (st1 : State) (ref_name : string) (o : Object) (id id' : nat)
    (verts shifted : list Vector) :
  original_positions_store st1 <> [] ->
  original_geometry_store st1 = [(ref_name, MeshRef id')] ->
  objects st1 !! ref_name = Some o -> data o = Some (MeshRef id) ->
  meshes st1 !! id' = Some verts -> meshes st1 !! id = Some shifted ->
  exists count : nat,
    restore_original_position st1
    = (Returned FINISHED,
       mkState
         (filter (fun item => uses_mesh id item.2 = false)
            (alter (with_data (Some (MeshRef id'))) ref_name
               (restore_positions (original_positions_store st1) (objects st1))))
         (delete id (meshes st1)) (active st1) [] []
         (selected_reference_name st1) vzero
         (reports st1 ++
          [(INFO, "Restored " +:+ pretty count
                  +:+ " objects to original positions and geometry.")])).
Proof.
  intros Hps Hgeo Ho Hdata Hid' Hid.
  unfold restore_original_position.
  erewrite bind_run by reflexivity.
  destruct (restore_loop_run (original_positions_store st1) st1 0) as [count Hloop].
  exists count.
  destruct (original_positions_store st1) as [|p ps] eqn:Eps; [contradiction|].
  erewrite bind_run by exact Hloop.
  erewrite bind_run by reflexivity.
  cbn [original_geometry_store with_objects]. rewrite Hgeo. cbn [for_each].
  destruct (restore_positions_fields (p :: ps) (objects st1) ref_name o Ho) as [l Hl].
  erewrite bind_run; cycle 1.
  { cbv [bind get set_data object_of update_object meshes_remove modify ret raise].
    repeat (cbn [objects with_objects with_meshes meshes data with_location];
            first [rewrite Hl | rewrite Hdata | rewrite Hid' | rewrite Hid]).
    reflexivity. }
  cbv [bind get modify ret report]. reflexivity.
Qed.

(** What Restore Original Position leaves of the objects [os] when the
    stored positions are [ps] and the reference [ref_name], whose shifted
    mesh is [id], takes back the stored copy [id']. *)
Lemma restored_lookup (ps : list (string * Vector)) (os : gmap string Object)
    (ref_name : string) (id id' : nat) (m : string) (o1 : Object) (l : Vector) :
  NoDup ps.*1 -> (m, l) ∈ ps -> os !! m = Some o1 -> id' <> id ->
  m = ref_name \/ data o1 <> Some (MeshRef id) ->
  location <$>
    filter (fun item : string * Object => uses_mesh id item.2 = false)
      (alter (with_data (Some (MeshRef id'))) ref_name (restore_positions ps os)) !! m
  = Some l.
Proof.
  intros Hnd Hin Ho1 Hfresh Hkeep.
  destruct (decide (m = ref_name)) as [->|Hne].
  - rewrite (kept_by_remove id _ ref_name
               (with_data (Some (MeshRef id')) (with_location l o1)));
      [reflexivity| |].
    + rewrite lookup_alter_eq, (restore_positions_stored ps _ _ _ Hnd Hin), Ho1.
      reflexivity.
    + apply uses_mesh_false. cbn. congruence.
  - destruct Hkeep as [->|Hdata]; [contradiction|].
    rewrite (kept_by_remove id _ m (with_location l o1)); [reflexivity| |].
    + rewrite lookup_alter_ne by congruence.
      rewrite (restore_positions_stored ps _ _ _ Hnd Hin), Ho1. reflexivity.
    + apply uses_mesh_false. exact Hdata.
Qed.

(** ... and what it removes: the other objects that use the mesh [id]. *)
Lemma removed_lookup (ps : list (string * Vector)) (os : gmap string Object)
    (ref_name : string) (id id' : nat) (m : string) (o1 : Object) :
  os !! m = Some o1 -> m <> ref_name -> data o1 = Some (MeshRef id) ->
  filter (fun item : string * Object => uses_mesh id item.2 = false)
    (alter (with_data (Some (MeshRef id'))) ref_name (restore_positions ps os)) !! m
  = None.
Proof.
  intros Ho1 Hne Hdata.
  destruct (restore_positions_fields ps os m o1 Ho1) as [l Hl].
  eapply dropped_by_remove.
  - rewrite lookup_alter_ne by congruence. exact Hl.
  - apply uses_mesh_true. exact Hdata.
Qed.

End SessionFacts.

(* ------------------------------------------------------------------------- *)
(** ** Origin-shift sessions: the properties of the specification *)

Module OriginShift.
Import Geometry Py LodSession Session RunFacts SessionFacts HostFacts Examples.
#[local] Open Scope py_scope.

Lemma fold_left_vadd_sum (vs : list Vector) : forall acc,
  veq (fold_left vadd vs acc)
      (mkVector (vx acc + fold_right Qplus 0 (map vx vs))
                (vy acc + fold_right Qplus 0 (map vy vs))
                (vz acc + fold_right Qplus 0 (map vz vs))).
Proof.
  induction vs as [|v vs IH]; intros acc; cbn [fold_left map fold_right].
  - unfold veq; cbn. repeat split; ring.
  - eapply veq_trans; [apply IH|].
    unfold veq, vadd; cbn. repeat split; ring.
Qed.

(** The geometry centre of a mesh with vertices is the mean of its
    vertices. *)
Lemma geometry_center_mean (verts : list Vector) :
  verts <> [] -> veq (geometry_center_of verts) (mean verts).
Proof.
  intros Hne. destruct verts as [|v vs]; [contradiction|].
  unfold geometry_center_of, mean, vdiv.
  destruct (fold_left_vadd_sum (v :: vs) vzero) as (E1 & E2 & E3).
  unfold veq; cbn [vx vy vz] in *.
  rewrite E1, E2, E3. unfold vzero; cbn [vx vy vz].
  repeat split; apply Qdiv_comp; try reflexivity; ring.
Qed.

(** C10.  With no stored positions, Restore Original Position and Register
    New Meshes each show one warning and return [CANCELLED]; the store they
    leave differs from the one they found in the list of reports only, so
    objects, meshes, stored positions, stored geometry and the offset vector
    are as before. *)
Theorem no_session_cancelled (st : State) :
  original_positions_store st = [] ->
  restore_original_position st
    = (Returned CANCELLED,
       with_reports
         (reports st ++
          [(WARNING, "No stored positions found. Move reference to origin first.")])
         st) /\
  register_new_meshes st
    = (Returned CANCELLED,
       with_reports
         (reports st ++
          [(WARNING, "No active session. Move reference to origin first.")])
         st) /\
  forall st', st' = (restore_original_position st).2 \/
              st' = (register_new_meshes st).2 ->
    objects st' = objects st /\ meshes st' = meshes st /\
    original_positions_store st' = original_positions_store st /\
    original_geometry_store st' = original_geometry_store st /\
    scene_offset_vector st' = scene_offset_vector st.
Proof.
  intros Hps.
  assert (restore_original_position st
          = (Returned CANCELLED,
             with_reports
               (reports st ++
                [(WARNING, "No stored positions found. Move reference to origin first.")])
               st)) as Hrestore.
  { unfold restore_original_position. cbv [bind get modify ret report].
    rewrite Hps. reflexivity. }
  assert (register_new_meshes st
          = (Returned CANCELLED,
             with_reports
               (reports st ++
                [(WARNING, "No active session. Move reference to origin first.")])
               st)) as Hregister.
  { unfold register_new_meshes. cbv [bind get modify ret report].
    rewrite Hps. reflexivity. }
  split; [exact Hrestore|]. split; [exact Hregister|].
  rewrite Hrestore, Hregister. intros st' [-> | ->]; repeat split; reflexivity.
Qed.

Lemma no_session_cancelled_witness :
  restore_original_position two_meshes
    = (Returned CANCELLED,
       with_reports
         (reports two_meshes ++
          [(WARNING, "No stored positions found. Move reference to origin first.")])
         two_meshes) /\
  register_new_meshes two_meshes
    = (Returned CANCELLED,
       with_reports
         (reports two_meshes ++
          [(WARNING, "No active session. Move reference to origin first.")])
         two_meshes).
Proof.
  destruct (no_session_cancelled two_meshes) as (H1 & H2 & _).
  - reflexivity.
  - split; assumption.
Defined.

(** C9.  After Move Reference to Origin has finished, the reference object
    sits at [(0, 0, 0)]; every other mesh object of the scene has had one
    and the same offset added to its location; that offset is the negation
    of the reference object's world matrix applied to the centre of its
    geometry as it was before the move, which is the mean of its vertices
    when it has any; and the offset is what [scene_offset_vector] holds. *)
Theorem move_recentres_scene (st st' : State) :
  move_reference_to_origin st = (Returned FINISHED, st') ->
  exists ref_name ref_obj id verts,
    selected_reference_name st = Some ref_name /\
    objects st !! ref_name = Some ref_obj /\
    data ref_obj = Some (MeshRef id) /\
    meshes st !! id = Some verts /\
    let offset := vneg (mat_apply (matrix_world ref_obj) (geometry_center_of verts)) in
    location <$> objects st' !! ref_name = Some vzero /\
    (forall n o, n <> ref_name -> objects st !! n = Some o -> scene_mesh o = true ->
       location <$> objects st' !! n = Some (vadd (location o) offset)) /\
    scene_offset_vector st' = offset /\
    (verts <> [] -> veq (geometry_center_of verts) (mean verts)).
Proof.
  intros H.
  destruct (move_finished_inv st st' H)
    as (ref_name & ref_obj & id & verts & Hsel & _ & Hobj & Hdata & Hverts & ->).
  exists ref_name, ref_obj, id, verts.
  split; [exact Hsel|]. split; [exact Hobj|]. split; [exact Hdata|].
  split; [exact Hverts|]. cbn zeta.
  cbn [objects scene_offset_vector with_reports moved_state].
  split; [|split; [|split]].
  - rewrite (moved_objects_ref _ _ _ _ Hobj). reflexivity.
  - intros n o Hne Ho Hm.
    rewrite (moved_objects_other _ _ _ _ _ Hne Ho), Hm. reflexivity.
  - reflexivity.
  - apply geometry_center_mean.
Qed.

Lemma move_recentres_scene_witness :
  exists ref_name ref_obj id verts,
    selected_reference_name two_meshes = Some ref_name /\
    objects two_meshes !! ref_name = Some ref_obj /\
    data ref_obj = Some (MeshRef id) /\
    meshes two_meshes !! id = Some verts /\
    let offset := vneg (mat_apply (matrix_world ref_obj) (geometry_center_of verts)) in
    location <$> objects (move_reference_to_origin two_meshes).2 !! ref_name
      = Some vzero /\
    (forall n o, n <> ref_name -> objects two_meshes !! n = Some o ->
       scene_mesh o = true ->
       location <$> objects (move_reference_to_origin two_meshes).2 !! n
         = Some (vadd (location o) offset)) /\
    scene_offset_vector (move_reference_to_origin two_meshes).2 = offset /\
    (verts <> [] -> veq (geometry_center_of verts) (mean verts)).
Proof.
  apply (move_recentres_scene two_meshes (move_reference_to_origin two_meshes).2).
  vm_compute. reflexivity.
Defined.

(** C8.  Move Reference to Origin followed at once by Restore Original
    Position does not bring back every mesh object of the scene.  When a
    mesh object [m] other than the reference uses the mesh of the
    reference (a linked duplicate), the restore finishes and [m] is no
    longer an object of the host: Restore Original Position removes the
    shifted mesh of the reference with [bpy.data.meshes.remove], and the
    host removes the objects that still use it. *)
Theorem restore_deletes_mesh_sharers (st st1 : State) (m ref_name : string)
    (om ref_obj : Object) :
  move_reference_to_origin st = (Returned FINISHED, st1) ->
  selected_reference_name st = Some ref_name ->
  objects st !! ref_name = Some ref_obj ->
  objects st !! m = Some om -> scene_mesh om = true ->
  m <> ref_name -> data om = data ref_obj ->
  exists st2,
    restore_original_position st1 = (Returned FINISHED, st2) /\
    objects st2 !! m = None.
Proof.
  intros H Hsel0 Hobj0 Hom Hmm Hne Hsame.
  destruct (move_finished_inv st st1 H)
    as (ref_name' & ref_obj' & id & verts & Hsel & _ & Hobj & Hdata & Hverts & ->).
  assert (ref_name' = ref_name) as -> by congruence.
  assert (ref_obj' = ref_obj) as -> by congruence.
  set (id' := fresh (dom (meshes st))).
  assert (id' <> id) as Hfresh.
  { intros E. apply (is_fresh (dom (meshes st))). fold id'. rewrite E.
    apply elem_of_dom. eauto. }
  set (st1 := with_reports _ _).
  pose proof (stored_position st m om Hom Hmm) as Hstored.
  pose proof (moved_objects_ref ref_name (scene_offset ref_obj verts) (objects st)
                ref_obj Hobj) as Href.
  destruct (restore_run st1 ref_name
              (with_location vzero (with_select true (with_select false ref_obj)))
              id id' verts
              (map (fun co => vsub co (geometry_center_of verts)) verts))
    as [count Hrun].
  - intros E.
    change (original_positions_store st1)
      with (map (fun item : string * Object => (item.1, location item.2))
                (scene_meshes st)) in E.
    rewrite E in Hstored. inversion Hstored.
  - reflexivity.
  - exact Href.
  - exact Hdata.
  - cbn. rewrite lookup_insert_ne by congruence. apply lookup_insert_eq.
  - cbn. apply lookup_insert_eq.
  - eexists. split; [exact Hrun|].
    change (objects st1) with
      (moved_objects ref_name (scene_offset ref_obj verts) (objects st)).
    cbn [objects].
    eapply removed_lookup; [| exact Hne |].
    + apply moved_objects_other; eassumption.
    + rewrite Hmm. cbn. congruence.
Qed.

Lemma restore_deletes_mesh_sharers_witness :
  exists st2,
    restore_original_position (move_reference_to_origin linked_duplicates).2
      = (Returned FINISHED, st2) /\
    objects st2 !! "C" = None.
Proof.
  apply (restore_deletes_mesh_sharers linked_duplicates
           (move_reference_to_origin linked_duplicates).2
           "C" "A" (mesh_object 0 (mkVector 90 210 300))
           (mesh_object 0 (mkVector 100 200 300))).
  - vm_compute. reflexivity.
  - reflexivity.
  - vm_compute. reflexivity.
  - vm_compute. reflexivity.
  - reflexivity.
  - discriminate.
  - reflexivity.
Defined.

End OriginShift.

(* ------------------------------------------------------------------------- *)
(** ** Register New Meshes *)

Module RegisterFacts.
Import Geometry Py LodSession LodOperators Session SessionSteps RunFacts SessionFacts.
#[local] Open Scope py_scope.

(** The loop of Register New Meshes. *)
Lemma register_loop_run (items : list (string * Object)) :
  forall (st : State) (count : nat),
  for_fold items count
    (fun new_count item =>
       st <- get ;;
       let original_location :=
         vsub (location item.2) (scene_offset_vector st) in
       modify (with_positions
                 (original_positions_store st ++ [(item.1, original_location)])) ;;
       report INFO ("Registered new mesh " +:+ item.1 +:+ " for restore.") ;;
       ret (S new_count)) st
  = (Returned (count + length items)%nat,
     mkState (objects st) (meshes st) (active st)
       (original_positions_store st ++
        map (fun item => (item.1, vsub (location item.2) (scene_offset_vector st)))
            items)
       (original_geometry_store st) (selected_reference_name st)
       (scene_offset_vector st)
       (reports st ++
        map (fun item => (INFO, "Registered new mesh " +:+ item.1 +:+ " for restore."))
            items)).
Proof.
  induction items as [|item items IH]; intros st count.
  - cbn. rewrite Nat.add_0_r, !app_nil_r. destruct st; reflexivity.
  - cbn [for_fold]. erewrite bind_run by reflexivity.
    rewrite IH. cbn [map length objects meshes active original_positions_store
                     original_geometry_store selected_reference_name
                     scene_offset_vector reports with_positions with_reports].
    rewrite <- !app_assoc, Nat.add_succ_r. reflexivity.
Qed.

(** Register New Meshes with stored positions. *)
Lemma register_run (st : State) :
  original_positions_store st <> [] ->
  register_new_meshes st = (Returned FINISHED, registered_state st).
Proof.
  intros Hps. unfold register_new_meshes.
  erewrite bind_run by reflexivity. cbv beta.
  fold (new_meshes st). unfold registered_state.
  destruct (original_positions_store st) as [|p ps] eqn:Eps; [contradiction|].
  rewrite <- Eps. clear Eps Hps p ps.
  destruct (new_meshes st) as [|item items].
  - cbv [bind report modify ret]. cbn. rewrite app_nil_r.
    destruct st; reflexivity.
  - erewrite bind_run by apply register_loop_run.
    cbv [bind report modify ret]. cbn. rewrite <- app_assoc. reflexivity.
Qed.

Lemma scene_meshes_elem (st : State) (n : string) (o : Object) :
  ((n, o) ∈ scene_meshes st) <-> objects st !! n = Some o /\ scene_mesh o = true.
Proof.
  unfold scene_meshes. rewrite list_elem_of_filter, elem_of_map_to_list. cbn. tauto.
Qed.

Lemma new_meshes_elem (st : State) (n : string) (o : Object) :
  ((n, o) ∈ new_meshes st) <->
  (n ∉ (original_positions_store st).*1) /\
  objects st !! n = Some o /\ scene_mesh o = true.
Proof.
  unfold new_meshes. rewrite list_elem_of_filter, scene_meshes_elem. cbn. tauto.
Qed.

Lemma new_meshes_NoDup (st : State) : NoDup (new_meshes st).*1.
Proof.
  apply (sublist_NoDup _ ((map_to_list (objects st)).*1)).
  - apply NoDup_fst_map_to_list.
  - apply fmap_sublist. unfold new_meshes, scene_meshes.
    etransitivity; apply sublist_filter.
Qed.

Lemma registered_names (st : State) :
  (map (fun item : string * Object =>
          (item.1, vsub (location item.2) (scene_offset_vector st)))
       (new_meshes st)).*1 = (new_meshes st).*1.
Proof.
  induction (new_meshes st) as [|item items IH]; [reflexivity|].
  cbn. f_equal. exact IH.
Qed.

(** The names stored after Register New Meshes are distinct if they were. *)
Lemma registered_NoDup (st : State) :
  NoDup (original_positions_store st).*1 ->
  NoDup (original_positions_store (registered_state st)).*1.
Proof.
  intros Hnd. cbn [original_positions_store registered_state].
  rewrite fmap_app, registered_names. apply NoDup_app.
  split; [exact Hnd|]. split; [|apply new_meshes_NoDup].
  intros n Hin Hnew. apply list_elem_of_fmap in Hnew as ([n' o] & -> & Hno).
  apply new_meshes_elem in Hno as (Hn & _). exact (Hn Hin).
Qed.

(** After Register New Meshes no scene mesh is new. *)
Lemma registered_none_new (st : State) : new_meshes (registered_state st) = [].
Proof.
  destruct (new_meshes (registered_state st)) as [|[n o] items] eqn:E; [reflexivity|].
  exfalso.
  assert ((n, o) ∈ new_meshes (registered_state st)) as Hin by (rewrite E; left).
  apply new_meshes_elem in Hin as (Hn & Ho & Hm).
  cbn [objects original_positions_store registered_state] in Hn, Ho.
  rewrite fmap_app, registered_names in Hn.
  apply not_elem_of_app in Hn as [Hold Hnew].
  apply Hnew. apply (list_elem_of_fmap_2' fst _ (n, o)); [|reflexivity].
  apply new_meshes_elem. auto.
Qed.

End RegisterFacts.

(* ------------------------------------------------------------------------- *)
(** ** Origin-shift sessions: further properties of the operators *)

Module SessionProperties.
Import Geometry Py LodSession LodOperators Session SessionSteps RunFacts
       SessionFacts RegisterFacts HostFacts Examples.
#[local] Open Scope py_scope.

(** X1.  With stored positions, Register New Meshes finishes; it stores
    every mesh object of the scene whose name is not stored yet, once, with
    its location minus the offset vector, after the entries that were there;
    it stores nothing else, keeps the stored names distinct, and leaves the
    objects, the meshes, the stored geometry and the offset vector alone. *)
Theorem register_stores_new_meshes (st : State) :
  original_positions_store st <> [] ->
  exists st' added,
    register_new_meshes st = (Returned FINISHED, st') /\
    original_positions_store st' = original_positions_store st ++ added /\
    (forall n l, ((n, l) ∈ added) <->
       (n ∉ (original_positions_store st).*1) /\
       exists o, objects st !! n = Some o /\ scene_mesh o = true /\
                 l = vsub (location o) (scene_offset_vector st)) /\
    NoDup added.*1 /\
    (NoDup (original_positions_store st).*1 ->
     NoDup (original_positions_store st').*1) /\
    objects st' = objects st /\ meshes st' = meshes st /\
    original_geometry_store st' = original_geometry_store st /\
    scene_offset_vector st' = scene_offset_vector st.
Proof.
  intros Hps. eexists _, _. split; [apply register_run; exact Hps|].
  split; [reflexivity|]. split; [|split; [|split; [|repeat split]]].
  - intros n l. split.
    + intros Hin. apply list_elem_of_fmap_1 in Hin as ([n' o] & Heq & Hin).
      cbn in Heq. injection Heq as -> ->.
      apply new_meshes_elem in Hin as (Hn & Ho & Hm). eauto.
    + intros (Hn & o & Ho & Hm & ->).
      apply (list_elem_of_fmap_2' _ _ (n, o)); [|reflexivity].
      apply new_meshes_elem. auto.
  - rewrite registered_names. apply new_meshes_NoDup.
  - apply registered_NoDup.
Qed.

Lemma moved_two_meshes_active :
  original_positions_store (move_reference_to_origin two_meshes).2 <> [].
Proof. vm_compute. discriminate. Qed.

Lemma register_stores_new_meshes_witness :
  exists st' added,
    register_new_meshes
      (add_object "New" (mesh_object 0 (mkVector 5 6 7))
         (move_reference_to_origin two_meshes).2) = (Returned FINISHED, st') /\
    original_positions_store st'
      = original_positions_store
          (add_object "New" (mesh_object 0 (mkVector 5 6 7))
             (move_reference_to_origin two_meshes).2) ++ added /\
    NoDup added.*1.
Proof.
  destruct (register_stores_new_meshes
              (add_object "New" (mesh_object 0 (mkVector 5 6 7))
                 (move_reference_to_origin two_meshes).2))
    as (st' & added & Hrun & Hstore & _ & Hnd & _).
  - vm_compute. discriminate.
  - exists st', added. split; [exact Hrun|]. split; [exact Hstore | exact Hnd].
Defined.

(** X2.  Register New Meshes a second time, right after the first, finds
    nothing new: it reports so, finishes and leaves the stored positions as
    the first call left them. *)
Theorem register_twice (st : State) :
  original_positions_store st <> [] ->
  exists st1,
    register_new_meshes st = (Returned FINISHED, st1) /\
    register_new_meshes st1
    = (Returned FINISHED,
       with_reports (reports st1 ++ [(INFO, "No new mesh objects found.")]) st1).
Proof.
  intros Hps. exists (registered_state st).
  split; [apply register_run; exact Hps|].
  rewrite register_run.
  - unfold registered_state at 1. rewrite registered_none_new.
    cbn [map]. rewrite app_nil_r. reflexivity.
  - cbn. intros E. apply app_eq_nil in E as [E _]. contradiction.
Qed.

Lemma register_twice_witness :
  exists st1,
    register_new_meshes (move_reference_to_origin two_meshes).2
      = (Returned FINISHED, st1) /\
    register_new_meshes st1
    = (Returned FINISHED,
       with_reports (reports st1 ++ [(INFO, "No new mesh objects found.")]) st1).
Proof.
  apply (register_twice (move_reference_to_origin two_meshes).2).
  exact moved_two_meshes_active.
Defined.

Lemma restore_cancelled_run (st : State) :
  original_positions_store st = [] ->
  restore_original_position st
  = (Returned CANCELLED,
     with_reports
       (reports st ++
        [(WARNING, "No stored positions found. Move reference to origin first.")])
       st).
Proof.
  intros Hps. unfold restore_original_position. cbv [bind get modify ret report].
  rewrite Hps. reflexivity.
Qed.

Lemma register_cancelled_run (st : State) :
  original_positions_store st = [] ->
  register_new_meshes st
  = (Returned CANCELLED,
     with_reports
       (reports st ++
        [(WARNING, "No active session. Move reference to origin first.")])
       st).
Proof.
  intros Hps. unfold register_new_meshes. cbv [bind get modify ret report].
  rewrite Hps. reflexivity.
Qed.

(** A finished Restore Original Position has cleared the session. *)
Lemma restore_finished_cleared (st st' : State) :
  restore_original_position st = (Returned FINISHED, st') ->
  original_positions_store st' = [] /\
  original_geometry_store st' = [] /\
  scene_offset_vector st' = vzero.
Proof.
  intros H. unfold restore_original_position in H.
  erewrite bind_run in H by reflexivity.
  destruct (restore_loop_run (original_positions_store st) st 0) as [count Hloop].
  destruct (original_positions_store st) as [|p ps].
  { cbv [bind get modify ret report] in H. discriminate H. }
  erewrite bind_run in H by exact Hloop.
  erewrite bind_run in H by reflexivity.
  unfold bind at 1 in H.
  match type of H with
  | context [for_each ?l ?b ?s] => destruct (for_each l b s) as [[[]|e] s']
  end; [|discriminate H].
  cbv [bind get modify ret report] in H. injection H as <-.
  repeat split.
Qed.

(** X4.  A finished Restore Original Position closes the session: the
    stored positions, the stored geometry and the offset vector are
    cleared, and a Restore Original Position or a Register New Meshes that
    follows at once is cancelled with a warning and changes nothing else. *)
Theorem restore_closes_session (st st' : State) :
  restore_original_position st = (Returned FINISHED, st') ->
  (original_positions_store st' = [] /\
   original_geometry_store st' = [] /\
   scene_offset_vector st' = vzero) /\
  restore_original_position st'
    = (Returned CANCELLED,
       with_reports
         (reports st' ++
          [(WARNING, "No stored positions found. Move reference to origin first.")])
         st') /\
  register_new_meshes st'
    = (Returned CANCELLED,
       with_reports
         (reports st' ++
          [(WARNING, "No active session. Move reference to origin first.")])
         st').
Proof.
  intros H. pose proof (restore_finished_cleared st st' H) as Hc.
  split; [exact Hc|]. destruct Hc as (Hps & _).
  split; [apply restore_cancelled_run | apply register_cancelled_run]; exact Hps.
Qed.

Lemma restore_closes_session_witness :
  original_positions_store
    (restore_original_position (move_reference_to_origin two_meshes).2).2 = [] /\
  (restore_original_position
     (restore_original_position (move_reference_to_origin two_meshes).2).2).1
    = Returned CANCELLED.
Proof.
  destruct (restore_closes_session (move_reference_to_origin two_meshes).2
              (restore_original_position (move_reference_to_origin two_meshes).2).2)
    as ((H1 & _) & H2 & _).
  - vm_compute. reflexivity.
  - split; [exact H1|]. rewrite H2. reflexivity.
Defined.

(** X3.  A whole session with a new mesh.  Move Reference to Origin
    finishes on the reference [ref_name] with positions stored; a mesh
    object [n] that the host did not have before, and that does not use the
    mesh of the reference, appears in the scene at [location o]; Register
    New Meshes and then Restore Original Position run.  Both finish; [n]
    ends at [location o] minus the offset vector of the move; the reference,
    and every mesh object of the scene at the move that does not use the
    mesh of the reference, is back at the location it had; and every other
    object that uses the mesh of the reference is gone with that mesh. *)
Theorem session_with_new_mesh (st st1 : State) (n ref_name : string)
    (o ref_obj : Object) :
  move_reference_to_origin st = (Returned FINISHED, st1) ->
  original_positions_store st1 <> [] ->
  selected_reference_name st = Some ref_name ->
  objects st !! ref_name = Some ref_obj ->
  objects st !! n = None -> scene_mesh o = true ->
  data o <> data ref_obj ->
  exists st2 st3,
    register_new_meshes (add_object n o st1) = (Returned FINISHED, st2) /\
    restore_original_position st2 = (Returned FINISHED, st3) /\
    location <$> objects st3 !! n
      = Some (vsub (location o) (scene_offset_vector st1)) /\
    (forall m om, objects st !! m = Some om -> scene_mesh om = true ->
       m = ref_name \/ data om <> data ref_obj ->
       location <$> objects st3 !! m = Some (location om)) /\
    (forall m om, objects st !! m = Some om -> m <> ref_name ->
       data om = data ref_obj -> objects st3 !! m = None).
Proof.
  intros H Hactive Hsel0 Hobj0 Hn Hm Hshare.
  destruct (move_finished_inv st st1 H)
    as (ref_name' & ref_obj' & id & verts & Hsel & _ & Hobj & Hdata & Hverts & ->).
  assert (ref_name' = ref_name) as -> by congruence.
  assert (ref_obj' = ref_obj) as -> by congruence.
  set (id' := fresh (dom (meshes st))).
  assert (id' <> id) as Hfresh.
  { intros E. apply (is_fresh (dom (meshes st))). fold id'. rewrite E.
    apply elem_of_dom. eauto. }
  set (st1 := with_reports _ _) in *.
  set (objs1 := moved_objects ref_name (scene_offset ref_obj verts) (objects st)).
  assert (n <> ref_name) as Hnref by congruence.
  pose proof (moved_objects_ref ref_name (scene_offset ref_obj verts) (objects st)
                ref_obj Hobj) as Href. fold objs1 in Href.
  set (st1' := add_object n o st1).
  assert (original_positions_store st1' <> []) as Hactive' by exact Hactive.
  exists (registered_state st1').
  assert (NoDup (original_positions_store (registered_state st1')).*1) as Hnd.
  { apply registered_NoDup. apply (stored_names_NoDup st). }
  assert (objects st1' = <[n := o]> objs1) as Hobjs by reflexivity.
  assert ((n, vsub (location o) (scene_offset_vector st1))
            ∈ original_positions_store (registered_state st1')) as Hnew.
  { cbn [original_positions_store registered_state]. apply elem_of_app. right.
    apply (list_elem_of_fmap_2' _ _ (n, o)); [|reflexivity].
    apply new_meshes_elem. split; [|split; [|exact Hm]].
    - intros Hin. apply list_elem_of_fmap_1 in Hin as ([n' l] & Hn' & Hin).
      cbn in Hn'. subst n'.
      apply list_elem_of_fmap_1 in Hin as ([n'' o''] & Heq & Hin).
      cbn in Heq. injection Heq as Hn'' _. subst n''.
      apply scene_meshes_elem in Hin as [Hin _]. congruence.
    - rewrite Hobjs. apply lookup_insert_eq. }
  destruct (restore_run (registered_state st1') ref_name
              (with_location vzero (with_select true (with_select false ref_obj)))
              id id' verts
              (map (fun co => vsub co (geometry_center_of verts)) verts))
    as [count Hrun].
  - intros E. rewrite E in Hnew. inversion Hnew.
  - reflexivity.
  - cbn [objects registered_state]. rewrite Hobjs.
    rewrite lookup_insert_ne by congruence. exact Href.
  - exact Hdata.
  - cbn. rewrite lookup_insert_ne by congruence. apply lookup_insert_eq.
  - cbn. apply lookup_insert_eq.
  - eexists. split; [apply register_run; exact Hactive'|].
    split; [exact Hrun|].
    cbn [objects]. change (objects (registered_state st1')) with (<[n := o]> objs1).
    split; [|split].
    + apply (restored_lookup _ _ ref_name id id' n o _ Hnd Hnew);
        [apply lookup_insert_eq | exact Hfresh | right; congruence].
    + intros m om Hom Hmm Hkeep.
      assert (m <> n) as Hmn by congruence.
      assert ((m, location om) ∈ original_positions_store (registered_state st1'))
        as Hold.
      { cbn [original_positions_store registered_state]. apply elem_of_app. left.
        apply (stored_position st m om Hom Hmm). }
      destruct (decide (m = ref_name)) as [->|Hne].
      * eapply (restored_lookup _ _ ref_name id id' ref_name _ _ Hnd Hold);
          [rewrite lookup_insert_ne by congruence; exact Href | exact Hfresh
          | left; reflexivity].
      * destruct Hkeep as [->|Hkeep]; [contradiction|].
        eapply (restored_lookup _ _ ref_name id id' m _ _ Hnd Hold);
          [rewrite lookup_insert_ne by congruence;
           apply moved_objects_other; eassumption
          | exact Hfresh | right].
        rewrite Hmm. cbn. congruence.
    + intros m om Hom Hne Hsame.
      assert (m <> n) as Hmn by congruence.
      eapply removed_lookup; [| exact Hne |].
      * rewrite lookup_insert_ne by congruence.
        apply moved_objects_other; eassumption.
      * destruct (scene_mesh om); cbn; congruence.
Qed.

Lemma session_with_new_mesh_witness :
  exists st2 st3,
    register_new_meshes
      (add_object "New" (mesh_object 0 (mkVector 5 6 7))
         (move_reference_to_origin two_meshes).2) = (Returned FINISHED, st2) /\
    restore_original_position st2 = (Returned FINISHED, st3) /\
    location <$> objects st3 !! "New"
      = Some (vsub (location (mesh_object 0 (mkVector 5 6 7)))
                (scene_offset_vector (move_reference_to_origin two_meshes).2)) /\
    (forall m om, objects two_meshes !! m = Some om -> scene_mesh om = true ->
       m = "B" \/ data om <> data (mesh_object 1 (mkVector 110 200 300)) ->
       location <$> objects st3 !! m = Some (location om)) /\
    (forall m om, objects two_meshes !! m = Some om -> m <> "B" ->
       data om = data (mesh_object 1 (mkVector 110 200 300)) ->
       objects st3 !! m = None).
Proof.
  apply (session_with_new_mesh two_meshes (move_reference_to_origin two_meshes).2
           "New" "B" (mesh_object 0 (mkVector 5 6 7))
           (mesh_object 1 (mkVector 110 200 300))).
  - vm_compute. reflexivity.
  - exact moved_two_meshes_active.
  - reflexivity.
  - vm_compute. reflexivity.
  - vm_compute. reflexivity.
  - reflexivity.
  - discriminate.
Defined.

(** X18.  Move Reference to Origin on the reference [ref_name] followed at
    once by Restore Original Position, for a mesh object [n] of the scene
    at the move that is the reference or does not use the mesh of the
    reference: the restore finishes and [n] is back at the location it had
    before the move; the reference again has a mesh with the vertices it
    had before the move, the stored copy; every other object that uses the
    mesh of the reference is gone with that mesh; and the stored positions,
    the stored geometry and the offset vector are cleared. *)
Theorem move_then_restore_unshared (st st1 : State) (n ref_name : string)
    (o ref_obj : Object) :
  move_reference_to_origin st = (Returned FINISHED, st1) ->
  selected_reference_name st = Some ref_name ->
  objects st !! ref_name = Some ref_obj ->
  objects st !! n = Some o -> scene_mesh o = true ->
  n = ref_name \/ data o <> data ref_obj ->
  exists st2,
    restore_original_position st1 = (Returned FINISHED, st2) /\
    location <$> objects st2 !! n = Some (location o) /\
    (forall m om, objects st !! m = Some om -> m <> ref_name ->
       data om = data ref_obj -> objects st2 !! m = None) /\
    (exists id verts restored id',
       data ref_obj = Some (MeshRef id) /\
       meshes st !! id = Some verts /\
       objects st2 !! ref_name = Some restored /\
       data restored = Some (MeshRef id') /\
       original_geometry_store st1 = [(ref_name, MeshRef id')] /\
       meshes st2 !! id' = Some verts) /\
    original_positions_store st2 = [] /\
    original_geometry_store st2 = [] /\
    scene_offset_vector st2 = vzero.
Proof.
  intros H Hsel0 Hobj0 Ho Hm Hkeep.
  destruct (move_finished_inv st st1 H)
    as (ref_name' & ref_obj' & id & verts & Hsel & _ & Hobj & Hdata & Hverts & ->).
  assert (ref_name' = ref_name) as -> by congruence.
  assert (ref_obj' = ref_obj) as -> by congruence.
  set (id' := fresh (dom (meshes st))).
  assert (id' <> id) as Hfresh.
  { intros E. apply (is_fresh (dom (meshes st))). fold id'. rewrite E.
    apply elem_of_dom. eauto. }
  set (st1 := with_reports _ _).
  pose proof (stored_position st n o Ho Hm) as Hstored.
  pose proof (stored_names_NoDup st) as Hnd.
  set (ps := map (fun item : string * Object => (item.1, location item.2))
                 (scene_meshes st)) in *.
  pose proof (moved_objects_ref ref_name (scene_offset ref_obj verts) (objects st)
                ref_obj Hobj) as Href.
  destruct (restore_run st1 ref_name
              (with_location vzero (with_select true (with_select false ref_obj)))
              id id' verts
              (map (fun co => vsub co (geometry_center_of verts)) verts))
    as [count Hrun].
  - change (original_positions_store st1) with ps.
    intros E. rewrite E in Hstored. inversion Hstored.
  - reflexivity.
  - exact Href.
  - exact Hdata.
  - cbn. rewrite lookup_insert_ne by congruence. apply lookup_insert_eq.
  - cbn. apply lookup_insert_eq.
  - eexists. split; [exact Hrun|].
    change (original_positions_store st1) with ps.
    change (objects st1) with
      (moved_objects ref_name (scene_offset ref_obj verts) (objects st)).
    cbn [objects original_positions_store original_geometry_store
         scene_offset_vector meshes].
    split; [|split; [|split; [|repeat split]]].
    + destruct (decide (n = ref_name)) as [->|Hne].
      * eapply (restored_lookup ps _ ref_name id id' ref_name _ _ Hnd Hstored);
          [exact Href | exact Hfresh | left; reflexivity].
      * destruct Hkeep as [->|Hkeep]; [contradiction|].
        eapply (restored_lookup ps _ ref_name id id' n _ _ Hnd Hstored);
          [apply moved_objects_other; eassumption | exact Hfresh | right].
        rewrite Hm. cbn. congruence.
    + intros m om Hom Hne Hsame.
      eapply removed_lookup; [| exact Hne |].
      * apply moved_objects_other; eassumption.
      * destruct (scene_mesh om); cbn; congruence.
    + destruct (restore_positions_fields ps _ ref_name _ Href) as [l Hl].
      exists id, verts. eexists _, id'.
      split; [exact Hdata|]. split; [exact Hverts|].
      split.
      { apply kept_by_remove.
        - rewrite lookup_alter_eq, Hl. reflexivity.
        - apply uses_mesh_false. cbn. congruence. }
      split; [reflexivity|]. split; [reflexivity|].
      change (meshes st1) with
        (<[id := map (fun co => vsub co (geometry_center_of verts)) verts]>
           (<[id' := verts]> (meshes st))).
      rewrite lookup_delete_ne by congruence.
      rewrite lookup_insert_ne by congruence. apply lookup_insert_eq.
Qed.

Lemma move_then_restore_unshared_witness :
  exists st2,
    restore_original_position (move_reference_to_origin linked_duplicates).2
      = (Returned FINISHED, st2) /\
    location <$> objects st2 !! "B"
      = Some (location (mesh_object 1 (mkVector 110 200 300))) /\
    (forall m om, objects linked_duplicates !! m = Some om -> m <> "A" ->
       data om = data (mesh_object 0 (mkVector 100 200 300)) ->
       objects st2 !! m = None) /\
    (exists id verts restored id',
       data (mesh_object 0 (mkVector 100 200 300)) = Some (MeshRef id) /\
       meshes linked_duplicates !! id = Some verts /\
       objects st2 !! "A" = Some restored /\
       data restored = Some (MeshRef id') /\
       original_geometry_store (move_reference_to_origin linked_duplicates).2
         = [("A", MeshRef id')] /\
       meshes st2 !! id' = Some verts) /\
    original_positions_store st2 = [] /\
    original_geometry_store st2 = [] /\
    scene_offset_vector st2 = vzero.
Proof.
  apply (move_then_restore_unshared linked_duplicates
           (move_reference_to_origin linked_duplicates).2
           "B" "A" (mesh_object 1 (mkVector 110 200 300))
           (mesh_object 0 (mkVector 100 200 300))).
  - vm_compute. reflexivity.
  - reflexivity.
  - vm_compute. reflexivity.
  - vm_compute. reflexivity.
  - reflexivity.
  - right. discriminate.
Defined.

(** X5.  Without a usable reference Move Reference to Origin is cancelled
    with a warning and changes nothing else, the stored session data
    included: when no name is selected (or the empty name), and when the
    host has no object of the selected name. *)
Theorem move_without_reference (st : State) :
  (selected_reference_name st = None \/
   selected_reference_name st = Some EmptyString ->
   move_reference_to_origin st
   = (Returned CANCELLED,
      with_reports
        (reports st ++
         [(WARNING, "No reference object selected. Run 'Select Random Model' first.")])
        st)) /\
  (forall n, selected_reference_name st = Some n -> n <> EmptyString ->
     objects st !! n = None ->
     move_reference_to_origin st
     = (Returned CANCELLED,
        with_reports
          (reports st ++
           [(WARNING, "Reference object '" +:+ n +:+ "' not found.")])
          st)).
Proof.
  split.
  - intros [Hsel|Hsel]; unfold move_reference_to_origin;
      cbv [bind get modify ret report]; rewrite Hsel; reflexivity.
  - intros n Hsel Hne Hobj. unfold move_reference_to_origin.
    cbv [bind get modify ret report]. rewrite Hsel.
    destruct n as [|c n]; [contradiction|]. rewrite Hobj. reflexivity.
Qed.

Lemma move_without_reference_witness :
  (move_reference_to_origin (with_selected_reference None two_meshes)).1
    = Returned CANCELLED /\
  (move_reference_to_origin (with_selected_reference (Some "Gone") two_meshes)).1
    = Returned CANCELLED.
Proof.
  split.
  - rewrite (proj1 (move_without_reference (with_selected_reference None two_meshes)));
      [reflexivity | left; reflexivity].
  - rewrite (proj2 (move_without_reference
                      (with_selected_reference (Some "Gone") two_meshes)) "Gone");
      [reflexivity | reflexivity | discriminate | vm_compute; reflexivity].
Defined.



Lemma random_choice_elem {A} (draw : nat) (first : A) (rest : list A) :
  random_choice draw first rest ∈ first :: rest.
Proof.
  unfold random_choice.
  destruct ((first :: rest) !! (draw mod length (first :: rest))%nat) as [x|] eqn:E.
  - cbn [default]. eapply list_elem_of_lookup_2. exact E.
  - cbn [default]. left.
Qed.

(** Select Random Model on a scene with a mesh object, when the host
    runs both selection calls. *)
Lemma select_run (draw : nat) (host : HostAnswers) (st : State)
    (first : string * Object) (rest : list (string * Object)) :
  scene_meshes st = first :: rest ->
  select_all_runs host = true -> select_set_runs host = true ->
  select_random_model draw host st
  = (Returned FINISHED,
     mkState
       (alter (with_select true) (random_choice draw first rest).1
          (with_select false <$> objects st))
       (meshes st) (Some (random_choice draw first rest).1)
       (original_positions_store st) (original_geometry_store st)
       (Some (random_choice draw first rest).1) (scene_offset_vector st)
       (reports st ++
        [(INFO, "Selected random model: " +:+ (random_choice draw first rest).1)])).
Proof.
  intros E Hall Hset. unfold select_random_model, select_all_deselect, select_set_true.
  rewrite Hall, Hset.
  cbv [bind get modify ret report update_object]. rewrite E. reflexivity.
Qed.

(** X7.  Select Random Model.  In a scene without mesh objects it is
    cancelled with a warning and changes nothing else.  Otherwise, when the
    host runs both selection calls, it finishes, whatever the generator
    draws: the selected reference name is the name of a mesh object of the
    scene, that object is the active one and the only selected one, and no
    location, mesh or stored session data changes.  When the host refuses
    [select_all] the operator raises RuntimeError and the store is as it
    was; when it refuses [select_set] the operator raises RuntimeError with
    every object deselected and nothing else changed: in both cases the
    selected reference name and the active object are not written. *)
Theorem select_picks_scene_mesh (draw : nat) (host : HostAnswers) (st : State) :
  (scene_meshes st = [] ->
   select_random_model draw host st
   = (Returned CANCELLED,
      with_reports (reports st ++ [(WARNING, "No mesh objects in scene.")]) st)) /\
  (scene_meshes st <> [] ->
   select_all_runs host = true -> select_set_runs host = true ->
   exists n o st',
     select_random_model draw host st = (Returned FINISHED, st') /\
     objects st !! n = Some o /\ scene_mesh o = true /\
     selected_reference_name st' = Some n /\ active st' = Some n /\
     (forall m, objects st' !! m
                = with_select (bool_decide (m = n)) <$> objects st !! m) /\
     meshes st' = meshes st /\
     original_positions_store st' = original_positions_store st /\
     original_geometry_store st' = original_geometry_store st /\
     scene_offset_vector st' = scene_offset_vector st) /\
  (scene_meshes st <> [] -> select_all_runs host = false ->
   select_random_model draw host st = (Raised RuntimeError, st)) /\
  (scene_meshes st <> [] ->
   select_all_runs host = true -> select_set_runs host = false ->
   select_random_model draw host st
   = (Raised RuntimeError, with_objects (with_select false <$> objects st) st)).
Proof.
  split; [|split; [|split]].
  - intros E. unfold select_random_model. cbv [bind get modify ret report].
    rewrite E. reflexivity.
  - intros Hne Hall Hset.
    destruct (scene_meshes st) as [|first rest] eqn:E; [contradiction|].
    pose proof (random_choice_elem draw first rest) as Hin.
    rewrite <- E in Hin. destruct (random_choice draw first rest) as [n o] eqn:Ec.
    apply scene_meshes_elem in Hin as [Ho Hm].
    exists n, o. eexists.
    split; [apply (select_run draw host st first rest E Hall Hset)|].
    rewrite Ec. cbn [fst snd objects meshes active original_positions_store
                     original_geometry_store selected_reference_name
                     scene_offset_vector].
    repeat split; try assumption.
    intros m. destruct (decide (m = n)) as [->|Hmn].
    + rewrite lookup_alter_eq, lookup_fmap, bool_decide_eq_true_2 by reflexivity.
      destruct (objects st !! n); reflexivity.
    + rewrite lookup_alter_ne by congruence.
      rewrite lookup_fmap, bool_decide_eq_false_2 by exact Hmn. reflexivity.
  - intros Hne Hall.
    destruct (scene_meshes st) as [|first rest] eqn:E; [contradiction|].
    unfold select_random_model, select_all_deselect. rewrite Hall.
    cbv [bind get modify ret raise report]. rewrite E. reflexivity.
  - intros Hne Hall Hset.
    destruct (scene_meshes st) as [|first rest] eqn:E; [contradiction|].
    unfold select_random_model, select_all_deselect, select_set_true.
    rewrite Hall, Hset.
    cbv [bind get modify ret raise report]. rewrite E. reflexivity.
Qed.

Lemma select_picks_scene_mesh_witness :
  (exists n o st',
     select_random_model 7 (mkHostAnswers true true) two_meshes
       = (Returned FINISHED, st') /\
     objects two_meshes !! n = Some o /\ scene_mesh o = true /\
     selected_reference_name st' = Some n /\ active st' = Some n) /\
  select_random_model 7 (mkHostAnswers false true) two_meshes
    = (Raised RuntimeError, two_meshes) /\
  select_random_model 7 (mkHostAnswers true false) two_meshes
    = (Raised RuntimeError,
       with_objects (with_select false <$> objects two_meshes) two_meshes).
Proof.
  assert (scene_meshes two_meshes <> []) as Hne by (vm_compute; discriminate).
  split; [|split].
  - destruct (select_picks_scene_mesh 7 (mkHostAnswers true true) two_meshes)
      as (_ & H & _).
    destruct (H Hne eq_refl eq_refl)
      as (n & o & st' & Hrun & Ho & Hm & Hsel & Hact & _).
    exists n, o, st'. repeat split; assumption.
  - destruct (select_picks_scene_mesh 7 (mkHostAnswers false true) two_meshes)
      as (_ & _ & H & _).
    exact (H Hne eq_refl).
  - destruct (select_picks_scene_mesh 7 (mkHostAnswers true false) two_meshes)
      as (_ & _ & _ & H).
    exact (H Hne eq_refl eq_refl).
Defined.

(** X9.  Clear Session Data finishes; it touches no object and no mesh,
    so after a move every object stays where the move put it; and once the
    session is cleared, Restore Original Position is cancelled: the stored
    positions are gone. *)
Theorem clear_session_keeps_scene (st : State) :
  exists st',
    clear_session st = (Returned FINISHED, st') /\
    objects st' = objects st /\ meshes st' = meshes st /\
    selected_reference_name st' = selected_reference_name st /\
    original_positions_store st' = [] /\ original_geometry_store st' = [] /\
    scene_offset_vector st' = vzero /\
    exists st'', restore_original_position st' = (Returned CANCELLED, st'') /\
                 objects st'' = objects st /\ meshes st'' = meshes st.
Proof.
  exists (with_reports (reports st ++ [(INFO, "Cleared all stored LOD model data.")])
            (with_offset vzero (with_geometry [] (with_positions [] st)))).
  split; [reflexivity|]. do 6 (split; [reflexivity|]).
  eexists. split; [apply restore_cancelled_run; reflexivity|]. split; reflexivity.
Qed.

Lemma geometry_center_mean_of (verts : list Vector) :
  verts <> [] -> veq (geometry_center_of verts) (mean verts).
Proof. exact (OriginShift.geometry_center_mean verts). Qed.

(** X10.  What Move Reference to Origin never does.  After a finished
    move the host has the objects it had, each with its data, its world
    matrix and its place in or out of the scene; an object other than the
    reference that is not a mesh object of the scene has kept its location;
    and the mesh datablocks that were there, other than the reference's, are
    unchanged. *)
Theorem move_frame (st st' : State) :
  move_reference_to_origin st = (Returned FINISHED, st') ->
  exists ref_name ref_obj id,
    selected_reference_name st = Some ref_name /\
    objects st !! ref_name = Some ref_obj /\
    data ref_obj = Some (MeshRef id) /\
    (forall m, objects st !! m = None -> objects st' !! m = None) /\
    (forall m om, objects st !! m = Some om ->
       exists om', objects st' !! m = Some om' /\
         data om' = data om /\ matrix_world om' = matrix_world om /\
         in_scene om' = in_scene om /\
         (m <> ref_name -> scene_mesh om = false -> location om' = location om)) /\
    (forall k v, k <> id -> meshes st !! k = Some v -> meshes st' !! k = Some v).
Proof.
  intros H.
  destruct (move_finished_inv st st' H)
    as (ref_name & ref_obj & id & verts & Hsel & _ & Hobj & Hdata & Hverts & ->).
  exists ref_name, ref_obj, id.
  split; [exact Hsel|]. split; [exact Hobj|]. split; [exact Hdata|].
  cbn [objects meshes with_reports moved_state].
  split; [|split].
  - intros m Hm. apply moved_objects_None. exact Hm.
  - intros m om Hom. destruct (decide (m = ref_name)) as [->|Hne].
    + rewrite (moved_objects_ref _ _ _ _ Hom). eexists. split; [reflexivity|].
      repeat split. intros Hc. contradiction.
    + rewrite (moved_objects_other _ _ _ _ _ Hne Hom). eexists. split; [reflexivity|].
      destruct (scene_mesh om); repeat split. intros _ Hc. discriminate Hc.
  - intros k v Hk Hv.
    rewrite lookup_insert_ne by congruence.
    rewrite lookup_insert_ne; [exact Hv|].
    intros E. apply (is_fresh (dom (meshes st))). rewrite E.
    apply elem_of_dom. eauto.
Qed.

Lemma move_frame_witness :
  exists om',
    objects (move_reference_to_origin two_meshes).2 !! "Cam" = Some om' /\
    location om' = mkVector 1 2 3.
Proof.
  destruct (move_frame two_meshes (move_reference_to_origin two_meshes).2)
    as (ref_name & ref_obj & id & Hsel & _ & _ & _ & Hobjs & _).
  - vm_compute. reflexivity.
  - destruct (Hobjs "Cam" (mkObject (Some OtherRef) (mkVector 1 2 3) identity false true))
      as (om' & Hom' & _ & _ & _ & Hloc).
    + vm_compute. reflexivity.
    + exists om'. split; [exact Hom'|]. apply Hloc.
      * injection Hsel as <-. discriminate.
      * reflexivity.
Defined.

(** X11.  Move Reference to Origin keeps the other mesh objects of the
    scene in formation: the difference between the locations of any two of
    them is after the move what it was before. *)
Theorem move_keeps_formation (st st' : State) (a b : string) (oa ob : Object) :
  move_reference_to_origin st = (Returned FINISHED, st') ->
  selected_reference_name st <> Some a -> selected_reference_name st <> Some b ->
  objects st !! a = Some oa -> scene_mesh oa = true ->
  objects st !! b = Some ob -> scene_mesh ob = true ->
  exists oa' ob',
    objects st' !! a = Some oa' /\ objects st' !! b = Some ob' /\
    veq (vsub (location oa') (location ob')) (vsub (location oa) (location ob)).
Proof.
  intros H Ha Hb Hoa Hma Hob Hmb.
  destruct (move_finished_inv st st' H)
    as (ref_name & ref_obj & id & verts & Hsel & _ & Hobj & Hdata & Hverts & ->).
  cbn [objects with_reports moved_state].
  rewrite (moved_objects_other _ _ _ a oa), Hma by congruence.
  rewrite (moved_objects_other _ _ _ b ob), Hmb by congruence.
  eexists _, _. split; [reflexivity|]. split; [reflexivity|].
  unfold veq, vsub, vadd; cbn. repeat split; ring.
Qed.

Lemma move_keeps_formation_witness :
  exists oa' ob',
    objects (move_reference_to_origin MoreExamples.three_meshes).2 !! "A" = Some oa' /\
    objects (move_reference_to_origin MoreExamples.three_meshes).2 !! "C" = Some ob' /\
    veq (vsub (location oa') (location ob'))
        (vsub (mkVector 100 200 300) (mkVector 90 210 300)).
Proof.
  apply (move_keeps_formation MoreExamples.three_meshes
           (move_reference_to_origin MoreExamples.three_meshes).2
           "A" "C" (mesh_object 0 (mkVector 100 200 300))
           (mesh_object 0 (mkVector 90 210 300))).
  - vm_compute. reflexivity.
  - discriminate.
  - discriminate.
  - vm_compute. reflexivity.
  - reflexivity.
  - vm_compute. reflexivity.
  - reflexivity.
Defined.

Lemma inject_Z_of_nat_S (k : nat) :
  inject_Z (Z.of_nat (S k)) == inject_Z (Z.of_nat k) + 1.
Proof.
  rewrite Nat2Z.inj_succ. unfold Z.succ. rewrite inject_Z_plus. reflexivity.
Qed.

Lemma inject_Z_of_nat_pos (k : nat) : 0 < inject_Z (Z.of_nat (S k)).
Proof.
  change 0 with (inject_Z 0). rewrite <- Zlt_Qlt. lia.
Qed.

(** The coordinate sums of shifted points. *)
Lemma sum_shifted (g : Vector) (vs : list Vector) :
  fold_right Qplus 0 (map vx (map (fun co => vsub co g) vs))
    == fold_right Qplus 0 (map vx vs) - inject_Z (Z.of_nat (length vs)) * vx g /\
  fold_right Qplus 0 (map vy (map (fun co => vsub co g) vs))
    == fold_right Qplus 0 (map vy vs) - inject_Z (Z.of_nat (length vs)) * vy g /\
  fold_right Qplus 0 (map vz (map (fun co => vsub co g) vs))
    == fold_right Qplus 0 (map vz vs) - inject_Z (Z.of_nat (length vs)) * vz g.
Proof.
  induction vs as [|v vs (IHx & IHy & IHz)].
  - cbn. repeat split; ring.
  - cbn [map fold_right length]. rewrite IHx, IHy, IHz, inject_Z_of_nat_S.
    unfold vsub; cbn [vx vy vz]. repeat split; ring.
Qed.

(** X12.  Move Reference to Origin recentres the reference mesh.  The mesh
    keeps its number of vertices; when it has any, their mean is the zero
    vector afterwards; and each new vertex, seen through the linear part of
    the reference's world matrix (the object now sitting at the origin), is
    the old vertex in world space plus the offset vector: the reference's
    geometry moves with the rest of the scene. *)
Theorem move_recentres_mesh (st st' : State) :
  move_reference_to_origin st = (Returned FINISHED, st') ->
  exists ref_name ref_obj id verts verts',
    selected_reference_name st = Some ref_name /\
    objects st !! ref_name = Some ref_obj /\
    data ref_obj = Some (MeshRef id) /\
    meshes st !! id = Some verts /\
    meshes st' !! id = Some verts' /\
    length verts' = length verts /\
    (verts <> [] -> veq (mean verts') vzero) /\
    (forall i v v', verts !! i = Some v -> verts' !! i = Some v' ->
       veq (mat_apply (at_origin (matrix_world ref_obj)) v')
           (vadd (mat_apply (matrix_world ref_obj) v) (scene_offset_vector st'))).
Proof.
  intros H.
  destruct (move_finished_inv st st' H)
    as (ref_name & ref_obj & id & verts & Hsel & _ & Hobj & Hdata & Hverts & ->).
  exists ref_name, ref_obj, id, verts. eexists.
  split; [exact Hsel|]. split; [exact Hobj|]. split; [exact Hdata|].
  split; [exact Hverts|].
  cbn [meshes scene_offset_vector with_reports moved_state].
  split; [apply lookup_insert_eq|].
  split; [apply length_map|]. split.
  - intros Hne. pose proof (geometry_center_mean_of verts Hne) as (Gx & Gy & Gz).
    destruct verts as [|v vs]; [contradiction|].
    destruct (sum_shifted (geometry_center_of (v :: vs)) (v :: vs)) as (Sx & Sy & Sz).
    pose proof (inject_Z_of_nat_pos (length vs)) as Hpos.
    unfold mean, veq, vzero. rewrite length_map. cbn [vx vy vz length] in *.
    rewrite Sx, Sy, Sz, Gx, Gy, Gz. unfold mean. cbn [vx vy vz length].
    set (k := inject_Z (Z.of_nat (S (length vs)))) in *.
    repeat split; field; intros E; rewrite E in Hpos; discriminate Hpos.
  - intros i v v' Hv Hv'.
    rewrite list_lookup_fmap, Hv in Hv'. injection Hv' as <-.
    unfold scene_offset, at_origin, veq, mat_apply, dot, vsub, vadd, vneg, vzero;
      cbn [vx vy vz row_x row_y row_z translation].
    repeat split; ring.
Qed.

Lemma move_recentres_mesh_witness :
  exists verts',
    meshes (move_reference_to_origin two_meshes).2 !! 1%nat = Some verts' /\
    length verts' = 2%nat.
Proof.
  destruct (move_recentres_mesh two_meshes (move_reference_to_origin two_meshes).2)
    as (ref_name & ref_obj & id & verts & verts' & Hsel & Hobj & Hdata & Hverts
        & Hverts' & Hlen & _).
  - vm_compute. reflexivity.
  - injection Hsel as <-. vm_compute in Hobj. injection Hobj as <-.
    injection Hdata as <-. vm_compute in Hverts. injection Hverts as <-.
    exists verts'. split; [exact Hverts' | exact Hlen].
Defined.

End SessionProperties.

(* ------------------------------------------------------------------------- *)
(** ** Grid placement: groups placed one after the other *)

Module GridFacts.
Import Geometry Py Host Placement Grid PyFacts HostFacts BBoxFacts RunFacts
       AlignFacts PlacedFacts Examples.
#[local] Open Scope py_scope.

Lemma frame_of_reparented (name collection : string) (objs : list nat)
    (sc sc3 sc' : Scene) :
  reparented (length (anchors sc)) objs (with_new_anchor name collection sc) sc3 ->
  sc' = sc3 \/
  (exists position,
     sc' = with_anchors (anchors sc ++ [mkAnchor name position]) sc3) ->
  placement_frame name collection objs sc sc'.
Proof.
  intros (Ha & Hc & Hlen & H) Hsc'.
  assert (fragments sc' = fragments sc3 /\
          collection_objects sc' = collection_objects sc3 /\
          exists position, anchors sc' = anchors sc ++ [mkAnchor name position])
    as (Hf & Hc' & Hpos).
  { destruct Hsc' as [->|[position ->]].
    - split; [reflexivity|]. split; [reflexivity|]. exists vzero. exact Ha.
    - split; [reflexivity|]. split; [reflexivity|]. exists position. reflexivity. }
  split; [exact Hpos|]. split; [rewrite Hc', Hc; reflexivity|].
  split; [rewrite Hf; exact Hlen|].
  intros obj f Hobj. destruct (H obj f Hobj) as (f' & Hf' & Hbb & _ & Hin & Hout).
  exists f'. rewrite Hf. auto.
Qed.

(** Corners of a group whose fragments and anchors are the same. *)
Lemma world_corners_ext (sc sc' : Scene) (objs : list nat) :
  (forall obj, obj ∈ objs -> fragments sc' !! obj = fragments sc !! obj) ->
  (forall obj f, obj ∈ objs -> fragments sc !! obj = Some f ->
     matrix_world sc' f = matrix_world sc f) ->
  world_corners sc' objs = world_corners sc objs.
Proof.
  induction objs as [|obj objs IH]; intros Hf Hm; [reflexivity|].
  rewrite (world_corners_cons sc), (world_corners_cons sc'). f_equal.
  - unfold world_corners; cbn [flat_map]. rewrite !app_nil_r.
    rewrite (Hf obj) by left.
    destruct (fragments sc !! obj) as [f|] eqn:E; [|reflexivity].
    rewrite (Hm obj f) by (left || exact E). reflexivity.
  - apply IH.
    + intros i Hi. apply Hf. right. exact Hi.
    + intros i f Hi. apply Hm. right. exact Hi.
Qed.

(** A group outside the one being placed is not touched. *)
Lemma frame_keeps_corners (name collection : string) (objs others : list nat)
    (sc sc' : Scene) :
  placement_frame name collection objs sc sc' ->
  (forall obj, obj ∈ others -> obj ∉ objs) ->
  settled sc others ->
  world_corners sc' others = world_corners sc others /\ settled sc' others.
Proof.
  intros ([position Ha] & _ & Hlen & H) Hdisj Hset.
  assert (forall obj, obj ∈ others -> fragments sc' !! obj = fragments sc !! obj) as Hf.
  { intros obj Hin. destruct (fragments sc !! obj) as [f|] eqn:E.
    - destruct (H obj f E) as (f' & Hf' & _ & _ & Hout).
      rewrite Hf', (Hout (Hdisj obj Hin)). reflexivity.
    - apply lookup_ge_None. rewrite Hlen. apply lookup_ge_None. exact E. }
  split.
  - apply world_corners_ext; [exact Hf|].
    intros obj f Hin E. specialize (Hset obj f Hin E).
    unfold matrix_world. destruct (frag_parent f) as [a|]; [|reflexivity].
    rewrite Ha, lookup_app_l by exact Hset. reflexivity.
  - intros obj f Hin E. rewrite (Hf obj Hin) in E.
    specialize (Hset obj f Hin E). destruct (frag_parent f) as [a|]; [|exact I].
    rewrite Ha, length_app. cbn. lia.
Qed.

Lemma frame_settles (name collection : string) (objs : list nat) (sc sc' : Scene) :
  placement_frame name collection objs sc sc' -> valid sc objs -> settled sc' objs.
Proof.
  intros ([position Ha] & _ & Hlen & H) Hv obj f' Hin Hf'.
  unfold valid in Hv. rewrite Forall_forall in Hv.
  destruct (Hv obj Hin) as [f Hf].
  destruct (H obj f Hf) as (f'' & Hf'' & _ & Hp & _).
  rewrite Hf' in Hf''. injection Hf'' as <-.
  rewrite (Hp Hin), Ha, length_app. cbn. lia.
Qed.

Lemma align_v1_frame (sc : Scene) (objs : list nat) (cell_x cell_y : Z)
    (spacing : Q) (name collection : string) :
  objs <> [] -> readable sc objs ->
  exists sc',
    TreeGrid.align_group_with_empty objs cell_x cell_y spacing name collection sc
      = (Returned None, sc') /\
    placement_frame name collection objs sc sc'.
Proof.
  intros Hne Hr.
  destruct (align_v1_run sc objs cell_x cell_y spacing name collection Hne Hr)
    as (sc3 & Hrel & [[_ Hrun]|(mn & mx & _ & Hrun)]);
    (eexists; split; [exact Hrun|]; eapply frame_of_reparented; [exact Hrel|]).
  - left. reflexivity.
  - right. eexists. reflexivity.
Qed.

Lemma align_v2_frame (sc : Scene) (objs : list nat) (cell_x cell_y : Z)
    (spacing : Q) (name collection : string) :
  objs <> [] -> valid sc objs ->
  exists sc',
    TreesToGrid.align_group_with_empty objs cell_x cell_y spacing name collection sc
      = (Returned (Some (length (anchors sc))), sc') /\
    placement_frame name collection objs sc sc'.
Proof.
  intros Hne Hv.
  destruct (align_v2_run sc objs cell_x cell_y spacing name collection Hne Hv)
    as (sc3 & Hrel & [[_ Hrun]|(mn & mx & _ & Hrun)]);
    (eexists; split; [exact Hrun|]; eapply frame_of_reparented; [exact Hrel|]).
  - left. reflexivity.
  - right. eexists. reflexivity.
Qed.

(** X13.  What a call of the placement routine on a non-empty group never
    does (both importers): it adds one anchor after the anchors of the
    scene, which keep their positions, and one link to the collection;
    it creates and deletes no fragment and changes no bounding box; a
    fragment outside the group is left exactly as it was; and every
    fragment of the group ends up under the new anchor. *)
Theorem placement_touches_only_group (sc : Scene) (objs : list nat)
    (cell_x cell_y : Z) (spacing : Q) (name collection : string) :
  objs <> [] -> readable sc objs ->
  (exists sc',
     TreeGrid.align_group_with_empty objs cell_x cell_y spacing name collection sc
       = (Returned None, sc') /\
     placement_frame name collection objs sc sc') /\
  (exists sc',
     TreesToGrid.align_group_with_empty objs cell_x cell_y spacing name collection sc
       = (Returned (Some (length (anchors sc))), sc') /\
     placement_frame name collection objs sc sc').
Proof.
  intros Hne Hr. split.
  - apply align_v1_frame; assumption.
  - apply align_v2_frame; [assumption | apply readable_valid; assumption].
Qed.

Lemma placement_touches_only_group_witness :
  exists sc',
    TreeGrid.align_group_with_empty [0; 2]%nat 1 0 50 "Fan" "Trees" three_fragments
      = (Returned None, sc') /\
    placement_frame "Fan" "Trees" [0; 2]%nat three_fragments sc'.
Proof.
  apply (proj1 (placement_touches_only_group three_fragments [0; 2]%nat 1 0 50
                  "Fan" "Trees" ltac:(discriminate)
                  ltac:(repeat (constructor; [do 2 eexists; split; reflexivity|]);
                        constructor))).
Defined.

(** X14.  Filling the grid.  A group that sits on its cell, and whose
    fragments are free or hang under anchors of the scene, still sits on its
    cell after the routine has placed another group that shares no fragment
    with it; and both groups then hang under anchors of the scene, so the
    same holds for every later call.  Both importers. *)
Theorem placement_keeps_placed_groups (sc : Scene) (placed_objs objs : list nat)
    (target : Vector) (cell_x cell_y : Z) (spacing : Q) (name collection : string) :
  placed sc placed_objs target -> settled sc placed_objs ->
  (forall obj, obj ∈ placed_objs -> obj ∉ objs) ->
  objs <> [] -> group_ok sc objs ->
  (exists sc',
     TreeGrid.align_group_with_empty objs cell_x cell_y spacing name collection sc
       = (Returned None, sc') /\
     placed sc' placed_objs target /\ settled sc' placed_objs /\
     placed sc' objs (TreeGrid.grid_cell_center cell_x cell_y spacing) /\
     settled sc' objs) /\
  (exists sc',
     TreesToGrid.align_group_with_empty objs cell_x cell_y spacing name collection sc
       = (Returned (Some (length (anchors sc))), sc') /\
     placed sc' placed_objs target /\ settled sc' placed_objs /\
     placed sc' objs (TreesToGrid.grid_cell_center cell_x cell_y spacing) /\
     settled sc' objs).
Proof.
  intros (mn0 & mx0 & Hbox0 & Hcx & Hcy & Hz) Hset Hdisj Hne Hok.
  pose proof (group_ok_corners sc objs Hne Hok) as Hcs.
  pose proof (group_ok_readable sc objs Hok) as Hr.
  pose proof (readable_valid sc objs Hr) as Hv.
  split.
  - destruct (align_v1_run sc objs cell_x cell_y spacing name collection Hne Hr)
      as (sc3 & Hrel & [[Hnil _]|(mn & mx & Hbox & Hrun)]); [contradiction|].
    eexists. split; [exact Hrun|].
    assert (placement_frame name collection objs sc
              (with_anchors
                 (anchors sc ++
                  [mkAnchor name
                     (vadd vzero
                        (placement_offset mn mx
                           (TreeGrid.grid_cell_center cell_x cell_y spacing)))])
                 sc3)) as Hframe.
    { eapply frame_of_reparented; [exact Hrel|]. right. eexists. reflexivity. }
    destruct (frame_keeps_corners _ _ _ _ _ _ Hframe Hdisj Hset) as [Hsame Hset'].
    split; [|split; [exact Hset'|split]].
    + exists mn0, mx0. rewrite Hsame. auto.
    + eapply placed_after; eassumption.
    + eapply frame_settles; eassumption.
  - destruct (align_v2_run sc objs cell_x cell_y spacing name collection Hne Hv)
      as (sc3 & Hrel & [[Hnil _]|(mn & mx & Hbox & Hrun)]); [contradiction|].
    eexists. split; [exact Hrun|].
    assert (placement_frame name collection objs sc
              (with_anchors
                 (anchors sc ++
                  [mkAnchor name
                     (vadd vzero
                        (placement_offset mn mx
                           (TreesToGrid.grid_cell_center cell_x cell_y spacing)))])
                 sc3)) as Hframe.
    { eapply frame_of_reparented; [exact Hrel|]. right. eexists. reflexivity. }
    destruct (frame_keeps_corners _ _ _ _ _ _ Hframe Hdisj Hset) as [Hsame Hset'].
    split; [|split; [exact Hset'|split]].
    + exists mn0, mx0. rewrite Hsame. auto.
    + eapply placed_after; eassumption.
    + eapply frame_settles; eassumption.
Qed.

Ltac bbox_by_evaluation :=
  vm_compute world_corners;
  unfold is_union_bbox, is_min, is_max; cbn [vx vy vz];
  repeat split;
    first [ repeat (apply List.Forall_cons; [discriminate|]); apply List.Forall_nil
          | repeat first [ apply List.Exists_cons_hd; reflexivity
                         | apply List.Exists_cons_tl ] ].

Lemma one_on_grid_placed :
  placed MoreExamples.one_on_grid [0%nat] (TreeGrid.grid_cell_center 0 0 50).
Proof.
  exists (mkVector 0 (-50) 0), (mkVector 50 0 10).
  split; [bbox_by_evaluation|]. repeat split; reflexivity.
Qed.

Lemma placement_keeps_placed_groups_witness :
  exists sc',
    TreeGrid.align_group_with_empty [1%nat] 1 0 50 "Fan" "Trees"
      MoreExamples.one_on_grid = (Returned None, sc') /\
    placed sc' [0%nat] (TreeGrid.grid_cell_center 0 0 50) /\
    settled sc' [0%nat] /\
    placed sc' [1%nat] (TreeGrid.grid_cell_center 1 0 50) /\
    settled sc' [1%nat].
Proof.
  apply (proj1 (placement_keeps_placed_groups MoreExamples.one_on_grid
                  [0%nat] [1%nat] (TreeGrid.grid_cell_center 0 0 50) 1 0 50
                  "Fan" "Trees"
                  one_on_grid_placed
                  ltac:(intros obj f Hin Hf;
                        apply list_elem_of_singleton in Hin; subst obj;
                        vm_compute in Hf; injection Hf as <-; exact I)
                  ltac:(intros obj Hin Hin';
                        apply list_elem_of_singleton in Hin;
                        apply list_elem_of_singleton in Hin'; congruence)
                  ltac:(discriminate)
                  ltac:(repeat (constructor;
                                [do 2 eexists; repeat split; reflexivity|]);
                        constructor))).
Defined.

End GridFacts.

(* ------------------------------------------------------------------------- *)
(** ** The two importers side by side *)

Module ImporterFacts.
Import Geometry Py Host Placement PyFacts HostFacts BBoxFacts RunFacts
       AlignFacts PlacedFacts Examples.
#[local] Open Scope py_scope.

Lemma compute_world_bbox_corners (sc : Scene) (objs : list nat) (c : Vector)
    (cs : list Vector) (mn mx : Vector) :
  world_corners sc objs = c :: cs ->
  py_min (map vx (c :: cs)) = Returned (vx mn) ->
  py_min (map vy (c :: cs)) = Returned (vy mn) ->
  py_min (map vz (c :: cs)) = Returned (vz mn) ->
  py_max (map vx (c :: cs)) = Returned (vx mx) ->
  py_max (map vy (c :: cs)) = Returned (vy mx) ->
  py_max (map vz (c :: cs)) = Returned (vz mx) ->
  TreesToGrid.compute_world_bbox objs sc
  = (Returned (Some mn, Some mx, Some (vdiv (vadd mn mx) 2)), sc).
Proof.
  intros Hc E1 E2 E3 E4 E5 E6. unfold TreesToGrid.compute_world_bbox.
  erewrite bind_run by apply collect_v2. cbn [app]. rewrite Hc.
  unfold lift. rewrite E1, E2, E3, E4, E5, E6.
  repeat (erewrite bind_run by reflexivity).
  destruct mn, mx; reflexivity.
Qed.

Lemma compute_world_bbox_empty (sc : Scene) (objs : list nat) :
  world_corners sc objs = [] ->
  TreesToGrid.compute_world_bbox objs sc = (Returned (None, None, None), sc).
Proof.
  intros Hc. unfold TreesToGrid.compute_world_bbox.
  erewrite bind_run by apply collect_v2. cbn [app]. rewrite Hc. reflexivity.
Qed.

(** X15.  Where the host gives every bounding box of the group, the two
    importers do the same to the scene: they leave the same anchors at the
    same positions, the same links and the same fragments.  They differ in
    what they return: [CE-Tree-Grid.py] nothing, [CE-trees-to-grid.py] the
    new anchor of a non-empty group. *)
Theorem importers_agree (sc : Scene) (objs : list nat) (cell_x cell_y : Z)
    (spacing : Q) (name collection : string) :
  readable sc objs ->
  (TreeGrid.align_group_with_empty objs cell_x cell_y spacing name collection sc).2
  = (TreesToGrid.align_group_with_empty objs cell_x cell_y spacing name collection sc).2
  /\
  (TreeGrid.align_group_with_empty objs cell_x cell_y spacing name collection sc).1
  = Returned None /\
  (TreesToGrid.align_group_with_empty objs cell_x cell_y spacing name collection sc).1
  = Returned (match objs with [] => None | _ :: _ => Some (length (anchors sc)) end).
Proof.
  intros Hr. destruct objs as [|o os]; [repeat split; reflexivity|].
  set (objs := o :: os) in *.
  set (sc1 := with_new_anchor name collection sc).
  destruct (reparent_loop (length (anchors sc)) (mkAnchor name vzero) objs sc1)
    as (sc3 & Hloop & Hrel).
  { cbn. apply list_lookup_middle. reflexivity. }
  { apply readable_valid in Hr. exact Hr. }
  assert (same_world sc sc3) as Hsw.
  { eapply same_world_trans; [apply new_anchor_same_world|].
    eapply reparented_same_world. exact Hrel. }
  assert (readable sc3 objs) as Hr3
    by (eapply readable_same_world; [exact Hsw | exact Hr]).
  destruct Hrel as (Ha & _).
  assert (TreeGrid.align_group_with_empty objs cell_x cell_y spacing name collection sc
          = match world_corners sc3 objs with
            | [] => (Returned None, sc3)
            | c :: cs =>
                match py_min (map vx (c :: cs)), py_min (map vy (c :: cs)),
                      py_min (map vz (c :: cs)), py_max (map vx (c :: cs)),
                      py_max (map vy (c :: cs)), py_max (map vz (c :: cs)) with
                | Returned x1, Returned y1, Returned z1,
                  Returned x2, Returned y2, Returned z2 =>
                    (Returned None,
                     with_anchors
                       (anchors sc ++
                        [mkAnchor name
                           (vadd vzero
                              (placement_offset (mkVector x1 y1 z1) (mkVector x2 y2 z2)
                                 (TreeGrid.grid_cell_center cell_x cell_y spacing)))])
                       sc3)
                | _, _, _, _, _, _ => (Raised ValueError, sc3)
                end
            end) as H1.
  { unfold TreeGrid.align_group_with_empty, objs.
    rewrite new_anchor_run. fold sc1. fold objs.
    erewrite bind_run by exact Hloop.
    erewrite bind_run by (apply collect_v1; exact Hr3).
    cbn [app]. destruct (world_corners sc3 objs) as [|c cs]; [reflexivity|].
    destruct (union_bbox_run c cs) as (mn & mx & _ & E1 & E2 & E3 & E4 & E5 & E6).
    unfold lift. rewrite E1, E2, E3, E4, E5, E6.
    repeat (erewrite bind_run by reflexivity).
    rewrite <- (scene_eta sc3) at 1. rewrite Ha. cbn [anchors sc1 with_new_anchor].
    rewrite move_anchor_run. reflexivity. }
  assert (TreesToGrid.align_group_with_empty objs cell_x cell_y spacing name collection sc
          = match world_corners sc3 objs with
            | [] => (Returned (Some (length (anchors sc))), sc3)
            | c :: cs =>
                match py_min (map vx (c :: cs)), py_min (map vy (c :: cs)),
                      py_min (map vz (c :: cs)), py_max (map vx (c :: cs)),
                      py_max (map vy (c :: cs)), py_max (map vz (c :: cs)) with
                | Returned x1, Returned y1, Returned z1,
                  Returned x2, Returned y2, Returned z2 =>
                    (Returned (Some (length (anchors sc))),
                     with_anchors
                       (anchors sc ++
                        [mkAnchor name
                           (vadd vzero
                              (placement_offset (mkVector x1 y1 z1) (mkVector x2 y2 z2)
                                 (TreeGrid.grid_cell_center cell_x cell_y spacing)))])
                       sc3)
                | _, _, _, _, _, _ => (Raised ValueError, sc3)
                end
            end) as H2.
  { unfold TreesToGrid.align_group_with_empty, objs.
    rewrite new_anchor_run. fold sc1. fold objs.
    erewrite bind_run by exact Hloop.
    destruct (world_corners sc3 objs) as [|c cs] eqn:Hc.
    - erewrite bind_run by (apply compute_world_bbox_empty; exact Hc). reflexivity.
    - destruct (union_bbox_run c cs) as (mn & mx & _ & E1 & E2 & E3 & E4 & E5 & E6).
      erewrite bind_run
        by (eapply compute_world_bbox_corners; [exact Hc|eassumption..]).
      rewrite E1, E2, E3, E4, E5, E6. cbv beta iota.
      erewrite bind_run by reflexivity.
      rewrite <- (scene_eta sc3) at 1. rewrite Ha. cbn [anchors sc1 with_new_anchor].
      rewrite move_anchor_run. destruct mn, mx; reflexivity. }
  rewrite H1, H2.
  destruct (world_corners sc3 objs) as [|c cs]; [repeat split; reflexivity|].
  destruct (union_bbox_run c cs) as (mn & mx & _ & E1 & E2 & E3 & E4 & E5 & E6).
  rewrite E1, E2, E3, E4, E5, E6. repeat split; reflexivity.
Qed.

Lemma importers_agree_witness :
  (TreeGrid.align_group_with_empty [0; 1; 2]%nat 1 0 50 "Fan" "Trees" three_fragments).2
  = (TreesToGrid.align_group_with_empty [0; 1; 2]%nat 1 0 50 "Fan" "Trees"
       three_fragments).2.
Proof.
  apply (importers_agree three_fragments [0; 1; 2]%nat 1 0 50 "Fan" "Trees").
  repeat (constructor; [do 2 eexists; split; reflexivity|]); constructor.
Defined.

End ImporterFacts.

(* ------------------------------------------------------------------------- *)
(** ** Labels above groups *)

Module LabelFacts.
Import Geometry Py Host Placement Labels PyFacts HostFacts BBoxFacts RunFacts
       AlignFacts PlacedFacts ImporterFacts Examples.
#[local] Open Scope py_scope.

Lemma on_scene_run {Rest A} (c : M Scene A) (s : Scene * Rest) (r : A) :
  c s.1 = (Returned r, s.1) -> on_scene c s = (Returned r, s).
Proof. intros H. unfold on_scene. rewrite H. destruct s; reflexivity. Qed.

(** X16.  [add_text_above_group] reads the scene, changes nothing and
    raises nothing of its own: its result and its effect are those of the
    one call [add_text(loc, text, size, mat)] it ends with, made in the
    state the routine was called in.  [loc] is the X/Y centre of the
    group's union bounding box, [offset] above its greatest Z; for a group
    without corners it is [(0, 0, offset)]. *)
Theorem label_above_group {Rest Text Material : Type}
    (add_text : Vector -> string -> Q -> Material -> M (Scene * Rest) Text)
    (objs : list nat) (text : string) (size offset : Q) (mat : Material)
    (s : Scene * Rest) :
  exists loc,
    add_text_above_group add_text objs text size offset mat s
    = add_text loc text size mat s /\
    (world_corners s.1 objs = [] -> veq loc (mkVector 0 0 offset)) /\
    (forall mn mx, is_union_bbox (world_corners s.1 objs) mn mx ->
       veq loc (mkVector ((vx mn + vx mx) / 2) ((vy mn + vy mx) / 2)
                         (vz mx + offset))).
Proof.
  unfold add_text_above_group.
  destruct (compute_world_bbox_run s.1 objs)
    as [[Hnil Hrun]|(mn0 & mx0 & Hbox0 & Hrun)].
  - erewrite bind_run by (apply on_scene_run; exact Hrun).
    cbv beta iota. repeat (erewrite bind_run by reflexivity).
    eexists. split; [reflexivity|]. split.
    + intros _. unfold veq; cbn. repeat split; ring.
    + intros mn mx Hbox. exfalso. rewrite Hnil in Hbox.
      eapply is_union_bbox_nonempty; [exact Hbox | reflexivity].
  - erewrite bind_run by (apply on_scene_run; exact Hrun).
    cbv beta iota. repeat (erewrite bind_run by reflexivity).
    eexists. split; [reflexivity|]. split.
    + intros Hnil. exfalso. eapply is_union_bbox_nonempty; eassumption.
    + intros mn mx Hbox.
      destruct (is_union_bbox_unique _ _ _ _ _ Hbox0 Hbox)
        as ((E1 & E2 & E3) & (E4 & E5 & E6)).
      unfold veq, vdiv, vadd; cbn [vx vy vz].
      rewrite E1, E2, E4, E5, E6. repeat split; reflexivity.
Qed.

End LabelFacts.

(* ------------------------------------------------------------------------- *)
(** ** A second placement on the host's evaluated transforms *)

Module EvaluatedFacts.
Import Geometry Py Evaluated.
#[local] Open Scope py_scope.

Lemma keeps_ret {A} (a : A) : keeps_cache (ret a).
Proof. intros sc. reflexivity. Qed.

Lemma keeps_raise {A} (e : exn) : keeps_cache (@raise Scene A e).
Proof. intros sc. reflexivity. Qed.

Lemma keeps_lift {A} (o : outcome A) : keeps_cache (lift o).
Proof. intros sc. reflexivity. Qed.

Lemma keeps_bind {A B} (c : M Scene A) (k : A -> M Scene B) :
  keeps_cache c -> (forall a, keeps_cache (k a)) -> keeps_cache (bind c k).
Proof.
  intros Hc Hk sc. unfold bind. specialize (Hc sc).
  destruct (c sc) as [[a|e] sc1]; cbn [snd] in *.
  - rewrite (Hk a sc1). exact Hc.
  - exact Hc.
Qed.

Lemma keeps_try_except {A} (c h : M Scene A) :
  keeps_cache c -> keeps_cache h -> keeps_cache (try_except c h).
Proof.
  intros Hc Hh sc. unfold try_except. specialize (Hc sc).
  destruct (c sc) as [[a|e] sc1]; cbn [snd] in *.
  - exact Hc.
  - rewrite (Hh sc1). exact Hc.
Qed.

Lemma keeps_for_each {A} (xs : list A) (body : A -> M Scene unit) :
  (forall x, keeps_cache (body x)) -> keeps_cache (for_each xs body).
Proof.
  intros Hb. induction xs as [|x xs IH]; cbn [for_each].
  - apply keeps_ret.
  - apply keeps_bind; [apply Hb | intros _; exact IH].
Qed.

Lemma keeps_for_fold {A B} (xs : list A) (body : B -> A -> M Scene B) :
  (forall acc x, keeps_cache (body acc x)) ->
  forall acc, keeps_cache (for_fold xs acc body).
Proof.
  intros Hb. induction xs as [|x xs IH]; intros acc; cbn [for_fold].
  - apply keeps_ret.
  - apply keeps_bind; [apply Hb | intros acc'; apply IH].
Qed.

Lemma keeps_fragment_of (obj : nat) : keeps_cache (fragment_of obj).
Proof. intros sc. unfold fragment_of. destruct (fragments sc !! obj); reflexivity. Qed.

Lemma keeps_anchor_of (a : nat) : keeps_cache (anchor_of a).
Proof. intros sc. unfold anchor_of. destruct (anchors sc !! a); reflexivity. Qed.

Lemma keeps_objects_new (name : string) : keeps_cache (objects_new name).
Proof. intros sc. reflexivity. Qed.

Lemma keeps_objects_link (collection : string) (a : nat) :
  keeps_cache (objects_link collection a).
Proof. intros sc. reflexivity. Qed.

Lemma keeps_get_location (a : nat) : keeps_cache (get_location a).
Proof.
  apply keeps_bind; [apply keeps_anchor_of | intros e; apply keeps_ret].
Qed.

Lemma keeps_set_location (a : nat) (v : Vector) : keeps_cache (set_location a v).
Proof.
  apply keeps_bind; [apply keeps_anchor_of | intros e sc; reflexivity].
Qed.

Lemma keeps_get_bound_box (obj : nat) : keeps_cache (get_bound_box obj).
Proof.
  apply keeps_bind; [apply keeps_fragment_of|].
  intros f. destruct (frag_bound_box f); [apply keeps_ret | apply keeps_raise].
Qed.

Lemma keeps_get_matrix_world (obj : nat) : keeps_cache (get_matrix_world obj).
Proof.
  apply keeps_bind; [apply keeps_fragment_of | intros f; apply keeps_ret].
Qed.

(** [obj.parent = a] leaves the matrix the host evaluated last. *)
Lemma keeps_set_parent (obj a : nat) : keeps_cache (set_parent obj a).
Proof.
  intros sc. unfold set_parent, bind, fragment_of, anchor_of, modify.
  destruct (fragments sc !! obj) as [f|] eqn:Hf; [|reflexivity].
  destruct (anchors sc !! a) as [e|]; [|reflexivity].
  cbn [snd]. unfold cache_of, with_fragments; cbn [fragments].
  rewrite list_fmap_insert. cbn [frag_matrix_world frag_bound_box].
  apply list_insert_id. rewrite list_lookup_fmap, Hf. reflexivity.
Qed.

Lemma keeps_compute_world_bbox (objs : list nat) :
  keeps_cache (TreesToGrid.compute_world_bbox objs).
Proof.
  unfold TreesToGrid.compute_world_bbox.
  apply keeps_bind.
  - apply keeps_for_fold. intros acc obj. apply keeps_bind.
    + apply keeps_try_except; [|apply keeps_ret].
      apply keeps_bind; [apply keeps_get_bound_box | intros bb; apply keeps_ret].
    + intros [bb|]; [|apply keeps_ret].
      apply keeps_for_fold. intros acc' v.
      apply keeps_bind; [apply keeps_get_matrix_world | intros mw; apply keeps_ret].
  - intros [|c cs]; [apply keeps_ret|].
    repeat (apply keeps_bind; [apply keeps_lift | intros ?]). apply keeps_ret.
Qed.

(** Neither importer's routine changes a matrix the host evaluated or a
    bounding box. *)
Lemma keeps_align_v2 (objs : list nat) (cell_x cell_y : Z) (spacing : Q)
    (name collection : string) :
  keeps_cache
    (TreesToGrid.align_group_with_empty objs cell_x cell_y spacing name collection).
Proof.
  unfold TreesToGrid.align_group_with_empty.
  destruct objs as [|obj objs]; [apply keeps_ret|].
  apply keeps_bind; [apply keeps_objects_new | intros empty].
  apply keeps_bind; [apply keeps_objects_link | intros _].
  apply keeps_bind;
    [apply keeps_for_each; intros x; apply keeps_set_parent | intros _].
  apply keeps_bind; [apply keeps_compute_world_bbox | intros [[mn mx] center]].
  destruct center as [center|]; [|apply keeps_ret].
  apply keeps_bind;
    [destruct mn; [apply keeps_ret | apply keeps_raise] | intros min_corner].
  apply keeps_bind; [apply keeps_get_location | intros location].
  apply keeps_bind; [apply keeps_set_location | intros _]. apply keeps_ret.
Qed.

Lemma reads_ret {A} (a : A) : reads_cache (@ret Scene A a).
Proof. intros sc sc' _. reflexivity. Qed.

Lemma reads_lift {A} (o : outcome A) : reads_cache (@lift Scene A o).
Proof. intros sc sc' _. reflexivity. Qed.

Lemma reads_bind {A B} (c : M Scene A) (k : A -> M Scene B) :
  reads_cache c -> keeps_cache c -> (forall a, reads_cache (k a)) ->
  reads_cache (bind c k).
Proof.
  intros Hr Hc Hk sc sc' E. unfold bind.
  pose proof (Hr sc sc' E) as Ho.
  pose proof (Hc sc) as E1. pose proof (Hc sc') as E2.
  destruct (c sc) as [o1 sc1], (c sc') as [o2 sc2]. cbn [fst snd] in *. subst o2.
  destruct o1 as [a|e]; [|reflexivity].
  apply Hk. congruence.
Qed.

Lemma reads_try_except {A} (c h : M Scene A) :
  reads_cache c -> keeps_cache c -> reads_cache h -> reads_cache (try_except c h).
Proof.
  intros Hr Hc Hh sc sc' E. unfold try_except.
  pose proof (Hr sc sc' E) as Ho.
  pose proof (Hc sc) as E1. pose proof (Hc sc') as E2.
  destruct (c sc) as [o1 sc1], (c sc') as [o2 sc2]. cbn [fst snd] in *. subst o2.
  destruct o1 as [a|e]; [reflexivity|].
  apply Hh. congruence.
Qed.

Lemma reads_for_fold {A B} (xs : list A) (body : B -> A -> M Scene B) :
  (forall acc x, reads_cache (body acc x)) ->
  (forall acc x, keeps_cache (body acc x)) ->
  forall acc, reads_cache (for_fold xs acc body).
Proof.
  intros Hr Hk. induction xs as [|x xs IH]; intros acc; cbn [for_fold].
  - apply reads_ret.
  - apply reads_bind; [apply Hr | apply Hk | intros acc'; apply IH].
Qed.

Lemma cache_lookup (sc sc' : Scene) (obj : nat) :
  cache_of sc' = cache_of sc ->
  (fun f => (frag_matrix_world f, frag_bound_box f)) <$> fragments sc' !! obj
  = (fun f => (frag_matrix_world f, frag_bound_box f)) <$> fragments sc !! obj.
Proof.
  intros E. unfold cache_of in E.
  rewrite <- !list_lookup_fmap. change (@fmap list _) with (@map). rewrite E.
  reflexivity.
Qed.

Lemma reads_get_bound_box (obj : nat) : reads_cache (get_bound_box obj).
Proof.
  intros sc sc' E. pose proof (cache_lookup sc sc' obj E) as El.
  unfold get_bound_box, bind, fragment_of.
  destruct (fragments sc' !! obj) as [f'|], (fragments sc !! obj) as [f|];
    cbn in El; try discriminate El; [|reflexivity].
  injection El as _ ->. destruct (frag_bound_box f); reflexivity.
Qed.

Lemma reads_get_matrix_world (obj : nat) : reads_cache (get_matrix_world obj).
Proof.
  intros sc sc' E. pose proof (cache_lookup sc sc' obj E) as El.
  unfold get_matrix_world, bind, fragment_of.
  destruct (fragments sc' !! obj) as [f'|], (fragments sc !! obj) as [f|];
    cbn in El; try discriminate El; [|reflexivity].
  injection El as -> _. reflexivity.
Qed.

Lemma reads_compute_world_bbox (objs : list nat) :
  reads_cache (TreesToGrid.compute_world_bbox objs).
Proof.
  unfold TreesToGrid.compute_world_bbox.
  apply reads_bind.
  - apply reads_for_fold; intros acc obj.
    + apply reads_bind.
      * apply reads_try_except; [| |apply reads_ret].
        -- apply reads_bind; [apply reads_get_bound_box | apply keeps_get_bound_box
                             | intros bb; apply reads_ret].
        -- apply keeps_bind; [apply keeps_get_bound_box | intros bb; apply keeps_ret].
      * apply keeps_try_except; [|apply keeps_ret].
        apply keeps_bind; [apply keeps_get_bound_box | intros bb; apply keeps_ret].
      * intros [bb|]; [|apply reads_ret].
        apply reads_for_fold; intros acc' v.
        -- apply reads_bind; [apply reads_get_matrix_world
                             | apply keeps_get_matrix_world
                             | intros mw; apply reads_ret].
        -- apply keeps_bind; [apply keeps_get_matrix_world
                             | intros mw; apply keeps_ret].
    + apply keeps_bind.
      * apply keeps_try_except; [|apply keeps_ret].
        apply keeps_bind; [apply keeps_get_bound_box | intros bb; apply keeps_ret].
      * intros [bb|]; [|apply keeps_ret].
        apply keeps_for_fold. intros acc' v.
        apply keeps_bind; [apply keeps_get_matrix_world | intros mw; apply keeps_ret].
  - apply keeps_for_fold. intros acc obj. apply keeps_bind.
    + apply keeps_try_except; [|apply keeps_ret].
      apply keeps_bind; [apply keeps_get_bound_box | intros bb; apply keeps_ret].
    + intros [bb|]; [|apply keeps_ret].
      apply keeps_for_fold. intros acc' v.
      apply keeps_bind; [apply keeps_get_matrix_world | intros mw; apply keeps_ret].
  - intros [|c cs]; [apply reads_ret|].
    repeat (apply reads_bind; [apply reads_lift | apply keeps_lift | intros ?]).
    apply reads_ret.
Qed.

(** X19.  On the host's evaluated transforms, what [compute_world_bbox]
    gives for a group right after [align_group_with_empty] of
    [CE-trees-to-grid.py] has run, with no evaluation of the scene in
    between, is what it gave before the routine ran: the routine writes
    parents and the location of the anchor, and no matrix that
    [obj.matrix_world] returns.  The importer computes the place of a label
    in this way, so the label is put over the bounding box the group had
    when it was imported. *)
Theorem bbox_after_placement_is_stale (sc sc' : Scene) (objs : list nat)
    (cell_x cell_y : Z) (spacing : Q) (name collection : string)
    (r : option nat) :
  TreesToGrid.align_group_with_empty objs cell_x cell_y spacing name collection sc
    = (Returned r, sc') ->
  cache_of sc' = cache_of sc /\
  (TreesToGrid.compute_world_bbox objs sc').1
  = (TreesToGrid.compute_world_bbox objs sc).1.
Proof.
  intros H.
  pose proof (keeps_align_v2 objs cell_x cell_y spacing name collection sc) as E.
  rewrite H in E. cbn [snd] in E.
  split; [exact E|]. apply reads_compute_world_bbox. exact E.
Qed.

Lemma bbox_after_placement_is_stale_witness :
  cache_of
    (TreesToGrid.align_group_with_empty [0%nat] 1 0 50 "Fan" "Trees" one_fragment).2
  = cache_of one_fragment /\
  (TreesToGrid.compute_world_bbox [0%nat]
     (TreesToGrid.align_group_with_empty [0%nat] 1 0 50 "Fan" "Trees"
        one_fragment).2).1
  = (TreesToGrid.compute_world_bbox [0%nat] one_fragment).1.
Proof.
  apply (bbox_after_placement_is_stale one_fragment
           (TreesToGrid.align_group_with_empty [0%nat] 1 0 50 "Fan" "Trees"
              one_fragment).2
           [0%nat] 1 0 50 "Fan" "Trees" (Some 0%nat)).
  vm_compute. reflexivity.
Defined.

(** C7, without the contract of [Host].  The fragment of [one_fragment] is
    placed on the cell [(1, 0)] for the spacing 50 and the host evaluates
    the scene; its world position is then [(70, -27, 0)], on the cell.  The
    routine is run a second time for the same cell and the host evaluates
    the scene again.  Both runs return; the second computes the offset zero
    (its anchor stays at the origin); and yet the fragment does not stay:
    its world position is [(10, 10, 2)] again, where it was imported,
    because [obj.parent = a] moved it under an anchor at the origin.  Both
    importers.  When the host does not evaluate the scene between the two
    runs, the second run reads the matrices of the import and its offset is
    not zero. *)
Lemma second_placement_moves_group :
  (exists f1 f2 e,
     (TreeGrid.align_group_with_empty [0%nat] 1 0 50 "Fan" "Trees" one_fragment).1
       = Returned None /\
     (TreeGrid.align_group_with_empty [0%nat] 1 0 50 "Fan" "Trees"
        (placed_v1 one_fragment)).1 = Returned None /\
     fragments (placed_v1 one_fragment) !! 0%nat = Some f1 /\
     fragments (placed_v1 (placed_v1 one_fragment)) !! 0%nat = Some f2 /\
     anchors (placed_v1 (placed_v1 one_fragment)) !! 1%nat = Some e /\
     veq (Host.anchor_location e) vzero /\
     veq (translation (frag_matrix_world f1)) (mkVector 70 (-27) 0) /\
     veq (translation (frag_matrix_world f2)) (mkVector 10 10 2) /\
     ~ meq (frag_matrix_world f2) (frag_matrix_world f1)) /\
  (exists f1 f2 e,
     (TreesToGrid.align_group_with_empty [0%nat] 1 0 50 "Fan" "Trees" one_fragment).1
       = Returned (Some 0%nat) /\
     (TreesToGrid.align_group_with_empty [0%nat] 1 0 50 "Fan" "Trees"
        (placed_v2 one_fragment)).1 = Returned (Some 1%nat) /\
     fragments (placed_v2 one_fragment) !! 0%nat = Some f1 /\
     fragments (placed_v2 (placed_v2 one_fragment)) !! 0%nat = Some f2 /\
     anchors (placed_v2 (placed_v2 one_fragment)) !! 1%nat = Some e /\
     veq (Host.anchor_location e) vzero /\
     veq (translation (frag_matrix_world f1)) (mkVector 70 (-27) 0) /\
     veq (translation (frag_matrix_world f2)) (mkVector 10 10 2) /\
     ~ meq (frag_matrix_world f2) (frag_matrix_world f1)) /\
  (exists e1 e2,
     anchors
       (TreeGrid.align_group_with_empty [0%nat] 1 0 50 "Fan" "Trees"
          (TreeGrid.align_group_with_empty [0%nat] 1 0 50 "Fan" "Trees"
             one_fragment).2).2 !! 1%nat = Some e1 /\
     anchors
       (TreesToGrid.align_group_with_empty [0%nat] 1 0 50 "Fan" "Trees"
          (TreesToGrid.align_group_with_empty [0%nat] 1 0 50 "Fan" "Trees"
             one_fragment).2).2 !! 1%nat = Some e2 /\
     veq (Host.anchor_location e1) (mkVector 60 (-37) (-2)) /\
     veq (Host.anchor_location e2) (mkVector 60 (-37) (-2)) /\
     ~ veq (Host.anchor_location e1) vzero /\
     ~ veq (Host.anchor_location e2) vzero).
Proof.
  split; [|split].
  - eexists _, _, _.
    split; [vm_compute; reflexivity|]. split; [vm_compute; reflexivity|].
    split; [vm_compute; reflexivity|]. split; [vm_compute; reflexivity|].
    split; [vm_compute; reflexivity|].
    split; [vm_compute; repeat split|]. split; [vm_compute; repeat split|].
    split; [vm_compute; repeat split|].
    intros (_ & _ & _ & H & _). vm_compute in H. discriminate H.
  - eexists _, _, _.
    split; [vm_compute; reflexivity|]. split; [vm_compute; reflexivity|].
    split; [vm_compute; reflexivity|]. split; [vm_compute; reflexivity|].
    split; [vm_compute; reflexivity|].
    split; [vm_compute; repeat split|]. split; [vm_compute; repeat split|].
    split; [vm_compute; repeat split|].
    intros (_ & _ & _ & H & _). vm_compute in H. discriminate H.
  - eexists _, _.
    split; [vm_compute; reflexivity|]. split; [vm_compute; reflexivity|].
    split; [vm_compute; repeat split|]. split; [vm_compute; repeat split|].
    split; intros (H & _); vm_compute in H; discriminate H.
Qed.

End EvaluatedFacts.
